(** * CamTrawl metadata engine: a shallow embedding of [CamtrawlMetadata.py]

    The development follows the Python class [CamTrawlMetadata]: the SQLite
    tables are lists of typed rows, the attributes of the object are the
    fields of the record [Metadata], Python dictionaries are
    insertion-ordered association lists, and a method that mutates the
    object or raises is a computation in a small state-and-exception monad.

    What the program borrows from its runtime (datetime parsing and
    arithmetic, [float], the NMEA parser, SQLite's reading of text) is
    gathered in the class [Runtime]. *)

From Stdlib Require Import ZArith List String Ascii Bool Lia QArith.
From Stdlib Require Import DecimalString.
Import ListNotations.

Set Implicit Arguments.
Local Open Scope string_scope.
Local Open Scope Z_scope.
Local Open Scope list_scope.

(** ** Python values used by the program *)

(** Keys of dictionaries: strings and integers, compared with [==]. *)
Class Key (K : Type) := {
  key_eqb : K -> K -> bool;
  key_eqb_eq : forall a b, key_eqb a b = true <-> a = b
}.

#[export] Instance Key_string : Key string :=
  {| key_eqb := String.eqb; key_eqb_eq := String.eqb_eq |}.

#[export] Instance Key_Z : Key Z :=
  {| key_eqb := Z.eqb; key_eqb_eq := Z.eqb_eq |}.

(** [dict]: a Python 3.7+ dictionary.  Iteration follows insertion order;
    assigning to a key that is present keeps its position. *)
Module PyDict.
Section Dict.
Context {K V : Type} `{Key K}.

Definition t := list (K * V).

Definition empty : t := [].

Fixpoint get (k : K) (d : t) : option V :=
  match d with
  | [] => None
  | (k', v) :: d' => if key_eqb k k' then Some v else get k d'
  end.

Definition mem (k : K) (d : t) : bool :=
  match get k d with Some _ => true | None => false end.

(** [d[k] = v] *)
Fixpoint set (k : K) (v : V) (d : t) : t :=
  match d with
  | [] => [(k, v)]
  | (k', v') :: d' =>
      if key_eqb k k' then (k', v) :: d' else (k', v') :: set k v d'
  end.

(** [del d[k]] *)
Definition del (k : K) (d : t) : t :=
  filter (fun kv => negb (key_eqb k (fst kv))) d.

Definition keys (d : t) : list K := map fst d.
Definition items (d : t) : list (K * V) := d.

(** [dict] built by assigning the pairs of [l] in order. *)
Definition of_list (l : list (K * V)) : t :=
  fold_left (fun d kv => set (fst kv) (snd kv) d) l empty.

End Dict.
Arguments t : clear implicits.
End PyDict.

Abbreviation dict := PyDict.t.

(** Exceptions the modelled methods can raise. *)
Inductive exn : Type :=
| UnboundLocalError   (* a local name read before assignment *)
| ValueError          (* strptime on a malformed time, min() of nothing *)
| KeyError
| AttributeError
| OverflowError
| DbError (msg : string).

(** The result of running a method: a value, a Python exception, or the
    recursion budget of the model used up (see [query_n]). *)
Inductive outcome (A : Type) : Type :=
| Ok (a : A)
| Raise (e : exn)
| OutOfFuel.
Arguments Ok {A} a.
Arguments Raise {A} e.
Arguments OutOfFuel {A}.

(** ** Strings *)

Definition is_upper (c : ascii) : bool :=
  let n := nat_of_ascii c in (Nat.leb 65 n && Nat.leb n 90)%bool.
Definition is_lower (c : ascii) : bool :=
  let n := nat_of_ascii c in (Nat.leb 97 n && Nat.leb n 122)%bool.

Definition lower_char (c : ascii) : ascii :=
  if is_upper c then ascii_of_nat (nat_of_ascii c + 32) else c.
Definition upper_char (c : ascii) : ascii :=
  if is_lower c then ascii_of_nat (nat_of_ascii c - 32) else c.

(** [str.lower()] and [str.upper()] on the ASCII letters. *)
Fixpoint lower (s : string) : string :=
  match s with
  | EmptyString => EmptyString
  | String c s' => String (lower_char c) (lower s')
  end.
Fixpoint upper (s : string) : string :=
  match s with
  | EmptyString => EmptyString
  | String c s' => String (upper_char c) (upper s')
  end.

(** [s.startswith(p)], returning what follows the prefix. *)
Fixpoint strip_prefix (p s : string) : option string :=
  match p, s with
  | EmptyString, _ => Some s
  | String a p', String b s' =>
      if Ascii.eqb a b then strip_prefix p' s' else None
  | String _ _, EmptyString => None
  end.

(** [data.split(sep)] for a non-empty separator: the text is cut at every
    occurrence of [sep], scanning from the left; [cur] holds the characters
    of the piece being read, last first. *)
Fixpoint rev_string (acc s : string) : string :=
  match s with
  | EmptyString => acc
  | String c s' => rev_string (String c acc) s'
  end.

Fixpoint split_from (fuel : nat) (sep cur s : string) : list string :=
  match fuel with
  | O => [rev_string "" cur]
  | S fuel' =>
      match s with
      | EmptyString => [rev_string "" cur]
      | String c s' =>
          match strip_prefix sep s with
          | Some rest =>
              rev_string "" cur
                :: split_from (fuel' - (String.length sep - 1)) sep "" rest
          | None => split_from fuel' sep (String c cur) s'
          end
      end
  end.

(** [None] stands for the [ValueError] raised on an empty separator. *)
Definition split (sep s : string) : option (list string) :=
  match sep with
  | EmptyString => None
  | _ => Some (split_from (String.length s) sep "" s)
  end.

(** [l[i]] with Python's negative indices; [None] is [IndexError]. *)
Definition py_index {A} (l : list A) (i : Z) : option A :=
  let n := Z.of_nat (List.length l) in
  if (0 <=? i) && (i <? n) then nth_error l (Z.to_nat i)
  else if (- n <=? i) && (i <? 0) then nth_error l (Z.to_nat (n + i))
  else None.


#[export] Instance Key_pair {A B} `{Key A} `{Key B} : Key (A * B).
Proof.
  refine {| key_eqb := fun p q =>
              (key_eqb (fst p) (fst q) && key_eqb (snd p) (snd q))%bool |}.
  intros [a b] [a' b']; simpl. rewrite andb_true_iff, !key_eqb_eq.
  split; [intros [-> ->]; reflexivity | intros E; inversion E; auto].
Defined.

(** ** Row sets as SQLite returns them *)

(** [SELECT DISTINCT]: the first occurrence of each value, in scan order. *)
Fixpoint distinct {A} `{Key A} (l : list A) : list A :=
  match l with
  | [] => []
  | x :: l' => x :: filter (fun y => negb (key_eqb x y)) (distinct l')
  end.

(** [ORDER BY ... ASC], and Python's [sorted]: a stable insertion sort
    for the order [le]. *)
Fixpoint insert_by {A} (le : A -> A -> bool) (x : A) (l : list A) : list A :=
  match l with
  | [] => [x]
  | y :: l' => if le x y then x :: l else y :: insert_by le x l'
  end.

Definition sort_by {A} (le : A -> A -> bool) (l : list A) : list A :=
  fold_right (insert_by le) [] l.

Definition sorted (l : list Z) : list Z := sort_by Z.leb l.

(** [set(a).intersection(b)] *)
Definition set_intersection (a b : list Z) : list Z :=
  filter (fun x => existsb (Z.eqb x) b) a.

(** [min(keys)] and [max(keys)]; [None] is the [ValueError] raised on an
    empty sequence. *)
Definition min_key (l : list Z) : option Z :=
  match l with
  | [] => None
  | x :: l' => Some (fold_left Z.min l' x)
  end.
Definition max_key (l : list Z) : option Z :=
  match l with
  | [] => None
  | x :: l' => Some (fold_left Z.max l' x)
  end.

(** The value of a loop variable once the loop is over: the last element,
    or nothing when the loop body never ran. *)
Fixpoint last_opt {A} (l : list A) : option A :=
  match l with
  | [] => None
  | [x] => Some x
  | _ :: l' => last_opt l'
  end.

(** ** What the program takes from its runtime *)

(** The attributes [getLocations] looks for on a parsed NMEA sentence;
    [None] is an attribute the sentence type does not have. *)
Record NmeaMsg (F : Type) : Type := mkNmeaMsg {
  nm_latitude : option F;
  nm_longitude : option F;
  nm_status : option string;
  nm_quality : option Z
}.

Class Runtime : Type := {
  (** [datetime.datetime] *)
  datetime : Type;
  (** [datetime.strptime(s, "%Y-%m-%d %H:%M:%S.%f")]; [None]: it raises *)
  strptime : string -> option datetime;
  (** [t.strftime("%Y-%m-%d %H:%M:%S")] *)
  strftime : datetime -> string;
  (** [a < b] on datetimes *)
  datetime_ltb : datetime -> datetime -> bool;
  (** Python floats: [float(s)] ([None]: it raises), an int used where a
      float is expected, [a < b] *)
  float : Type;
  float_of_string : string -> option float;
  float_of_Z : Z -> float;
  float_ltb : float -> float -> bool;
  (** [t + datetime.timedelta(hours=h)]; [None]: it raises *)
  add_hours : datetime -> float -> option datetime;
  (** SQLite's [time between datetime(a) and datetime(b)] on a stored
      time text: [time_between a b time] *)
  time_between : string -> string -> string -> bool;
  (** [pynmea2.parse(data)] followed by the attribute reads of
      [getLocations]; [None]: one of them raises *)
  nmea_parse : string -> option (NmeaMsg float);
  (** the rows SQLite adds to [marks] for an INSERT whose text literal
      ends inside the description and whose remainder it may still accept
      (see [exec_insert_mark]) *)
  sqlite_insert_tail : Z -> string -> list (Z * string)
}.

(** ** The backing store *)

Record CameraRow : Type := mkCameraRow {
  cam_camera : string;
  cam_mac_address : string;
  cam_model : string;
  cam_label : string;
  cam_col4 : string   (* str() of the fifth column *)
}.

Record ImageRow : Type := mkImageRow {
  img_number : Z;
  img_camera : string;
  img_time : string;
  img_name : string;
  img_discarded : option Z;     (* NULL, 0 or 1 *)
  img_still_image : option Z
}.

Record DroppedRow : Type := mkDroppedRow {
  drp_number : Z;
  drp_camera : string;
  drp_time : string
}.

Record SensorRow : Type := mkSensorRow {
  sd_number : Z;
  sd_sensor_id : string;
  sd_header : string;
  sd_data : string
}.

Record AsyncRow : Type := mkAsyncRow {
  as_time : string;
  as_sensor_id : string;
  as_header : string;
  as_data : string
}.

(** The tables of [CamTrawlMetadata.db3].  [schema] lists the tables with
    their column names; a table that is absent has no rows, which is also
    what a SELECT on it yields through [QSqlQuery]. *)
Record Store : Type := mkStore {
  schema : list (string * list string);
  tbl_cameras : list CameraRow;
  tbl_images : list ImageRow;
  tbl_dropped : list DroppedRow;
  tbl_sensor_data : list SensorRow;
  tbl_async_data : list AsyncRow;
  tbl_marks : list (Z * string);
  tbl_deployment_data : list (string * string)
}.

(** ** The object *)

Section Model.
Context {RT : Runtime}.

Record CameraInfo : Type := mkCameraInfo {
  mac_address : string;
  model : string;
  label : string;
  orientation : Z
}.

(** [imageData[camera][number] = [recordedTime, utcTime, name]] *)
Definition ImageEntry : Type := (datetime * datetime * string)%type.

(** One value of [sensorData].  The program stores two kinds of things
    under the top-level keys: for a sensor id, a dictionary from header to
    [{frame: payload}]; for ['time'] and ['utc_time'], a dictionary from
    frame to a datetime.  Both live in one Python dict, so an entry has
    both parts (they are only both non-empty for a sensor that is itself
    called ['time'] or ['utc_time']). *)
Record SensorEntry : Type := mkSensorEntry {
  se_headers : dict string (dict Z string);
  se_times : dict Z datetime
}.

Definition empty_entry : SensorEntry := mkSensorEntry [] [].

(** [asyncData[id][header] = {'time': [], 'utc_time': [], 'data': []}] *)
Record AsyncSeries : Type := mkAsyncSeries {
  as_times : list datetime;
  as_utc_times : list datetime;
  as_payloads : list string
}.

(** The attributes of a [CamTrawlMetadata] instance. *)
Record Metadata : Type := mkMetadata {
  deploymentPath : string;
  dbFilename : string;
  imageExtension : option string;
  dbConnectionName : option string;
  startImage : Z;
  endImage : Z;
  startTime : option datetime;
  endTime : option datetime;
  cameras : dict string CameraInfo;
  imageData : dict string (dict Z ImageEntry);
  marks : dict Z string;
  sensorData : dict string SensorEntry;
  nDroppedImages : Z;
  droppedData : dict string (dict Z datetime);
  deploymentData : dict string string;
  asyncData : dict string (dict string AsyncSeries);
  imageNumbers : list Z;
  nCameras : Z
}.

Definition with_paths (p f : string) (e : option string) (s : Metadata) :=
  mkMetadata p f e (dbConnectionName s) (startImage s) (endImage s)
    (startTime s) (endTime s) (cameras s) (imageData s) (marks s)
    (sensorData s) (nDroppedImages s) (droppedData s) (deploymentData s)
    (asyncData s) (imageNumbers s) (nCameras s).
Definition with_imageExtension (e : option string) (s : Metadata) :=
  with_paths (deploymentPath s) (dbFilename s) e s.
Definition with_dbConnectionName (v : option string) (s : Metadata) :=
  mkMetadata (deploymentPath s) (dbFilename s) (imageExtension s) v
    (startImage s) (endImage s) (startTime s) (endTime s) (cameras s)
    (imageData s) (marks s) (sensorData s) (nDroppedImages s)
    (droppedData s) (deploymentData s) (asyncData s) (imageNumbers s)
    (nCameras s).
Definition with_startImage (v : Z) (s : Metadata) :=
  mkMetadata (deploymentPath s) (dbFilename s) (imageExtension s)
    (dbConnectionName s) v (endImage s) (startTime s) (endTime s)
    (cameras s) (imageData s) (marks s) (sensorData s) (nDroppedImages s)
    (droppedData s) (deploymentData s) (asyncData s) (imageNumbers s)
    (nCameras s).
Definition with_endImage (v : Z) (s : Metadata) :=
  mkMetadata (deploymentPath s) (dbFilename s) (imageExtension s)
    (dbConnectionName s) (startImage s) v (startTime s) (endTime s)
    (cameras s) (imageData s) (marks s) (sensorData s) (nDroppedImages s)
    (droppedData s) (deploymentData s) (asyncData s) (imageNumbers s)
    (nCameras s).
Definition with_timespan (a b : option datetime) (s : Metadata) :=
  mkMetadata (deploymentPath s) (dbFilename s) (imageExtension s)
    (dbConnectionName s) (startImage s) (endImage s) a b
    (cameras s) (imageData s) (marks s) (sensorData s) (nDroppedImages s)
    (droppedData s) (deploymentData s) (asyncData s) (imageNumbers s)
    (nCameras s).
Definition with_cameras (v : dict string CameraInfo) (s : Metadata) :=
  mkMetadata (deploymentPath s) (dbFilename s) (imageExtension s)
    (dbConnectionName s) (startImage s) (endImage s) (startTime s)
    (endTime s) v (imageData s) (marks s) (sensorData s)
    (nDroppedImages s) (droppedData s) (deploymentData s) (asyncData s)
    (imageNumbers s) (nCameras s).
Definition with_imageData (v : dict string (dict Z ImageEntry))
    (s : Metadata) :=
  mkMetadata (deploymentPath s) (dbFilename s) (imageExtension s)
    (dbConnectionName s) (startImage s) (endImage s) (startTime s)
    (endTime s) (cameras s) v (marks s) (sensorData s)
    (nDroppedImages s) (droppedData s) (deploymentData s) (asyncData s)
    (imageNumbers s) (nCameras s).
Definition with_marks (v : dict Z string) (s : Metadata) :=
  mkMetadata (deploymentPath s) (dbFilename s) (imageExtension s)
    (dbConnectionName s) (startImage s) (endImage s) (startTime s)
    (endTime s) (cameras s) (imageData s) v (sensorData s)
    (nDroppedImages s) (droppedData s) (deploymentData s) (asyncData s)
    (imageNumbers s) (nCameras s).
Definition with_sensorData (v : dict string SensorEntry) (s : Metadata) :=
  mkMetadata (deploymentPath s) (dbFilename s) (imageExtension s)
    (dbConnectionName s) (startImage s) (endImage s) (startTime s)
    (endTime s) (cameras s) (imageData s) (marks s) v
    (nDroppedImages s) (droppedData s) (deploymentData s) (asyncData s)
    (imageNumbers s) (nCameras s).
Definition with_nDroppedImages (v : Z) (s : Metadata) :=
  mkMetadata (deploymentPath s) (dbFilename s) (imageExtension s)
    (dbConnectionName s) (startImage s) (endImage s) (startTime s)
    (endTime s) (cameras s) (imageData s) (marks s) (sensorData s)
    v (droppedData s) (deploymentData s) (asyncData s)
    (imageNumbers s) (nCameras s).
Definition with_droppedData (v : dict string (dict Z datetime))
    (s : Metadata) :=
  mkMetadata (deploymentPath s) (dbFilename s) (imageExtension s)
    (dbConnectionName s) (startImage s) (endImage s) (startTime s)
    (endTime s) (cameras s) (imageData s) (marks s) (sensorData s)
    (nDroppedImages s) v (deploymentData s) (asyncData s)
    (imageNumbers s) (nCameras s).
Definition with_deploymentData (v : dict string string) (s : Metadata) :=
  mkMetadata (deploymentPath s) (dbFilename s) (imageExtension s)
    (dbConnectionName s) (startImage s) (endImage s) (startTime s)
    (endTime s) (cameras s) (imageData s) (marks s) (sensorData s)
    (nDroppedImages s) (droppedData s) v (asyncData s)
    (imageNumbers s) (nCameras s).
Definition with_asyncData (v : dict string (dict string AsyncSeries))
    (s : Metadata) :=
  mkMetadata (deploymentPath s) (dbFilename s) (imageExtension s)
    (dbConnectionName s) (startImage s) (endImage s) (startTime s)
    (endTime s) (cameras s) (imageData s) (marks s) (sensorData s)
    (nDroppedImages s) (droppedData s) (deploymentData s) v
    (imageNumbers s) (nCameras s).
Definition with_imageNumbers (v : list Z) (s : Metadata) :=
  mkMetadata (deploymentPath s) (dbFilename s) (imageExtension s)
    (dbConnectionName s) (startImage s) (endImage s) (startTime s)
    (endTime s) (cameras s) (imageData s) (marks s) (sensorData s)
    (nDroppedImages s) (droppedData s) (deploymentData s) (asyncData s)
    v (nCameras s).
Definition with_nCameras (v : Z) (s : Metadata) :=
  mkMetadata (deploymentPath s) (dbFilename s) (imageExtension s)
    (dbConnectionName s) (startImage s) (endImage s) (startTime s)
    (endTime s) (cameras s) (imageData s) (marks s) (sensorData s)
    (nDroppedImages s) (droppedData s) (deploymentData s) (asyncData s)
    (imageNumbers s) v.

(** [clear]: the snapshot is emptied; paths, the connection name and
    [nCameras] are left alone. *)
Definition clear (s : Metadata) : Metadata :=
  mkMetadata (deploymentPath s) (dbFilename s) (imageExtension s)
    (dbConnectionName s) (-1) 0 None None [] [] [] [] 0 [] [] [] []
    (nCameras s).

(** [__init__] *)
Definition init : Metadata :=
  mkMetadata "" "" (Some "") None (-1) 0 None None [] [] [] [] 0 [] [] []
    [] 0.

(** [not self.dbConnectionName] is true for [None] and for [''] *)
Definition connected (s : Metadata) : bool :=
  match dbConnectionName s with
  | None => false
  | Some EmptyString => false
  | Some _ => true
  end.

(** ** Methods as computations *)

Definition M (A : Type) : Type := Metadata -> outcome A * Metadata.

Definition ret {A} (a : A) : M A := fun s => (Ok a, s).

Definition bind {A B} (m : M A) (k : A -> M B) : M B :=
  fun s =>
    match m s with
    | (Ok a, s') => k a s'
    | (Raise e, s') => (Raise e, s')
    | (OutOfFuel, s') => (OutOfFuel, s')
    end.

Definition raise {A} (e : exn) : M A := fun s => (Raise e, s).
Definition out_of_fuel {A} : M A := fun s => (OutOfFuel, s).
Definition gets {A} (f : Metadata -> A) : M A := fun s => (Ok (f s), s).
Definition modify (f : Metadata -> Metadata) : M unit :=
  fun s => (Ok tt, f s).

(** A value that may be missing: [None] raises [e]. *)
Definition or_raise {A} (e : exn) (o : option A) : M A :=
  match o with Some a => ret a | None => raise e end.

(** [for x in l: body(x)] and [while query.next(): body(row)] *)
Fixpoint for_each {X} (l : list X) (body : X -> M unit) : M unit :=
  match l with
  | [] => ret tt
  | x :: l' => bind (body x) (fun _ => for_each l' body)
  end.

End Model.

Declare Scope py_scope.
Delimit Scope py_scope with py.
Notation "x <- c ;; k" := (bind c (fun x => k))
  (at level 61, c at next level, right associativity) : py_scope.
Notation "c ;; k" := (bind c (fun _ => k))
  (at level 61, right associativity) : py_scope.

(** ** [query] *)

Section Query.
Context {RT : Runtime}.
Local Open Scope py_scope.

Definition startTimeStr (startTime : option datetime) : string :=
  match startTime with
  | Some t => strftime t
  | None => "1900-01-01 01:00:00"
  end.

Definition endTimeStr (endTime : option datetime) : string :=
  match endTime with
  | Some t => strftime t
  | None => "2999-01-01 01:00:00"
  end.

(** [timeClause], evaluated on a stored time *)
Definition timeClause (startTime endTime : option datetime) (time : string)
  : bool :=
  time_between (startTimeStr startTime) (endTimeStr endTime) time.

(** [discardClause]: [(discarded IS NULL or discarded=0)] *)
Definition discardClause (r : ImageRow) : bool :=
  match img_discarded r with
  | None => true
  | Some d => d =? 0
  end.

Definition is_still (r : ImageRow) : bool :=
  match img_still_image r with
  | Some v => v =? 1
  | None => false
  end.

(** The rows of the image statement for one camera:
    [camera='...' AND still_image=1 AND (discardClause AND) timeClause
     ORDER BY number ASC].  The camera name comes from the store itself
    (the [cameras] table or the [camera] column of [images]) and is read
    here as the value it names: names are taken to hold no apostrophe. *)
Definition image_filter (camera : string) (returnDiscards : bool)
    (startTime endTime : option datetime) (r : ImageRow) : bool :=
  String.eqb (img_camera r) camera && is_still r
  && (returnDiscards || discardClause r)
  && timeClause startTime endTime (img_time r).

Definition select_images (db : Store) (camera : string)
    (returnDiscards : bool) (startTime endTime : option datetime)
  : list ImageRow :=
  sort_by (fun a b => img_number a <=? img_number b)
    (filter (image_filter camera returnDiscards startTime endTime)
       (tbl_images db)).

(** "determine the number of dropped images": the value of the first row
    of [SELECT DISTINCT number FROM dropped] *)
Definition load_dropped_count (db : Store) : M unit :=
  modify (with_nDroppedImages 0) ;;
  match distinct (map drp_number (tbl_dropped db)) with
  | first :: _ => modify (with_nDroppedImages first)
  | [] => ret tt
  end.

Definition orientation_of (col4 : string) : Z :=
  let rot := lower col4 in
  if String.eqb rot "none" then 0
  else if String.eqb rot "cw90" then 90
  else if String.eqb rot "cw180" then 180
  else if String.eqb rot "cw270" then 270
  else if String.eqb rot "fliplr" then -1
  else if String.eqb rot "flipud" then -2
  else 0.

Definition set_camera (name : string) (info : CameraInfo) : M unit :=
  modify (fun s => with_cameras (PyDict.set name info (cameras s)) s).

Definition load_camera_row (row : CameraRow) : M unit :=
  set_camera (cam_camera row)
    (mkCameraInfo (cam_mac_address row) (cam_model row) (cam_label row)
       (orientation_of (cam_col4 row))) ;;
  modify (fun s => with_nCameras (nCameras s + 1) s).

Definition load_cameras (db : Store) : M unit :=
  modify (with_nCameras 0) ;;
  for_each (tbl_cameras db) load_camera_row ;;
  n <- gets nCameras ;;
  if n =? 0 then
    (* an older store: the cameras named by the image rows *)
    modify (with_nCameras 0) ;;
    for_each (distinct (map img_camera (tbl_images db)))
      (fun c => set_camera c (mkCameraInfo "" "" "" 0)) ;;
    modify (fun s => with_nCameras (nCameras s + 1) s)
  else ret tt.

(** Reads [deployment_data] and returns [timeOffset]. *)
Definition load_deployment_data (db : Store) : M float :=
  modify (with_deploymentData []) ;;
  for_each (tbl_deployment_data db)
    (fun r => modify (fun s =>
       with_deploymentData (PyDict.set (fst r) (snd r) (deploymentData s)) s)) ;;
  d <- gets deploymentData ;;
  ret (match PyDict.get "hours_offset_to_utc" d with
       | Some v =>
           match float_of_string v with
           | Some f => f
           | None => float_of_Z 0
           end
       | None => float_of_Z 0
       end).

(** [recordedTime] and [utcTime] of a stored time *)
Definition times_of (timeOffset : float) (time : string)
  : M (datetime * datetime) :=
  recordedTime <- or_raise ValueError (strptime time) ;;
  utcTime <- or_raise OverflowError (add_hours recordedTime timeOffset) ;;
  ret (recordedTime, utcTime).

Definition load_dropped_row (timeOffset : float) (row : DroppedRow)
  : M unit :=
  t <- times_of timeOffset (drp_time row) ;;
  d <- gets droppedData ;;
  inner <- or_raise KeyError (PyDict.get (drp_camera row) d) ;;
  modify (with_droppedData
            (PyDict.set (drp_camera row)
               (PyDict.set (drp_number row) (snd t) inner) d)).

Definition load_dropped (db : Store) (timeOffset : float) : M unit :=
  modify (with_droppedData []) ;;
  for_each (distinct (map drp_camera (tbl_dropped db)))
    (fun c => modify (fun s =>
       with_droppedData (PyDict.set c [] (droppedData s)) s)) ;;
  for_each (tbl_dropped db) (load_dropped_row timeOffset).

(** The body of [while query.next()] in the image loop. *)
Definition load_image_row (camera : string) (timeOffset : float)
    (row : ImageRow) : M unit :=
  si <- gets startImage ;;
  (if si =? -1 then modify (with_startImage (img_number row)) else ret tt) ;;
  t <- times_of timeOffset (img_time row) ;;
  d <- gets imageData ;;
  inner <- or_raise KeyError (PyDict.get camera d) ;;
  modify (with_imageData
            (PyDict.set camera
               (PyDict.set (img_number row) (fst t, snd t, img_name row)
                  inner) d)) ;;
  modify (with_endImage (img_number row)).

Definition load_camera_images (db : Store) (timeOffset : float)
    (returnDiscards : bool) (startTime endTime : option datetime)
    (camera : string) : M unit :=
  modify (fun s => with_imageData (PyDict.set camera [] (imageData s)) s) ;;
  for_each (select_images db camera returnDiscards startTime endTime)
    (load_image_row camera timeOffset).

(** [for camera in self.cameras: ...]; the result is the binding of
    [camera] that the statements after the loop see. *)
Definition load_images (db : Store) (timeOffset : float)
    (returnDiscards : bool) (startTime endTime : option datetime)
  : M (option string) :=
  cams <- gets (fun s => PyDict.keys (cameras s)) ;;
  for_each cams
    (load_camera_images db timeOffset returnDiscards startTime endTime) ;;
  ret (last_opt cams).

(** "now build an index of image numbers".  The value of
    [start_set.intersection(...)] is not assigned to anything. *)
Definition build_index (camera : option string) : M unit :=
  camera <- or_raise UnboundLocalError camera ;;
  d <- gets imageData ;;
  inner <- or_raise KeyError (PyDict.get camera d) ;;
  let start_set := distinct (PyDict.keys inner) in
  cams <- gets (fun s => PyDict.keys (cameras s)) ;;
  for_each cams
    (fun otherCam =>
       if String.eqb otherCam camera then ret tt
       else
         d <- gets imageData ;;
         other <- or_raise KeyError (PyDict.get otherCam d) ;;
         let _unused := set_intersection start_set (PyDict.keys other) in
         ret tt) ;;
  modify (with_imageNumbers (sorted start_set)).

(** [self.sensorData[sensorId][sensorHeader] = {}] *)
Definition init_sensor_header (sensorId sensorHeader : string) : M unit :=
  d <- gets sensorData ;;
  e <- or_raise KeyError (PyDict.get sensorId d) ;;
  modify (with_sensorData
            (PyDict.set sensorId
               (mkSensorEntry (PyDict.set sensorHeader [] (se_headers e))
                  (se_times e)) d)).

Definition init_sensor_id (db : Store) (sensorId : string) : M unit :=
  modify (fun s =>
    with_sensorData (PyDict.set sensorId empty_entry (sensorData s)) s) ;;
  for_each
    (distinct (map sd_header
       (filter (fun r => String.eqb (sd_sensor_id r) sensorId)
          (tbl_sensor_data db))))
    (init_sensor_header sensorId).

(** The rows of
    [SELECT DISTINCT im.number, im.time, sd.sensor_id, sd.header, sd.data
     FROM images im, sensor_data sd WHERE im.number = sd.number
     AND im.number >= startImage AND im.number <= endImage] *)
Definition sensor_join (db : Store) (lo hi : Z)
  : list (Z * string * string * string * string) :=
  distinct
    (flat_map
       (fun im =>
          if (lo <=? img_number im) && (img_number im <=? hi) then
            map (fun sd => (img_number im, img_time im, sd_sensor_id sd,
                            sd_header sd, sd_data sd))
              (filter (fun sd => sd_number sd =? img_number im)
                 (tbl_sensor_data db))
          else [])
       (tbl_images db)).

(** [self.sensorData[key][number] = t] for [key] ['time'] or ['utc_time'] *)
Definition set_sensor_time (key : string) (number : Z) (t : datetime)
    (d : dict string SensorEntry) : option (dict string SensorEntry) :=
  match PyDict.get key d with
  | Some e =>
      Some (PyDict.set key
              (mkSensorEntry (se_headers e) (PyDict.set number t (se_times e)))
              d)
  | None => None
  end.

(** [self.sensorData[sensorId][sensorHeader][number] = data] *)
Definition set_sensor_value (sensorId sensorHeader : string) (number : Z)
    (data : string) (d : dict string SensorEntry)
  : option (dict string SensorEntry) :=
  match PyDict.get sensorId d with
  | Some e =>
      match PyDict.get sensorHeader (se_headers e) with
      | Some frames =>
          Some (PyDict.set sensorId
                  (mkSensorEntry
                     (PyDict.set sensorHeader
                        (PyDict.set number data frames) (se_headers e))
                     (se_times e)) d)
      | None => None
      end
  | None => None
  end.

(** One row of the fill loop.  The three assignments sit in a [try] whose
    [except KeyError] passes: the first lookup that fails ends the row,
    keeping what was assigned before it. *)
Definition fill_sensor_row (timeOffset : float)
    (row : Z * string * string * string * string) : M unit :=
  let '(number, time, sensorId, sensorHeader, data) := row in
  t <- times_of timeOffset time ;;
  d <- gets sensorData ;;
  match set_sensor_value sensorId sensorHeader number data d with
  | None => ret tt
  | Some d1 =>
      modify (with_sensorData d1) ;;
      match set_sensor_time "time" number (fst t) d1 with
      | None => ret tt
      | Some d2 =>
          modify (with_sensorData d2) ;;
          match set_sensor_time "utc_time" number (snd t) d2 with
          | None => ret tt
          | Some d3 => modify (with_sensorData d3)
          end
      end
  end.

Definition load_sensor_data (db : Store) (timeOffset : float) : M unit :=
  modify (with_sensorData
            (PyDict.set "utc_time" empty_entry
               (PyDict.set "time" empty_entry []))) ;;
  for_each (distinct (map sd_sensor_id (tbl_sensor_data db)))
    (init_sensor_id db) ;;
  lo <- gets startImage ;;
  hi <- gets endImage ;;
  for_each (sensor_join db lo hi) (fill_sensor_row timeOffset).

Definition empty_series : AsyncSeries := mkAsyncSeries [] [] [].

Definition init_async_header (sensorID sensorHeader : string) : M unit :=
  d <- gets asyncData ;;
  e <- or_raise KeyError (PyDict.get sensorID d) ;;
  modify (with_asyncData
            (PyDict.set sensorID (PyDict.set sensorHeader empty_series e) d)).

Definition init_async_id (db : Store) (sensorID : string) : M unit :=
  modify (fun s => with_asyncData (PyDict.set sensorID [] (asyncData s)) s) ;;
  for_each
    (distinct (map as_header
       (filter (fun r => String.eqb (as_sensor_id r) sensorID)
          (tbl_async_data db))))
    (init_async_header sensorID).

Definition fill_async_row (timeOffset : float) (row : AsyncRow) : M unit :=
  t <- times_of timeOffset (as_time row) ;;
  d <- gets asyncData ;;
  match PyDict.get (as_sensor_id row) d with
  | None => ret tt
  | Some e =>
      match PyDict.get (as_header row) e with
      | None => ret tt
      | Some ser =>
          modify (with_asyncData
            (PyDict.set (as_sensor_id row)
               (PyDict.set (as_header row)
                  (mkAsyncSeries (as_times ser ++ [fst t])
                     (as_utc_times ser ++ [snd t])
                     (as_payloads ser ++ [as_data row])) e) d))
      end
  end.

(** [... FROM async_data WHERE timeClause ORDER BY time]: the stored time
    is text and is ordered as text. *)
Definition select_async (db : Store) (startTime endTime : option datetime)
  : list AsyncRow :=
  sort_by (fun a b => String.leb (as_time a) (as_time b))
    (filter (fun r => timeClause startTime endTime (as_time r))
       (tbl_async_data db)).

Definition load_async_data (db : Store) (timeOffset : float)
    (startTime endTime : option datetime) : M unit :=
  for_each (distinct (map as_sensor_id (tbl_async_data db)))
    (init_async_id db) ;;
  for_each (select_async db startTime endTime) (fill_async_row timeOffset).

(** The marks inside [[startImage, endImage]] *)
Definition select_marks (db : Store) (lo hi : Z) : list (Z * string) :=
  filter (fun r => (lo <=? fst r) && (fst r <=? hi)) (tbl_marks db).

Definition load_marks (db : Store) : M unit :=
  lo <- gets startImage ;;
  hi <- gets endImage ;;
  for_each (select_marks db lo hi)
    (fun r => modify (fun s =>
       with_marks (PyDict.set (fst r) (snd r) (marks s)) s)).

(** The loop of [getTimespan]. *)
Fixpoint timespan_loop (cams : list string)
    (timespan : option datetime * option datetime)
  : M (option datetime * option datetime) :=
  match cams with
  | [] => ret timespan
  | camera :: rest =>
      d <- gets imageData ;;
      inner <- or_raise KeyError (PyDict.get camera d) ;;
      startFrame <- or_raise ValueError (min_key (PyDict.keys inner)) ;;
      endFrame <- or_raise ValueError (max_key (PyDict.keys inner)) ;;
      first <- or_raise KeyError (PyDict.get startFrame inner) ;;
      final <- or_raise KeyError (PyDict.get endFrame inner) ;;
      let startTime := fst (fst first) in
      let endTime := fst (fst final) in
      let t0 :=
        match fst timespan with
        | None => startTime
        | Some t => if datetime_ltb startTime t then startTime else t
        end in
      let t1 :=
        match snd timespan with
        | None => endTime
        | Some t => if datetime_ltb t endTime then endTime else t
        end in
      timespan_loop rest (Some t0, Some t1)
  end.

(** [getTimespan], with the call [self.query()] it makes on an empty
    [imageData] passed in as [requery]. *)
Definition getTimespan_with (requery : M unit)
  : M (option datetime * option datetime) :=
  d <- gets imageData ;;
  (match d with [] => requery | _ :: _ => ret tt end) ;;
  cams <- gets (fun s => PyDict.keys (cameras s)) ;;
  timespan_loop cams (None, None).

(** The statements of [query] from [self.clear()] to the loading of the
    marks. *)
Definition load_snapshot (db : Store) (startTime endTime : option datetime)
    (returnDiscards : bool) : M unit :=
  modify clear ;;
  load_dropped_count db ;;
  load_cameras db ;;
  timeOffset <- load_deployment_data db ;;
  load_dropped db timeOffset ;;
  camera <- load_images db timeOffset returnDiscards startTime endTime ;;
  build_index camera ;;
  load_sensor_data db timeOffset ;;
  load_async_data db timeOffset startTime endTime ;;
  load_marks db.

(** [query] and [getTimespan] call each other; [fuel] bounds the depth of
    that recursion ([query_n_fuel] shows one level is all that is used). *)
Fixpoint query_n (fuel : nat) (db : Store)
    (startTime endTime : option datetime) (returnDiscards : bool)
  : M unit :=
  match fuel with
  | O => out_of_fuel
  | S fuel' =>
      c <- gets connected ;;
      if negb c then ret tt
      else
        load_snapshot db startTime endTime returnDiscards ;;
        span <- getTimespan_with (query_n fuel' db None None false) ;;
        modify (with_timespan (fst span) (snd span))
  end.

Definition query (db : Store) (startTime endTime : option datetime)
    (returnDiscards : bool) : M unit :=
  query_n 2 db startTime endTime returnDiscards.

Definition getTimespan (db : Store)
  : M (option datetime * option datetime) :=
  getTimespan_with (query db None None false).

(** [if not self.imageData: self.query()] *)
Definition ensure_queried (db : Store) : M unit :=
  d <- gets imageData ;;
  match d with
  | [] => query db None None false
  | _ :: _ => ret tt
  end.

End Query.

(** ** Derived values: [getDepths] and [getLocations] *)

Section Resolvers.
Context {RT : Runtime}.
Local Open Scope py_scope.

(** [float(data.split(parseChar)[depthFieldNum])]; [None]: the [try]
    block raised. *)
Definition parse_depth (parseChar : string) (depthFieldNum : Z)
    (data : string) : option float :=
  match split parseChar data with
  | None => None
  | Some fields =>
      match py_index fields depthFieldNum with
      | None => None
      | Some field => float_of_string field
      end
  end.

(** The running [(depthMin, depthMax, depths)] after one more item. *)
Definition depth_step (parseChar : string) (depthFieldNum : Z)
    (acc : float * float * dict Z (option float)) (item : Z * string)
  : float * float * dict Z (option float) :=
  let '(depthMin, depthMax, depths) := acc in
  let '(imageNum, data) := item in
  match parse_depth parseChar depthFieldNum data with
  | Some depth =>
      if float_ltb depthMax depth then
        (depthMin, depth, PyDict.set imageNum (Some depth) depths)
      else if float_ltb depth depthMin then
        (depth, depthMax, PyDict.set imageNum (Some depth) depths)
      else
        (depthMin, depthMax, PyDict.set imageNum (Some depth) depths)
  | None => (depthMin, depthMax, PyDict.set imageNum None depths)
  end.

Definition depths_start : float * float * dict Z (option float) :=
  (float_of_Z 999999, float_of_Z (-999999), []).

(** The part of [getDepths] after the data is known to be loaded. *)
Definition depths_of (sd : dict string SensorEntry)
    (depthSensorID depthSensorHeader : string) (depthFieldNum : Z)
    (parseChar : string) : float * float * dict Z (option float) :=
  match PyDict.get depthSensorID sd with
  | Some e =>
      match PyDict.get depthSensorHeader (se_headers e) with
      | Some frames =>
          fold_left (depth_step parseChar depthFieldNum)
            (PyDict.items frames) depths_start
      | None => depths_start
      end
  | None => depths_start
  end.

Definition getDepths (db : Store) (depthSensorID depthSensorHeader : string)
    (depthFieldNum : Z) (parseChar : string)
  : M (float * float * dict Z (option float)) :=
  ensure_queried db ;;
  sd <- gets sensorData ;;
  ret (depths_of sd depthSensorID depthSensorHeader depthFieldNum parseChar).

(** The fix a parsed sentence contributes, if any: it needs a latitude
    and a longitude; with a [status] the status must read "a"; else with
    a [quality] the quality must be positive; else it is taken as is. *)
Definition fix_of (msg : NmeaMsg float) : option (float * float) :=
  match nm_latitude msg, nm_longitude msg with
  | Some lat, Some lon =>
      match nm_status msg with
      | Some st =>
          if String.eqb (lower st) "a" then Some (lat, lon) else None
      | None =>
          match nm_quality msg with
          | Some q => if 0 <? q then Some (lat, lon) else None
          | None => Some (lat, lon)
          end
      end
  | _, _ => None
  end.

(** What one datagram offers: [None] when it does not parse or is gated. *)
Definition datagram_fix (data : string) : option (float * float) :=
  match nmea_parse data with
  | Some msg => fix_of msg
  | None => None
  end.

Record Bounds : Type := mkBounds {
  latMin : float; latMax : float; lonMin : float; lonMax : float
}.

Definition update_bounds (b : Bounds) (loc : float * float) : Bounds :=
  let '(lat, lon) := loc in
  let '(mn, mx) :=
    if float_ltb (latMax b) lat then (latMin b, lat)
    else if float_ltb lat (latMin b) then (lat, latMax b)
    else (latMin b, latMax b) in
  let '(mn', mx') :=
    if float_ltb (lonMax b) lon then (lonMin b, lon)
    else if float_ltb lon (lonMin b) then (lon, lonMax b)
    else (lonMin b, lonMax b) in
  mkBounds mn mx mn' mx'.

(** One datagram of the inner loop of [getLocations]. *)
Definition location_step (acc : Bounds * dict Z (float * float))
    (item : Z * string) : Bounds * dict Z (float * float) :=
  let '(b, locations) := acc in
  let '(imageNum, data) := item in
  if PyDict.mem imageNum locations then acc
  else
    match datagram_fix data with
    | Some loc => (update_bounds b loc, PyDict.set imageNum loc locations)
    | None => acc
    end.

Definition locations_start : Bounds * dict Z (float * float) :=
  (mkBounds (float_of_Z 999999) (float_of_Z (-999999))
     (float_of_Z 999999) (float_of_Z (-999999)), []).

(** The datagrams of a sensor in the order the two loops visit them. *)
Definition datagrams (e : SensorEntry) : list (Z * string) :=
  flat_map (fun h => PyDict.items (snd h)) (PyDict.items (se_headers e)).

(** "allow for case insensitive matching on the location sensor ID" *)
Definition match_sensor_id (sd : dict string SensorEntry) (id : string)
  : string :=
  if PyDict.mem id sd then id
  else
    let id1 := if PyDict.mem (lower id) sd then lower id else id in
    if PyDict.mem (upper id1) sd then upper id1 else id1.

Definition deploymentBounds (b : Bounds)
  : (float * float) * (float * float) * (float * float) * (float * float) :=
  ((latMin b, lonMin b), (latMin b, lonMax b),
   (latMax b, lonMax b), (latMax b, lonMin b)).

(** The part of [getLocations] after the data is known to be loaded.  The
    keys of the entry are looped over as headers; one that is a frame of
    the time index holds a datetime, whose [.items()] does not exist. *)
Definition locations_of (sd : dict string SensorEntry)
    (locationSensorID : string)
  : outcome (Bounds * dict Z (float * float)) :=
  match PyDict.get (match_sensor_id sd locationSensorID) sd with
  | Some e =>
      match se_times e with
      | [] => Ok (fold_left location_step (datagrams e) locations_start)
      | _ :: _ => Raise AttributeError
      end
  | None => Ok locations_start
  end.

Definition getLocations (db : Store) (locationSensorID : string)
  : M ((float * float) * (float * float) * (float * float) * (float * float)
       * dict Z (float * float)) :=
  ensure_queried db ;;
  sd <- gets sensorData ;;
  match locations_of sd locationSensorID with
  | Ok (b, locations) => ret (deploymentBounds b, locations)
  | Raise e => raise e
  | OutOfFuel => out_of_fuel
  end.

End Resolvers.

(** ** Marks *)

(** [createMark] splices the description into the statement text between
    two apostrophes, so the row that reaches the table is the one SQLite
    reads back from that text.  SQLite reads a text literal from its
    opening apostrophe to the first apostrophe that is not doubled; a
    doubled apostrophe stands for one. *)
Inductive literal : Type :=
| Literal (value rest : string)   (* the text, and what follows it *)
| Unterminated.

Definition apostrophe : ascii := "'"%char.

Definition lit_cons (c : ascii) (l : literal) : literal :=
  match l with
  | Literal v rest => Literal (String c v) rest
  | Unterminated => Unterminated
  end.

(** Reads a literal whose opening apostrophe has been consumed. *)
Fixpoint scan_literal (s : string) : literal :=
  match s with
  | EmptyString => Unterminated
  | String c s' =>
      if Ascii.eqb c apostrophe then
        match s' with
        | String c' s'' =>
            if Ascii.eqb c' apostrophe then lit_cons apostrophe (scan_literal s'')
            else Literal "" s'
        | EmptyString => Literal "" s'
        end
      else lit_cons c (scan_literal s')
  end.

Fixpoint count_char (c : ascii) (s : string) : nat :=
  match s with
  | EmptyString => O
  | String c' s' => (if Ascii.eqb c c' then 1 else 0) + count_char c s'
  end.

(** SQLite reads a statement up to its first NUL character. *)
Fixpoint until_nul (s : string) : string :=
  match s with
  | EmptyString => EmptyString
  | String c s' =>
      if Ascii.eqb c Ascii.zero then EmptyString else String c (until_nul s')
  end.

(** A text that can stand between two apostrophes as it is: it holds no
    apostrophe and no NUL. *)
Definition plain (s : string) : bool :=
  Nat.eqb (count_char apostrophe s + count_char Ascii.zero s) 0.

(** After a literal that ended early, the rest of the statement cannot be
    tokenised when it holds an odd number of apostrophes and nothing that
    could hide one (a quoted name or a comment): the last apostrophe then
    opens a literal that never ends. *)
Definition double_quote : ascii := ascii_of_nat 34.

Definition untokenisable (rest : string) : bool :=
  Nat.odd (count_char apostrophe rest)
  && Nat.eqb (count_char double_quote rest + count_char "`"%char rest
              + count_char "["%char rest + count_char "-"%char rest
              + count_char "/"%char rest) 0.

Section Marks.
Context {RT : Runtime}.

Definition with_tbl_marks (v : list (Z * string)) (db : Store) : Store :=
  mkStore (schema db) (tbl_cameras db) (tbl_images db) (tbl_dropped db)
    (tbl_sensor_data db) (tbl_async_data db) v (tbl_deployment_data db).

(** The rows added by
    ["insert into marks (frame_number, mark_description) VALUES("
      + str(frame) + ",'" + description + "')"].
    A statement SQLite rejects adds nothing: [QSqlQuery] reports the
    failure in its state, which [createMark] does not look at. *)
Definition inserted_marks (frame : Z) (description : string)
  : list (Z * string) :=
  match scan_literal (until_nul (description ++ "')")%string) with
  | Unterminated => []
  | Literal v rest =>
      if String.eqb rest ")" then [(frame, v)]
      else if untokenisable rest then []
      else sqlite_insert_tail frame description
  end.

Definition exec_insert_mark (frame : Z) (description : string) (db : Store)
  : Store :=
  with_tbl_marks (tbl_marks db ++ inserted_marks frame description) db.

(** ["delete from marks where frame_number=" + str(frame)] *)
Definition exec_delete_mark (frame : Z) (db : Store) : Store :=
  with_tbl_marks (filter (fun r => negb (fst r =? frame)) (tbl_marks db)) db.

Definition removeMark (frame : Z) (w : Metadata * Store)
  : Metadata * Store :=
  let '(self, db) := w in
  if negb (connected self) then w
  else if PyDict.mem frame (marks self) then
    (with_marks (PyDict.del frame (marks self)) self,
     exec_delete_mark frame db)
  else w.

Definition createMark (frame : Z) (description : string)
    (w : Metadata * Store) : Metadata * Store :=
  if negb (connected (fst w)) then w
  else
    let '(self, db) := removeMark frame w in
    (with_marks (PyDict.set frame description (marks self)) self,
     exec_insert_mark frame description db).

(** The marks of the store at one frame, and of the snapshot. *)
Definition store_marks_at (frame : Z) (db : Store) : list string :=
  map snd (filter (fun r => fst r =? frame) (tbl_marks db)).

Definition snapshot_marks_at (frame : Z) (self : Metadata) : list string :=
  map snd (filter (fun r => fst r =? frame) (PyDict.items (marks self))).

End Marks.

(** ** [open]: bringing an older store up to date *)

(** SQLite matches table and column names without regard to ASCII case. *)
Definition same_name (a b : string) : bool := String.eqb (lower a) (lower b).

(** ['name' in db.tables()]: Python's [in], an exact comparison *)
Definition in_tables (name : string) (sch : list (string * list string))
  : bool :=
  existsb (String.eqb name) (map fst sch).

Definition table_exists (name : string) (sch : list (string * list string))
  : bool :=
  existsb (same_name name) (map fst sch).

(** [CREATE TABLE name (cols)]: refused when the table exists *)
Definition create_table (name : string) (cols : list string)
    (sch : list (string * list string)) : list (string * list string) :=
  if table_exists name sch then sch else sch ++ [(name, cols)].

(** The loop over [PRAGMA table_info(table)] looking for [column] *)
Definition has_column (table column : string)
    (sch : list (string * list string)) : bool :=
  existsb
    (fun t => same_name table (fst t)
              && existsb (fun c => String.eqb (lower c) column) (snd t))
    sch.

(** [ALTER TABLE table ADD COLUMN column ...]: refused when the table is
    missing or already has the column *)
Definition add_column (table column : string)
    (sch : list (string * list string)) : list (string * list string) :=
  map (fun t =>
         if same_name table (fst t)
            && negb (existsb (same_name column) (snd t))
         then (fst t, snd t ++ [column]) else t)
      sch.

(** The five "if the table doesn't exist, create it" steps. *)
Definition new_tables : list (string * list string) :=
  [ ("videos", ["camera"; "filename"; "start_frame"; "end_frame";
                "start_time"; "end_time"]);
    ("deployment", ["deployment_name"; "survey_name"; "vessel_name";
                    "camera_name"; "survey_description"; "deployment_time";
                    "deployment_latitude"; "deployment_longitude";
                    "max_deployment_depth"; "comments"]);
    ("marks", ["frame_number"; "mark_description"]);
    ("deployment_data", ["deployment_parameter"; "parameter_value"]);
    ("async_data", ["time"; "sensor_id"; "header"; "data"]) ].

(** The eight "if the column is missing, add it" steps. *)
Definition new_columns : list (string * string) :=
  [ ("cameras", "rotation"); ("cameras", "display_exposure");
    ("images", "exposure_us"); ("images", "discarded");
    ("images", "md5_checksum"); ("images", "gain");
    ("images", "still_image"); ("images", "video_frame") ].

Definition ensure_table (sch : list (string * list string))
    (t : string * list string) : list (string * list string) :=
  if in_tables (fst t) sch then sch else create_table (fst t) (snd t) sch.

Definition ensure_column (sch : list (string * list string))
    (c : string * string) : list (string * list string) :=
  if has_column (fst c) (snd c) sch then sch
  else add_column (fst c) (snd c) sch.

(** The schema after the checks of [open] have run. *)
Definition ensureSchema (sch : list (string * list string))
  : list (string * list string) :=
  fold_left ensure_column new_columns (fold_left ensure_table new_tables sch).

Definition with_schema (v : list (string * list string)) (db : Store)
  : Store :=
  mkStore v (tbl_cameras db) (tbl_images db) (tbl_dropped db)
    (tbl_sensor_data db) (tbl_async_data db) (tbl_marks db)
    (tbl_deployment_data db).

Definition with_tbl_images (v : list ImageRow) (db : Store) : Store :=
  mkStore (schema db) (tbl_cameras db) v (tbl_dropped db)
    (tbl_sensor_data db) (tbl_async_data db) (tbl_marks db)
    (tbl_deployment_data db).

Definition with_tbl_deployment_data (v : list (string * string))
    (db : Store) : Store :=
  mkStore (schema db) (tbl_cameras db) (tbl_images db) (tbl_dropped db)
    (tbl_sensor_data db) (tbl_async_data db) (tbl_marks db) v.

(** [INSERT INTO deployment_data (deployment_parameter,parameter_value)
     VALUES ('p','v')]: refused when the table is missing or, the
    parameter being the primary key, when it is already there *)
Definition insert_parameter (p v : string) (db : Store) : Store :=
  if table_exists "deployment_data" (schema db)
     && negb (existsb (fun r => String.eqb (fst r) p) (tbl_deployment_data db))
  then with_tbl_deployment_data (tbl_deployment_data db ++ [(p, v)]) db
  else db.

(** The data side of the steps: a column added with a DEFAULT gives that
    value to the rows already there, [deployment_data] is seeded when the
    check for it fails. *)
Definition migrate_table (db : Store) (t : string * list string) : Store :=
  if in_tables (fst t) (schema db) then db
  else
    let db1 := with_schema (create_table (fst t) (snd t) (schema db)) db in
    if String.eqb (fst t) "deployment_data"
    then insert_parameter "hours_offset_to_utc" "0" db1
    else db1.

Definition default_rows (c : string * string) (db : Store) : Store :=
  if same_name (fst c) "images" && table_exists "images" (schema db) then
    if String.eqb (snd c) "still_image" then
      with_tbl_images
        (map (fun r => mkImageRow (img_number r) (img_camera r) (img_time r)
                         (img_name r) (img_discarded r) (Some 1))
           (tbl_images db)) db
    else if String.eqb (snd c) "discarded" then
      with_tbl_images
        (map (fun r => mkImageRow (img_number r) (img_camera r) (img_time r)
                         (img_name r) None (img_still_image r))
           (tbl_images db)) db
    else db
  else db.

Definition migrate_column (db : Store) (c : string * string) : Store :=
  if has_column (fst c) (snd c) (schema db) then db
  else with_schema (add_column (fst c) (snd c) (schema db)) (default_rows c db).

Definition migrate (db : Store) : Store :=
  fold_left migrate_column new_columns (fold_left migrate_table new_tables db).

(** What [open] asks of the file system. *)
Record FileSystem : Type := mkFileSystem {
  isfile : string -> bool;
  normpath : string -> string;
  sep : string
}.

Definition imageTypes : list string := [".jpg"; ".jpeg"; ".tif"; ".tiff"].

Definition drop_first (s : string) : string :=
  match s with
  | EmptyString => EmptyString
  | String _ s' => s'
  end.

Definition starts_with_dot (s : string) : bool :=
  match s with
  | String c _ => Ascii.eqb c "."%char
  | EmptyString => false
  end.

Section Open.
Context {RT : Runtime}.

(** "lastly, we determine the image file type": the extension, and the
    store with the type written back when it had to be found on disk *)
Definition image_file_type (fs : FileSystem) (deploymentPath : string)
    (db : Store) : option string * Store :=
  let stored :=
    match filter (fun r => String.eqb (fst r) "image_file_type")
            (tbl_deployment_data db) with
    | (_, v) :: _ =>
        match v with
        | EmptyString => None
        | _ => if starts_with_dot (lower v) then Some (lower v)
               else Some ("." ++ lower v)%string
        end
    | [] => None
    end in
  match stored with
  | Some e => (Some e, db)
  | None =>
      match filter (fun r => discardClause r && is_still r) (tbl_images db)
      with
      | r :: _ =>
          let imagePath :=
            normpath fs (deploymentPath ++ sep fs ++ "images" ++ sep fs
                         ++ img_camera r ++ sep fs ++ img_name r)%string in
          match filter (fun t => isfile fs (imagePath ++ t)%string) imageTypes
          with
          | t :: _ => (Some t, insert_parameter "image_file_type" (drop_first t) db)
          | [] => (None, db)
          end
      | [] => (Some "", db)
      end
  end.

Definition dbFile (fs : FileSystem) (deploymentPath : string) : string :=
  normpath fs (deploymentPath ++ sep fs ++ "logs" ++ sep fs
               ++ "CamTrawlMetadata.db3")%string.

(** [open(deploymentPath, dbConnectionName)].  [db] is the content of the
    database file and [db_opens] the answer of [db.open()]. *)
Definition open (fs : FileSystem) (db_opens : bool) (deploymentPath : string)
    (name : string) (w : Metadata * Store)
  : outcome unit * (Metadata * Store) :=
  let '(self, db) := w in
  let self1 :=
    with_dbConnectionName (Some name)
      (with_paths deploymentPath (dbFilename self) (imageExtension self) self)
  in
  if isfile fs (dbFile fs deploymentPath) then
    if negb db_opens then
      (Raise (DbError "Error opening SQLite database file"), (self1, db))
    else
      let self2 :=
        with_paths deploymentPath (dbFile fs deploymentPath)
          (imageExtension self1) self1 in
      let db1 := migrate db in
      let '(ext, db2) := image_file_type fs deploymentPath db1 in
      (Ok tt, (with_imageExtension ext self2, db2))
  else (Raise (DbError "SQLite file does not exist"), (self1, db)).

End Open.

(** ** A runtime to run the model on concrete stores

    Datetimes are microseconds since 1970-01-01 (proleptic Gregorian
    calendar), floats are rationals, stored times are compared as text.
    The readers accept the zero-padded forms the acquisition software
    writes; the NMEA parser is given as a table from sentence to parsed
    attributes. *)
Module Demo.

Definition digit (c : ascii) : option Z :=
  let n := nat_of_ascii c in
  if (Nat.leb 48 n && Nat.leb n 57)%bool then Some (Z.of_nat (n - 48))
  else None.

(** Reads exactly [n] digits. *)
Fixpoint read_digits (n : nat) (acc : Z) (s : string) : option (Z * string) :=
  match n with
  | O => Some (acc, s)
  | S n' =>
      match s with
      | String c s' =>
          match digit c with
          | Some d => read_digits n' (10 * acc + d) s'
          | None => None
          end
      | EmptyString => None
      end
  end.

Definition expect (c : ascii) (s : string) : option string :=
  match s with
  | String c' s' => if Ascii.eqb c c' then Some s' else None
  | EmptyString => None
  end.

Definition is_leap (y : Z) : bool :=
  ((y mod 4 =? 0) && negb (y mod 100 =? 0)) || (y mod 400 =? 0).

Definition days_in_month (y m : Z) : Z :=
  if m =? 2 then (if is_leap y then 29 else 28)
  else if (m =? 4) || (m =? 6) || (m =? 9) || (m =? 11) then 30
  else 31.

Definition days_from_civil (y m d : Z) : Z :=
  let y' := if m <=? 2 then y - 1 else y in
  let era := y' / 400 in
  let yoe := y' - era * 400 in
  let doy := (153 * (if 2 <? m then m - 3 else m + 9) + 2) / 5 + d - 1 in
  era * 146097 + (yoe * 365 + yoe / 4 - yoe / 100 + doy) - 719468.

Definition civil_from_days (z : Z) : Z * Z * Z :=
  let z' := z + 719468 in
  let era := z' / 146097 in
  let doe := z' - era * 146097 in
  let yoe := (doe - doe / 1460 + doe / 36524 - doe / 146096) / 365 in
  let doy := doe - (365 * yoe + yoe / 4 - yoe / 100) in
  let mp := (5 * doy + 2) / 153 in
  let d := doy - (153 * mp + 2) / 5 + 1 in
  let m := if mp <? 10 then mp + 3 else mp - 9 in
  (yoe + era * 400 + (if m <=? 2 then 1 else 0), m, d).

Definition usec_per_day : Z := 86400000000.

Definition in_datetime_range (t : Z) : bool :=
  (days_from_civil 1 1 1 * usec_per_day <=? t)
  && (t <? (days_from_civil 9999 12 31 + 1) * usec_per_day).

(** "YYYY-MM-DD HH:MM:SS.ffffff" *)
Definition read_time (s : string) : option Z :=
  match read_digits 4 0 s with
  | Some (y, s) =>
  match expect "-" s with Some s =>
  match read_digits 2 0 s with Some (m, s) =>
  match expect "-" s with Some s =>
  match read_digits 2 0 s with Some (d, s) =>
  match expect " " s with Some s =>
  match read_digits 2 0 s with Some (hh, s) =>
  match expect ":" s with Some s =>
  match read_digits 2 0 s with Some (mm, s) =>
  match expect ":" s with Some s =>
  match read_digits 2 0 s with Some (ss, s) =>
  match expect "." s with Some s =>
  match read_digits 6 0 s with
  | Some (us, EmptyString) =>
      if (1 <=? y) && (1 <=? m) && (m <=? 12) && (1 <=? d)
         && (d <=? days_in_month y m) && (hh <? 24) && (mm <? 60)
         && (ss <? 60)
      then Some (days_from_civil y m d * usec_per_day
                 + ((hh * 60 + mm) * 60 + ss) * 1000000 + us)
      else None
  | _ => None
  end
  | None => None end | None => None end | None => None end
  | None => None end | None => None end | None => None end
  | None => None end | None => None end | None => None end
  | None => None end | None => None end
  | None => None
  end.

Definition digit_char (d : Z) : ascii := ascii_of_nat (48 + Z.to_nat d).

(** [z] in decimal on [n] digits, zero-padded. *)
Fixpoint pad (n : nat) (z : Z) (acc : string) : string :=
  match n with
  | O => acc
  | S n' => pad n' (z / 10) (String (digit_char (z mod 10)) acc)
  end.

(** "%Y-%m-%d %H:%M:%S" *)
Definition show_time (t : Z) : string :=
  let '(y, m, d) := civil_from_days (t / usec_per_day) in
  let secs := (t mod usec_per_day) / 1000000 in
  (pad 4 y "" ++ "-" ++ pad 2 m "" ++ "-" ++ pad 2 d "" ++ " "
   ++ pad 2 (secs / 3600) "" ++ ":" ++ pad 2 (secs / 60 mod 60) "" ++ ":"
   ++ pad 2 (secs mod 60) "")%string.

(** [t + timedelta(hours=h)], exact when [h] hours is a whole number of
    microseconds *)
Definition shift_hours (t : Z) (h : Q) : option Z :=
  let t' := t + (Qnum h * 3600000000) / Z.pos (Qden h) in
  if in_datetime_range t' then Some t' else None.

(** Reads the digits of [s], returning their value and how many there are. *)
Fixpoint read_number (acc : Z) (n : nat) (s : string) : Z * nat * string :=
  match s with
  | String c s' =>
      match digit c with
      | Some d => read_number (10 * acc + d) (S n) s'
      | None => (acc, n, s)
      end
  | EmptyString => (acc, n, s)
  end.

(** [float(s)] on a plain decimal: an optional sign, digits, and an
    optional fraction *)
Definition read_float (s : string) : option Q :=
  let '(sign, s1) :=
    match s with
    | String "-"%char s' => (-1, s')
    | String "+"%char s' => (1, s')
    | _ => (1, s)
    end in
  let '(ip, n1, s2) := read_number 0 0 s1 in
  match s2 with
  | EmptyString =>
      if Nat.eqb n1 0 then None else Some (inject_Z (sign * ip))
  | String "."%char s3 =>
      let '(fp, n2, s4) := read_number 0 0 s3 in
      match s4 with
      | EmptyString =>
          if Nat.eqb (n1 + n2) 0 then None
          else Some (Qmake (sign * (ip * 10 ^ Z.of_nat n2 + fp))
                       (Z.to_pos (10 ^ Z.of_nat n2)))
      | _ => None
      end
  | _ => None
  end.

Definition Qltb (a b : Q) : bool := negb (Qle_bool b a).

Definition text_between (a b time : string) : bool :=
  String.leb a time && String.leb time b.

Definition table_parse (table : list (string * NmeaMsg Q)) (data : string)
  : option (NmeaMsg Q) :=
  PyDict.get data table.

Definition runtime (nmea : list (string * NmeaMsg Q)) : Runtime :=
  {| datetime := Z;
     strptime := read_time;
     strftime := show_time;
     datetime_ltb := Z.ltb;
     float := Q;
     float_of_string := read_float;
     float_of_Z := inject_Z;
     float_ltb := Qltb;
     add_hours := shift_hours;
     time_between := text_between;
     nmea_parse := table_parse nmea;
     sqlite_insert_tail := fun _ _ => [] |}.

End Demo.

(** ** Stores to run the model on *)
Module Fixture.

(** The parser of the runs below, given by its answers. *)
Definition nmea : list (string * NmeaMsg Q) :=
  [ ("$fix,quality=0", mkNmeaMsg (Some (575#10)) (Some (-1521#10)) None (Some 0));
    ("$fix,quality=1", mkNmeaMsg (Some (576#10)) (Some (-1522#10)) None (Some 1));
    ("$fix,status=A", mkNmeaMsg (Some (577#10)) (Some (-1523#10)) (Some "A") None);
    ("$fix,status=V", mkNmeaMsg (Some (578#10)) (Some (-1524#10)) (Some "V") None);
    ("$fix,plain", mkNmeaMsg (Some (579#10)) (Some (-1525#10)) None None);
    ("$heading", mkNmeaMsg None None None None) ].

#[export] Instance RT : Runtime := Demo.runtime nmea.

(** The tables [convertToDatabase] creates. *)
Definition legacy_schema : list (string * list string) :=
  [ ("cameras", ["camera"; "mac_address"; "model"; "label"; "orientation"]);
    ("images", ["number"; "camera"; "time"; "name"; "exposure_us";
                "discarded"]);
    ("dropped", ["number"; "camera"; "time"]);
    ("sensor_data", ["number"; "sensor_id"; "header"; "data"]);
    ("deployment_data", ["deployment_parameter"; "parameter_value"]) ].

Definition image (number : Z) (camera time : string) : ImageRow :=
  mkImageRow number camera time "img" None (Some 1).

(** Two cameras, the frames 1, 2 on the first and 2, 3 on the second; one
    dropped frame, number 7; depth and position datagrams; a mark inside
    and a mark outside the frames. *)
Definition two_cameras : Store :=
  mkStore (ensureSchema legacy_schema)
    [ mkCameraRow "Left" "00-00-00-00-00-01" "Blackfly" "port" "NONE";
      mkCameraRow "Right" "00-00-00-00-00-02" "Blackfly" "starboard" "NONE" ]
    [ image 1 "Left" "2021-02-18 19:46:18.000000";
      image 2 "Left" "2021-02-18 19:46:19.000000";
      image 2 "Right" "2021-02-18 19:46:19.000000";
      image 3 "Right" "2021-02-18 19:46:20.000000" ]
    [ mkDroppedRow 7 "Right" "2021-02-18 19:46:24.000000" ]
    [ mkSensorRow 1 "CTControl" "$OHPR" "$OHPR,1,2,3,-999.0,15.5,0,0,0*00";
      mkSensorRow 2 "GPS" "$GPGGA" "$fix,quality=0";
      mkSensorRow 3 "GPS" "$GPGGA" "$fix,quality=1";
      mkSensorRow 2 "GPS" "$GPRMC" "$fix,status=A";
      mkSensorRow 3 "GPS" "$GPRMC" "$fix,status=A" ]
    []
    [ (2, "net in water"); (9, "haul back") ]
    [ ("hours_offset_to_utc", "2") ].

(** One camera with the frames 1, 2, 3. *)
Definition one_camera : Store :=
  mkStore (ensureSchema legacy_schema)
    [ mkCameraRow "Left" "00-00-00-00-00-01" "Blackfly" "port" "NONE" ]
    [ image 1 "Left" "2021-02-18 19:46:18.000000";
      image 2 "Left" "2021-02-18 19:46:19.000000";
      image 3 "Left" "2021-02-18 19:46:20.000000" ]
    [] [] [] [] [ ("hours_offset_to_utc", "0") ].

(** One camera whose first frame carries the number -1. *)
Definition frame_minus_one : Store :=
  mkStore (ensureSchema legacy_schema)
    [ mkCameraRow "Left" "00-00-00-00-00-01" "Blackfly" "port" "NONE" ]
    [ image (-1) "Left" "2021-02-18 19:46:18.000000";
      image 5 "Left" "2021-02-18 19:46:19.000000" ]
    [] [] [] [] [ ("hours_offset_to_utc", "0") ].

(** Two cameras, the second without a frame that is kept. *)
Definition idle_camera : Store :=
  mkStore (ensureSchema legacy_schema)
    [ mkCameraRow "Left" "00-00-00-00-00-01" "Blackfly" "port" "NONE";
      mkCameraRow "Right" "00-00-00-00-00-02" "Blackfly" "starboard" "NONE" ]
    [ image 1 "Left" "2021-02-18 19:46:18.000000";
      mkImageRow 1 "Right" "2021-02-18 19:46:18.000000" "img" (Some 1)
        (Some 1) ]
    [] [] [] [] [].

(** No camera and no image. *)
Definition no_camera : Store :=
  mkStore (ensureSchema legacy_schema) [] [] [] [] [] [] [].

(** A store as [convertToDatabase] leaves it: the older tables only. *)
Definition legacy : Store :=
  mkStore legacy_schema
    [ mkCameraRow "Left" "00-00-00-00-00-01" "Blackfly" "port" "0" ]
    [ mkImageRow 1 "Left" "2021-02-18 19:46:18" "00001_D20210218" None None ]
    [] [] [] [] [].

Definition files : FileSystem :=
  mkFileSystem
    (fun p => String.eqb p "/data/D1/logs/CamTrawlMetadata.db3"
              || String.eqb p "/data/D1/images/Left/00001_D20210218.jpg")
    (fun p => p) "/".

(** An object whose store is open. *)
Definition opened : Metadata :=
  with_dbConnectionName (Some "CTMetadata") init.

(** The position datagrams [query] loads from [two_cameras]. *)
Definition gps_entry : SensorEntry :=
  mkSensorEntry
    [ ("$GPGGA", [(2, "$fix,quality=0"); (3, "$fix,quality=1")]);
      ("$GPRMC", [(2, "$fix,status=A"); (3, "$fix,status=A")]) ]
    [].

Definition gps_data : dict string SensorEntry := [("GPS", gps_entry)].

End Fixture.

(** ** Vocabulary of the statements *)

Section Vocabulary.
Context {RT : Runtime}.

(** What a method establishes when it returns: [wp m s Q] holds when the
    run of [m] from [s] ends in a value and a state that satisfy [Q], or
    in an exception; it never holds for a run the model cuts short. *)
Definition wp {A} (m : M A) (s : Metadata) (Q : A -> Metadata -> Prop)
  : Prop :=
  match m s with
  | (Ok a, s') => Q a s'
  | (Raise _, _) => True
  | (OutOfFuel, _) => False
  end.

(** [m] leaves the part [proj] of the object alone, also when it raises. *)
Definition preserves {A B} (proj : Metadata -> B) (m : M A) : Prop :=
  forall s,
    match m s with
    | (OutOfFuel, _) => False
    | (_, s') => proj s' = proj s
    end.

(** The entry of [self.cameras] made from a row of [cameras]. *)
Definition camera_info (row : CameraRow) : string * CameraInfo :=
  (cam_camera row,
   mkCameraInfo (cam_mac_address row) (cam_model row) (cam_label row)
     (orientation_of (cam_col4 row))).

(** The cameras [query] knows: the rows of [cameras] or, when there are
    none, the camera names found in [images]. *)
Definition camera_registry (db : Store) : dict string CameraInfo :=
  match tbl_cameras db with
  | [] =>
      PyDict.of_list
        (map (fun c => (c, mkCameraInfo "" "" "" 0))
           (distinct (map img_camera (tbl_images db))))
  | rows => PyDict.of_list (map camera_info rows)
  end.

Definition known_cameras (db : Store) : list string :=
  PyDict.keys (camera_registry db).

(** The frame numbers one camera contributes, in the order of its rows. *)
Definition frames (db : Store) (returnDiscards : bool)
    (startTime endTime : option datetime) (camera : string) : list Z :=
  map img_number (select_images db camera returnDiscards startTime endTime).

(** The frame numbers in the order the image loop meets them. *)
Definition encountered (db : Store) (returnDiscards : bool)
    (startTime endTime : option datetime) : list Z :=
  flat_map (frames db returnDiscards startTime endTime) (known_cameras db).

(** [startImage] after the frames [l], starting from [cur]: it is
    assigned while it reads -1. *)
Definition latch (cur : Z) (l : list Z) : Z :=
  fold_left (fun si n => if si =? -1 then n else si) l cur.

(** The common-image-number index in the words of the specification:
    the frame numbers every known camera has, ascending. *)
Definition spec_common_image_numbers (db : Store) (returnDiscards : bool)
    (startTime endTime : option datetime) : list Z :=
  match known_cameras db with
  | [] => []
  | c :: rest =>
      sorted
        (fold_left
           (fun acc c' =>
              set_intersection acc (frames db returnDiscards startTime endTime c'))
           rest (distinct (frames db returnDiscards startTime endTime c)))
  end.

(** The first datagram of [l] that offers a fix for frame [n]. *)
Fixpoint first_fix (n : Z) (l : list (Z * string)) : option (float * float) :=
  match l with
  | [] => None
  | (n', data) :: l' =>
      if n' =? n then
        match datagram_fix data with
        | Some loc => Some loc
        | None => first_fix n l'
        end
      else first_fix n l'
  end.

(** The statement of the mark-uniqueness property: after the two calls
    the store and the snapshot both hold the one mark [y] at [f]. *)
Definition mark_replaced (self : Metadata) (db : Store) (f : Z)
    (x y : string) : Prop :=
  let w := createMark f y (createMark f x (self, db)) in
  store_marks_at f (snd w) = [y] /\ snapshot_marks_at f (fst w) = [y].

(** The statement about [startImage] and [endImage]: after a call that
    returns, on frames that are not all filtered out, [startImage] is the
    first frame met and [endImage] the last frame of the camera iterated
    last. *)
Definition first_and_last_seen (db : Store)
    (startTime endTime : option datetime) (returnDiscards : bool)
    (s : Metadata) : Prop :=
  forall s',
    query db startTime endTime returnDiscards s = (Ok tt, s') ->
    encountered db returnDiscards startTime endTime <> [] ->
    hd_error (encountered db returnDiscards startTime endTime)
    = Some (startImage s')
    /\ exists c, last_opt (known_cameras db) = Some c
                 /\ last_opt (frames db returnDiscards startTime endTime c)
                    = Some (endImage s').

(** [sorted] returns its elements in ascending order. *)
Inductive ascending : list Z -> Prop :=
| asc_nil : ascending []
| asc_one x : ascending [x]
| asc_cons x y l : x <= y -> ascending (y :: l) -> ascending (x :: y :: l).

(** The parts of the object a phase may have to leave alone. *)
Definition kept (s : Metadata) :=
  (dbConnectionName s, nDroppedImages s, cameras s, imageData s,
   startImage s, endImage s, imageNumbers s, marks s).

Section PerCall.
Variable db : Store.
Variables startTime endTime : option datetime.
Variable returnDiscards : bool.

Local Abbreviation frames_of := (frames db returnDiscards startTime endTime).

(** The image loop has visited the cameras [cams]. *)
Definition images_loaded (cams : list string) (s : Metadata) : Prop :=
  startImage s = latch (-1) (flat_map frames_of cams)
  /\ endImage s = last (flat_map frames_of cams) 0
  /\ forall c, In c cams ->
       exists d, PyDict.get c (imageData s) = Some d
                 /\ forall n, In n (PyDict.keys d) <-> In n (frames_of c).

(** The image loop is inside the rows of camera [x], [rdone] of them
    visited, after the cameras [done]. *)
Definition images_loading (done : list string) (x : string)
    (rdone : list ImageRow) (s : Metadata) : Prop :=
  startImage s
  = latch (-1) (flat_map frames_of done ++ map img_number rdone)
  /\ endImage s = last (flat_map frames_of done ++ map img_number rdone) 0
  /\ (exists d, PyDict.get x (imageData s) = Some d
                /\ forall n, In n (PyDict.keys d)
                             <-> In n (map img_number rdone))
  /\ forall c, In c done -> c <> x ->
       exists d, PyDict.get c (imageData s) = Some d
                 /\ forall n, In n (PyDict.keys d) <-> In n (frames_of c).

(** What the object holds when the statements of [load_snapshot] have
    run. *)
Definition snapshot_loaded (s : Metadata) : Prop :=
  nDroppedImages s = hd 0 (distinct (map drp_number (tbl_dropped db)))
  /\ cameras s = camera_registry db
  /\ images_loaded (known_cameras db) s
  /\ (exists c d, last_opt (known_cameras db) = Some c
                  /\ PyDict.get c (imageData s) = Some d
                  /\ imageNumbers s = sorted (distinct (PyDict.keys d)))
  /\ marks s = PyDict.of_list (select_marks db (startImage s) (endImage s)).

(** What a call of [query] on an open store that returns leaves behind:
    the snapshot, and a frame for every known camera. *)
Definition query_done (s s' : Metadata) : Prop :=
  dbConnectionName s' = dbConnectionName s
  /\ snapshot_loaded s'
  /\ forall c, In c (known_cameras db) -> frames_of c <> [].

End PerCall.

(** A column step has nothing left to do: the column is found, or there
    is no table to add it to. *)
Definition column_settled (c : string * string)
    (sch : list (string * list string)) : Prop :=
  has_column (fst c) (snd c) sch = true \/ table_exists (fst c) sch = false.

(** The schema has been through the checks of [open]. *)
Definition schema_settled (sch : list (string * list string)) : Prop :=
  (forall t, In t new_tables -> table_exists (fst t) sch = true)
  /\ (forall c, In c new_columns -> column_settled c sch).

(** The seeding of [deployment_data] has nothing left to do: the check
    for the table succeeds, or the default parameter is there. *)
Definition seeded (db : Store) : Prop :=
  in_tables "deployment_data" (schema db) = true
  \/ existsb (fun r => String.eqb (fst r) "hours_offset_to_utc")
       (tbl_deployment_data db) = true.

Definition store_settled (db : Store) : Prop :=
  schema_settled (schema db) /\ seeded db.

End Vocabulary.

(** ** [close], the mark lookups, and trimming a deployment *)

Section Housekeeping.
Context {RT : Runtime}.

(** [close]: without a connection name nothing happens; otherwise the
    connection is dropped, the snapshot cleared and the paths emptied.
    The content of the database file is not touched. *)
Definition close (s : Metadata) : Metadata :=
  if negb (connected s) then s
  else with_paths "" "" (Some "") (clear (with_dbConnectionName None s)).

(** What [findNextMark] and [findPreviousMark] return: Python's [None]
    (the bare [return] taken without a connection), the pair
    [(None, None)], or the frame and description of a mark. *)
Inductive mark_lookup : Type :=
| NotConnected
| NoMark
| Mark (frame_number : Z) (mark_description : string).

(** [ORDER BY frame_number ASC] and [ORDER BY frame_number DESC] on rows
    of [marks]; rows of one frame stay in the order of the table. *)
Definition marks_asc (rows : list (Z * string)) : list (Z * string) :=
  sort_by (fun a b => fst a <=? fst b) rows.

Definition marks_desc (rows : list (Z * string)) : list (Z * string) :=
  sort_by (fun a b => fst b <=? fst a) rows.

(** [if query.first(): return query.value(0), query.value(1)
     else: return None, None] *)
Definition first_mark (rows : list (Z * string)) : mark_lookup :=
  match rows with
  | (n, d) :: _ => Mark n d
  | [] => NoMark
  end.

Definition findNextMark (frame : Z) (self : Metadata) (db : Store)
  : mark_lookup :=
  if negb (connected self) then NotConnected
  else first_mark (marks_asc (filter (fun r => frame <? fst r) (tbl_marks db))).

Definition findPreviousMark (frame : Z) (self : Metadata) (db : Store)
  : mark_lookup :=
  if negb (connected self) then NotConnected
  else first_mark (marks_desc (filter (fun r => fst r <? frame) (tbl_marks db))).

(** [getAllMarks]: the dictionary filled from the rows in ascending frame
    order; [None] is the bare [return] taken without a connection. *)
Definition getAllMarks (self : Metadata) (db : Store)
  : option (dict Z string) :=
  if negb (connected self) then None
  else Some (PyDict.of_list (marks_asc (tbl_marks db))).

(** The row an
    [UPDATE images SET discarded=v WHERE number>=startFrame AND
     number<=endFrame] leaves in place of [r]. *)
Definition set_discarded_row (startFrame endFrame : Z) (v : option Z)
    (r : ImageRow) : ImageRow :=
  if (startFrame <=? img_number r) && (img_number r <=? endFrame)
  then mkImageRow (img_number r) (img_camera r) (img_time r) (img_name r)
         v (img_still_image r)
  else r.

(** The statement is refused when [images] has no column [discarded]. *)
Definition exec_set_discarded (startFrame endFrame : Z) (v : option Z)
    (db : Store) : Store :=
  if has_column "images" "discarded" (schema db) then
    with_tbl_images
      (map (set_discarded_row startFrame endFrame v) (tbl_images db)) db
  else db.

(** [setDiscarded(startFrame, endFrame, unset)]: the object itself is not
    touched. *)
Definition setDiscarded (startFrame endFrame : Z) (unset : bool)
    (w : Metadata * Store) : Metadata * Store :=
  let '(self, db) := w in
  if negb (connected self) then w
  else (self,
        exec_set_discarded startFrame endFrame
          (if unset then None else Some 1) db).

(** [discarded=1] *)
Definition is_discarded (r : ImageRow) : bool :=
  match img_discarded r with
  | Some d => d =? 1
  | None => false
  end.

(** [SELECT camera, name FROM images WHERE discarded=1 ORDER BY camera] *)
Definition discarded_rows (db : Store) : list ImageRow :=
  sort_by (fun a b => String.leb (img_camera a) (img_camera b))
    (filter is_discarded (tbl_images db)).

(** [os.remove(p)] inside [try: ... except: pass]: a file that is there
    goes, anything else is passed over. *)
Definition remove_file (p : string) (fs : FileSystem) : FileSystem :=
  mkFileSystem (fun q => isfile fs q && negb (String.eqb q p))
    (normpath fs) (sep fs).

(** The path [deleteDiscardedImages] builds for a row. *)
Definition image_path (fs : FileSystem) (deploymentPath ext : string)
    (r : ImageRow) : string :=
  normpath fs (deploymentPath ++ sep fs ++ "images" ++ sep fs
               ++ img_camera r ++ sep fs ++ (img_name r ++ ext))%string.

(** [deleteDiscardedImages].  The file name is [name + self.imageExtension],
    formed outside the [try]: with the extension [None] (no image type
    found by [open]) the first row raises [TypeError], which is the result
    [None] here. *)
Definition deleteDiscardedImages (self : Metadata) (db : Store)
    (fs : FileSystem) : option FileSystem :=
  if negb (connected self) then Some fs
  else
    match discarded_rows db with
    | [] => Some fs
    | rows =>
        match imageExtension self with
        | None => None
        | Some ext =>
            Some (fold_left
                    (fun fs' r =>
                       remove_file (image_path fs (deploymentPath self) ext r)
                         fs')
                    rows fs)
        end
    end.

End Housekeeping.

(** ** Image adjustments *)

(** [base64.b64encode] on bytes, read as text, and [base64.b64decode]
    on text; [None]: it raises [binascii.Error], a [ValueError]. *)
Class Base64 : Type := {
  b64encode : string -> string;
  b64decode : string -> option string
}.

(** What SQLite makes of a statement whose spliced text does not stand
    between its apostrophes as it is: the value a SELECT gives first, if
    any, and the store another statement leaves. *)
Class SqlText : Type := {
  sqlite_first_value : string -> Store -> option string;
  sqlite_exec : string -> Store -> Store
}.

Section Adjustments.
Context {RT : Runtime} {B64 : Base64} {SQL : SqlText}.

(** The first row of
    ["SELECT parameter_value FROM deployment_data WHERE
      deployment_parameter='" + parameter + "'"] *)
Definition select_parameter (parameter : string) (db : Store)
  : option string :=
  if plain parameter then
    hd_error
      (map snd
         (filter (fun r => String.eqb (fst r) parameter)
            (tbl_deployment_data db)))
  else
    sqlite_first_value
      ("SELECT parameter_value FROM deployment_data WHERE deployment_parameter='"
       ++ parameter ++ "'")%string db.

(** One run of
    ["UPDATE deployment_data SET parameter_value='" + value +
     "' WHERE deployment_parameter='" + parameter + "'"] *)
Definition update_parameter (parameter value : string) (db : Store) : Store :=
  if plain parameter && plain value then
    with_tbl_deployment_data
      (map (fun r => if String.eqb (fst r) parameter then (fst r, value) else r)
         (tbl_deployment_data db)) db
  else
    sqlite_exec
      ("UPDATE deployment_data SET parameter_value='" ++ value
       ++ "' WHERE deployment_parameter='" ++ parameter ++ "'")%string db.

(** One run of
    ["INSERT INTO deployment_data (deployment_parameter,parameter_value)
      VALUES ('" + parameter + "','" + value + "')"] *)
Definition insert_parameter_text (parameter value : string) (db : Store)
  : Store :=
  if plain parameter && plain value then insert_parameter parameter value db
  else
    sqlite_exec
      ("INSERT INTO deployment_data (deployment_parameter,parameter_value) VALUES ('"
       ++ parameter ++ "','" ++ value ++ "')")%string db.

(** [query = QSqlQuery(text, db)] followed by [query.exec()]: the
    constructor runs the statement and [exec()] runs it again. *)
Definition run_twice (statement : Store -> Store) (db : Store) : Store :=
  statement (statement db).

(** [self.cameras[camera]["mac_address"] + '_adjustments'] *)
Definition adjustments_parameter (self : Metadata) (camera : string)
  : option string :=
  match PyDict.get camera (cameras self) with
  | Some info => Some (mac_address info ++ "_adjustments")%string
  | None => None
  end.

(** [setImageAdjustments(camera, adjustments)]: the object is not
    touched; the result is the outcome and the store. *)
Definition setImageAdjustments (camera adjustments : string)
    (self : Metadata) (db : Store) : outcome unit * Store :=
  if negb (connected self) then (Ok tt, db)
  else
    match adjustments_parameter self camera with
    | None => (Raise KeyError, db)
    | Some parameter =>
        let value := b64encode adjustments in
        match select_parameter parameter db with
        | Some _ => (Ok tt, run_twice (update_parameter parameter value) db)
        | None =>
            (Ok tt, run_twice (insert_parameter_text parameter value) db)
        end
    end.

(** [getImageAdjustments(camera)]: Python's [None] both without a
    connection and without a stored parameter. *)
Definition getImageAdjustments (camera : string) (self : Metadata)
    (db : Store) : outcome (option string) :=
  if negb (connected self) then Ok None
  else
    match adjustments_parameter self camera with
    | None => Raise KeyError
    | Some parameter =>
        match select_parameter parameter db with
        | Some value =>
            match b64decode value with
            | Some adjustments => Ok (Some adjustments)
            | None => Raise ValueError
            end
        | None => Ok None
        end
    end.

End Adjustments.

(** ** The downloader: [CamtrawlDownloader.py] *)

Section Downloader.
Context {RT : Runtime}.

(** The file list [startCopy] hands to the copier of camera [cam], after
    [open] and [query()]:
    [for i in self.metadata.imageData[cam]:
       self.sourceFiles[cam].append(self.metadata.imageData[cam][i][2]
                                    + self.metadata.imageExtension)].
    [None] is an exception: the [KeyError] of a camera without an entry
    in [imageData], or the [TypeError] of a name added to the extension
    [None]. *)
Definition sourceFiles (s : Metadata) (cam : string) : option (list string) :=
  match PyDict.get cam (imageData s) with
  | None => None
  | Some d =>
      match d with
      | [] => Some []
      | _ :: _ =>
          match imageExtension s with
          | None => None
          | Some ext => Some (map (fun item => (snd (snd item) ++ ext)%string) d)
          end
      end
  end.

End Downloader.

(** [path.find(sub) > -1]: [sub] occurs in [path] *)
Fixpoint contains (sub s : string) : bool :=
  match strip_prefix sub s with
  | Some _ => true
  | None =>
      match s with
      | EmptyString => false
      | String _ s' => contains sub s'
      end
  end.

(** [sep.join(l)] *)
Fixpoint join (sep : string) (l : list string) : string :=
  match l with
  | [] => EmptyString
  | [x] => x
  | x :: l' => (x ++ sep ++ join sep l')%string
  end.

(** [trimDeploymentPath]: a path that shows the marks of a deployment
    folder, "D20" and "-T", loses its last component. *)
Definition trimDeploymentPath (path : string) : string :=
  if contains "D20" path && contains "-T" path then
    match split "/" path with
    | Some parts => join "/" (removelast parts)
    | None => path
    end
  else path.

(** The list [updateCbPaths] stores in the settings for the items of a
    combo box: each item trimmed, an item already in the list left out. *)
Fixpoint cb_paths (items newList : list string) : list string :=
  match items with
  | [] => newList
  | item :: rest =>
      let item' := trimDeploymentPath item in
      cb_paths rest
        (if existsb (String.eqb item') newList then newList
         else newList ++ [item'])
  end.

Definition updateCbPaths (items : list string) : list string :=
  cb_paths items [].

(** ** The image files of a folder: [getImageList] *)

(** What [getImageList] borrows from its runtime. *)
Class Files : Type := {
  (** the state of the folders the method works on *)
  folder : Type;
  (** [int(s)]; [None]: it raises *)
  py_int : string -> option Z;
  (** [os.listdir(path)]; [None]: it raises *)
  os_listdir : string -> folder -> option (list string);
  (** [os.rename(src, dst)]; [None]: it raises *)
  os_rename : string -> string -> folder -> option folder;
  (** [os.sep] *)
  os_sep : string
}.

Module ImageList.
Section GetImageList.
Context {F : Files}.

Definition imageTypes : list string := ["jpg"; "tif"; "tiff"; "jpeg"].

(** [name[-3:]]: the last three characters, the whole of a shorter name *)
Definition last3 (name : string) : string :=
  substring (String.length name - 3)%nat 3 name.

(** [name[-3:].lower() in imageTypes] *)
Definition is_image (name : string) : bool :=
  existsb (String.eqb (lower (last3 name))) imageTypes.

(** [name.split('_')[0]] *)
Definition number_text (name : string) : string :=
  match split "_" name with
  | Some (first :: _) => first
  | _ => EmptyString
  end.

(** ['%05i' % n]: the decimal digits, filled with zeros to five places, the
    sign of a negative number among them. *)
Definition decimal (n : Z) : string :=
  NilZero.string_of_uint (N.to_uint (Z.to_N n)).

Fixpoint zeros (k : nat) : string :=
  match k with
  | O => EmptyString
  | S k' => String "0" (zeros k')
  end.

Definition zero_filled (width : nat) (digits : string) : string :=
  (zeros (width - String.length digits) ++ digits)%string.

Definition format_05i (n : Z) : string :=
  if n <? 0 then ("-" ++ zero_filled 4 (decimal (- n)))%string
  else zero_filled 5 (decimal n).

(** [nameParts = name.split('_'); nameParts[0] = '%05i' % rename;
     '_'.join(nameParts)] *)
Definition renamed (name : string) (rename : Z) : string :=
  match split "_" name with
  | Some (_ :: rest) => join "_" (format_05i rename :: rest)
  | _ => name
  end.

(** [l[i] = x] for an index of the list *)
Fixpoint assign {A} (i : nat) (x : A) (l : list A) : list A :=
  match l, i with
  | [], _ => []
  | _ :: l', O => x :: l'
  | y :: l', S i' => y :: assign i' x l'
  end.

(** The list of names, the dictionary and the folders while the loop
    runs. *)
Definition loop_state : Type := (list string * dict Z string * folder)%type.

(** One turn of [for i in range(nImages-1)].  [None]: an exception leaves
    the method, the one of [os.rename] (an index outside the list would
    be another; the loop stays inside it). *)
Definition turn (path : string) (renameImages : bool) (i : nat)
    (st : loop_state) : option loop_state :=
  let '(images, imageDict, w) := st in
  match nth_error images i, nth_error images (S i) with
  | Some this, Some next =>
      if negb (is_image this) || negb (is_image next) then Some st
      else
        match py_int (number_text this) with
        | None => Some st
        | Some thisNumber =>
            match py_int (number_text next) with
            | None => Some st
            | Some nextNumber =>
                let imageDict' := PyDict.set thisNumber this imageDict in
                let rename :=
                  if thisNumber =? nextNumber - 1 then -1
                  else if thisNumber =? nextNumber then thisNumber + 1
                  else -1 in
                if -1 <? rename then
                  let newName := renamed next rename in
                  let images' := assign (S i) newName images in
                  if renameImages then
                    match os_rename (path ++ os_sep ++ next)%string
                            (path ++ os_sep ++ newName)%string w with
                    | Some w' => Some (images', imageDict', w')
                    | None => None
                    end
                  else Some (images', imageDict', w)
                else Some (images, imageDict', w)
            end
        end
  | _, _ => None
  end.

Definition turns (path : string) (renameImages : bool) (indices : list nat)
    (st : option loop_state) : option loop_state :=
  fold_left
    (fun st i =>
       match st with
       | Some st' => turn path renameImages i st'
       | None => None
       end)
    indices st.

(** [getImageList(path, renameImages)]: the dictionary it returns and the
    folders as it leaves them. *)
Definition getImageList (path : string) (renameImages : bool) (w : folder)
  : option (dict Z string * folder) :=
  match os_listdir path w with
  | None => None
  | Some listing =>
      let images := sort_by String.leb listing in
      let nImages := List.length images in
      match turns path renameImages (seq 0 (nImages - 1))
              (Some (images, [], w)) with
      | Some (_, imageDict, w') => Some (imageDict, w')
      | None => None
      end
  end.

(** Every entry of a dictionary maps a number to an image name that
    reads as this number. *)
Definition entries_parse (d : dict Z string) : Prop :=
  forall k name,
    PyDict.get k d = Some name ->
    py_int (number_text name) = Some k /\ is_image name = true.

End GetImageList.
End ImageList.

(** ** Vocabulary of the further statements *)

Section MoreVocabulary.
Context {RT : Runtime}.

(** What [open] and [close] set and [query] leaves alone: the paths, the
    image extension and the connection name. *)
Definition opened_as (s : Metadata) :=
  (deploymentPath s, dbFilename s, imageExtension s, dbConnectionName s).

(** What the migration of [open] must not lose: the rows of the tables
    it does not write to, and of each image its number, camera, time and
    name. *)
Definition recorded (db : Store) :=
  (tbl_cameras db, tbl_dropped db, tbl_sensor_data db, tbl_async_data db,
   tbl_marks db,
   map (fun r => (img_number r, img_camera r, img_time r, img_name r))
     (tbl_images db)).

(** Every entry of [imageData] comes from a row of [images] that the
    image statement of its camera selects, and carries the row's name. *)
Definition entries_from_rows (db : Store) (returnDiscards : bool)
    (startTime endTime : option datetime) (s : Metadata) : Prop :=
  forall c d n e,
    PyDict.get c (imageData s) = Some d ->
    In (n, e) d ->
    exists r,
      In r (tbl_images db)
      /\ image_filter c returnDiscards startTime endTime r = true
      /\ img_number r = n /\ snd e = img_name r.

End MoreVocabulary.

(** ** More objects and stores to run the model on *)
Module Samples.
Import Fixture.

(** An object as [open] leaves it on the deployment [/data/D1] when the
    images are JPEG files. *)
Definition opened_jpg : Metadata :=
  with_dbConnectionName (Some "CTMetadata")
    (with_paths "/data/D1" "/data/D1/logs/CamTrawlMetadata.db3"
       (Some ".jpg") init).

(** An open object whose snapshot holds a mark left from earlier. *)
Definition opened_marked : Metadata :=
  with_marks [(1, "left over")] opened.

(** The files of two frames of the camera [Left]. *)
Definition image_files : FileSystem :=
  mkFileSystem
    (fun p => String.eqb p "/data/D1/images/Left/img.jpg"
              || String.eqb p "/data/D1/logs/CamTrawlMetadata.db3")
    (fun p => p) "/".

(** A stand-in for [base64]: the standard alphabet with [=] padding.
    The decoder reads the canonical form the encoder writes and rejects
    anything else. *)
Definition b64_alphabet : string :=
  "ABCDEFGHIJKLMNOPQRSTUVWXYZabcdefghijklmnopqrstuvwxyz0123456789+/".

Definition b64_char (n : Z) : ascii :=
  match String.get (Z.to_nat n) b64_alphabet with
  | Some c => c
  | None => "="%char
  end.

Fixpoint b64_index_in (c : ascii) (s : string) (i : Z) : option Z :=
  match s with
  | EmptyString => None
  | String c' s' =>
      if Ascii.eqb c c' then Some i else b64_index_in c s' (i + 1)
  end.

Definition b64_index (c : ascii) : option Z := b64_index_in c b64_alphabet 0.

Definition b64_code (c : ascii) : Z := Z.of_N (N_of_ascii c).

Definition b64_byte (n : Z) : ascii := ascii_of_N (Z.to_N (n mod 256)).

Fixpoint encode64 (s : string) : string :=
  match s with
  | EmptyString => EmptyString
  | String a EmptyString =>
      let n := b64_code a * 16 in
      String (b64_char (n / 64)) (String (b64_char (n mod 64)) "==")
  | String a (String b EmptyString) =>
      let n := (b64_code a * 256 + b64_code b) * 4 in
      String (b64_char (n / 4096))
        (String (b64_char (n / 64 mod 64)) (String (b64_char (n mod 64)) "="))
  | String a (String b (String c rest)) =>
      let n := b64_code a * 65536 + b64_code b * 256 + b64_code c in
      String (b64_char (n / 262144))
        (String (b64_char (n / 4096 mod 64))
           (String (b64_char (n / 64 mod 64))
              (String (b64_char (n mod 64)) (encode64 rest))))
  end.

Fixpoint decode64 (s : string) : option string :=
  match s with
  | EmptyString => Some EmptyString
  | String a (String b (String c (String d rest))) =>
      match b64_index a, b64_index b with
      | Some x, Some y =>
          if Ascii.eqb c "="%char then
            match d, rest with
            | "="%char, EmptyString =>
                Some (String (b64_byte (x * 4 + y / 16)) "")
            | _, _ => None
            end
          else
            match b64_index c with
            | Some z =>
                if Ascii.eqb d "="%char then
                  match rest with
                  | EmptyString =>
                      Some (String (b64_byte (x * 4 + y / 16))
                              (String (b64_byte (y mod 16 * 16 + z / 4)) ""))
                  | _ => None
                  end
                else
                  match b64_index d, decode64 rest with
                  | Some w, Some t =>
                      Some (String (b64_byte (x * 4 + y / 16))
                              (String (b64_byte (y mod 16 * 16 + z / 4))
                                 (String (b64_byte (z mod 4 * 64 + w)) t)))
                  | _, _ => None
                  end
            | None => None
            end
      | _, _ => None
      end
  | _ => None
  end.

#[export] Instance B64 : Base64 :=
  {| b64encode := encode64; b64decode := decode64 |}.

(** No statement outside the plain shape is accepted. *)
#[export] Instance SQL : SqlText :=
  {| sqlite_first_value := fun _ _ => None; sqlite_exec := fun _ db => db |}.

(** A stand-in for [int] and for the folders: [int] reads a run of
    decimal digits; the folders are the list of the paths of their
    files, a file is moved when it is there. *)
Fixpoint digits_value (acc : Z) (s : string) : option Z :=
  match s with
  | EmptyString => Some acc
  | String c s' =>
      let n := Z.of_N (N_of_ascii c) in
      if (48 <=? n) && (n <=? 57) then digits_value (acc * 10 + (n - 48)) s'
      else None
  end.

Definition int_of_digits (s : string) : option Z :=
  match s with
  | EmptyString => None
  | _ => digits_value 0 s
  end.

Definition names_in (path : string) (w : list string) : list string :=
  flat_map
    (fun p =>
       match strip_prefix (path ++ "/") p with
       | Some name => [name]
       | None => []
       end)
    w.

Definition move (src dst : string) (w : list string) : option (list string) :=
  if existsb (String.eqb src) w
  then Some (map (fun p => if String.eqb p src then dst else p) w)
  else None.

#[export] Instance Folders : Files :=
  {| folder := list string;
     py_int := int_of_digits;
     os_listdir := fun path w => Some (names_in path w);
     os_rename := move;
     os_sep := "/" |}.

(** Three images numbered in steps of one, listed out of order. *)
Definition numbered_names : list string :=
  ["00002_b.jpg"; "00003_c.TIF"; "00001_a.jpg"].

Definition numbered_folder : list string :=
  map (fun name => ("/data/Left/" ++ name)%string) numbered_names.

(** A folder in which the number 1 is used twice, with a file that is
    no image. *)
Definition repeated_names : list string :=
  ["00001_a.jpg"; "00001_b.jpg"; "00003_c.jpg"; "notes.jpeg"].

Definition repeated_folder : list string :=
  map (fun name => ("/data/Left/" ++ name)%string) repeated_names.

(** The depth datagrams of three frames; the second does not parse. *)
Definition depth_data : dict string SensorEntry :=
  [ ("CTControl",
     mkSensorEntry
       [ ("$OHPR",
          [ (1, "$OHPR,1,2,3,-999.0,15.5,0,0,0*00");
            (2, "$OHPR,garbled");
            (3, "$OHPR,1,2,3,-999.0,7.25,0,0,0*00") ]) ]
       []) ].

End Samples.

(** * Properties *)

(** ** Dictionaries *)

Lemma key_eqb_refl {K} `{Key K} (a : K) : key_eqb a a = true.
Proof. now apply key_eqb_eq. Qed.

Lemma key_eqb_neq {K} `{Key K} (a b : K) : key_eqb a b = false <-> a <> b.
Proof.
  split.
  - intros E Hab. apply key_eqb_eq in Hab. congruence.
  - intros Hab. destruct (key_eqb a b) eqn:E; [|reflexivity].
    apply key_eqb_eq in E. contradiction.
Qed.


Module PyDictFacts.
Section Facts.
Context {K V : Type} `{Key K}.
Import PyDict.

Lemma get_set_same k v (d : dict K V) : get k (set k v d) = Some v.
Proof.
  induction d as [|[k' v'] d IH]; simpl.
  - now rewrite key_eqb_refl.
  - destruct (key_eqb k k') eqn:E; simpl; rewrite E; auto.
Qed.

Lemma get_set_other k k' v (d : dict K V) : k <> k' -> get k' (set k v d) = get k' d.
Proof.
  intros Hne. induction d as [|[k0 v0] d IH]; simpl.
  - assert (key_eqb k' k = false) as -> by (apply key_eqb_neq; congruence).
    reflexivity.
  - destruct (key_eqb k k0) eqn:E; simpl.
    + apply key_eqb_eq in E. subst k0.
      assert (key_eqb k' k = false) as -> by (apply key_eqb_neq; congruence).
      reflexivity.
    + now rewrite IH.
Qed.

Lemma keys_set k v (d : dict K V) :
  keys (set k v d) = if mem k d then keys d else keys d ++ [k].
Proof.
  unfold mem. induction d as [|[k0 v0] d IH]; simpl; auto.
  destruct (key_eqb k k0) eqn:E; simpl; auto.
  rewrite IH. now destruct (get k d).
Qed.

Lemma mem_In_keys k (d : dict K V) : mem k d = true <-> In k (keys d).
Proof.
  unfold mem. induction d as [|[k0 v0] d IH]; simpl.
  - split; [discriminate | tauto].
  - destruct (key_eqb k k0) eqn:E.
    + apply key_eqb_eq in E. subst. tauto.
    + apply key_eqb_neq in E. rewrite IH. split; [tauto|].
      intros [Heq|Hin]; [congruence | exact Hin].
Qed.

Lemma get_None_keys k (d : dict K V) : get k d = None <-> ~ In k (keys d).
Proof.
  rewrite <- mem_In_keys. unfold mem.
  destruct (get k d); split; intros; congruence.
Qed.

Lemma NoDup_keys_set k v (d : dict K V) : NoDup (keys d) -> NoDup (keys (set k v d)).
Proof.
  intros Hnd. rewrite keys_set. destruct (mem k d) eqn:E; auto.
  assert (~ In k (keys d)) as Hni.
  { rewrite <- mem_In_keys. congruence. }
  clear E. induction (keys d) as [|a l IH]; simpl.
  - constructor; [tauto | constructor].
  - inversion Hnd; subst. constructor.
    + rewrite in_app_iff. simpl in *. intuition congruence.
    + apply IH; simpl in *; tauto.
Qed.

Lemma get_del_same k (d : dict K V) : get k (del k d) = None.
Proof.
  induction d as [|[k0 v0] d IH]; simpl; auto.
  destruct (key_eqb k k0) eqn:E; simpl; auto. now rewrite E.
Qed.

Lemma get_del_other k k' (d : dict K V) : k <> k' -> get k' (del k d) = get k' d.
Proof.
  intros Hne. induction d as [|[k0 v0] d IH]; simpl; auto.
  destruct (key_eqb k k0) eqn:E; simpl.
  - apply key_eqb_eq in E. subst k0.
    assert (key_eqb k' k = false) as -> by (apply key_eqb_neq; congruence).
    exact IH.
  - now rewrite IH.
Qed.

Lemma del_absent k (d : dict K V) : get k d = None -> del k d = d.
Proof.
  induction d as [|[k0 v0] d IH]; simpl; auto.
  destruct (key_eqb k k0) eqn:E; simpl; [discriminate|].
  intros Hn. now rewrite IH.
Qed.

Lemma keys_del_not_in k (d : dict K V) : ~ In k (keys (del k d)).
Proof. apply get_None_keys, get_del_same. Qed.
End Facts.
End PyDictFacts.


(** ** Text *)

Example split_OHPR :
  split "," "$OHPR,1,2,3,-999.0,15.5,0,0,0*00"
  = Some ["$OHPR"; "1"; "2"; "3"; "-999.0"; "15.5"; "0"; "0"; "0*00"].
Proof. reflexivity. Qed.

Example split_multichar : split "ab" "xabyabab" = Some ["x"; "y"; ""; ""].
Proof. reflexivity. Qed.

(** A plain description is read back as it was written. *)
Lemma plain_parts (d : string) :
  plain d = true ->
  count_char apostrophe d = 0%nat /\ count_char Ascii.zero d = 0%nat.
Proof.
  unfold plain. intros H. apply Nat.eqb_eq in H. lia.
Qed.

Lemma until_nul_none (d tail : string) :
  count_char Ascii.zero d = 0%nat ->
  until_nul (d ++ tail)%string = (d ++ until_nul tail)%string.
Proof.
  induction d as [|c d IH]; [reflexivity|].
  cbn [count_char append until_nul]. rewrite (Ascii.eqb_sym c Ascii.zero).
  destruct (Ascii.eqb Ascii.zero c); [discriminate|].
  intros H. now rewrite (IH H).
Qed.

Lemma scan_literal_none (d tail : string) :
  count_char apostrophe d = 0%nat ->
  match tail with
  | String c _ => Ascii.eqb c apostrophe = false
  | EmptyString => True
  end ->
  scan_literal (d ++ String apostrophe tail)%string = Literal d tail.
Proof.
  intros Hd Ht. induction d as [|c d IH].
  - simpl. destruct tail as [|c t]; [reflexivity|]. now rewrite Ht.
  - cbn [count_char] in Hd. cbn [append scan_literal].
    rewrite (Ascii.eqb_sym c apostrophe).
    destruct (Ascii.eqb apostrophe c); [discriminate|].
    now rewrite (IH Hd).
Qed.

Lemma inserted_marks_plain `{RT : Runtime} (frame : Z) (description : string) :
  plain description = true ->
  inserted_marks frame description = [(frame, description)].
Proof.
  intros Hp. destruct (plain_parts description Hp) as [Ha Hz].
  unfold inserted_marks. rewrite (until_nul_none description "')" Hz).
  change (until_nul "')") with (String apostrophe ")").
  rewrite (scan_literal_none description ")" Ha); reflexivity.
Qed.

(** ** Marks *)

Section MarksFacts.
Context {RT : Runtime}.

Lemma set_absent {V} (k : Z) (v : V) (d : dict Z V) :
  PyDict.get k d = None -> PyDict.set k v d = d ++ [(k, v)].
Proof.
  induction d as [|[k0 v0] d IH]; simpl; [reflexivity|].
  destruct (k =? k0); [discriminate|]. intros Hn. now rewrite IH.
Qed.

Lemma filter_del_same {V} (k : Z) (d : dict Z V) :
  filter (fun r => fst r =? k) (PyDict.del k d) = [].
Proof.
  unfold PyDict.del. induction d as [|[k0 v0] d IH]; simpl; [reflexivity|].
  destruct (k =? k0) eqn:E; simpl; [exact IH|].
  rewrite Z.eqb_sym, E. exact IH.
Qed.

Lemma store_marks_after_delete (frame : Z) (db : Store) :
  store_marks_at frame (exec_delete_mark frame db) = [].
Proof.
  unfold store_marks_at, exec_delete_mark. simpl.
  induction (tbl_marks db) as [|[k v] l IH]; simpl; [reflexivity|].
  destruct (k =? frame) eqn:E; simpl; [exact IH|]. now rewrite E.
Qed.

Lemma store_marks_delete_other (frame f : Z) (db : Store) :
  f <> frame ->
  store_marks_at f (exec_delete_mark frame db) = store_marks_at f db.
Proof.
  intros Hne. unfold store_marks_at, exec_delete_mark. simpl. f_equal.
  induction (tbl_marks db) as [|[k v] l IH]; simpl; [reflexivity|].
  destruct (k =? frame) eqn:E; simpl.
  - apply Z.eqb_eq in E. subst k.
    assert ((frame =? f) = false) as -> by (apply Z.eqb_neq; congruence).
    exact IH.
  - now rewrite IH.
Qed.

Lemma removeMark_present (frame : Z) (self : Metadata) (db : Store) :
  connected self = true ->
  PyDict.mem frame (marks self) = true ->
  removeMark frame (self, db)
  = (with_marks (PyDict.del frame (marks self)) self,
     exec_delete_mark frame db).
Proof. intros Hc Hm. unfold removeMark. now rewrite Hc, Hm. Qed.

Lemma removeMark_absent (frame : Z) (self : Metadata) (db : Store) :
  PyDict.mem frame (marks self) = false ->
  removeMark frame (self, db) = (self, db).
Proof.
  intros Hm. unfold removeMark. rewrite Hm.
  now destruct (connected self).
Qed.

Lemma removeMark_connected (frame : Z) (w : Metadata * Store) :
  connected (fst (removeMark frame w)) = connected (fst w).
Proof.
  destruct w as [self db]. unfold removeMark. simpl.
  destruct (connected self) eqn:Hc; simpl; [|exact Hc].
  destruct (PyDict.mem frame (marks self)); simpl; exact Hc.
Qed.

Lemma createMark_connected (frame : Z) (d : string) (w : Metadata * Store) :
  connected (fst (createMark frame d w)) = connected (fst w).
Proof.
  unfold createMark. destruct (connected (fst w)) eqn:Hc; simpl; [|exact Hc].
  pose proof (removeMark_connected frame w) as Hr.
  destruct (removeMark frame w) as [s1 db1]. simpl in *.
  unfold connected in *. simpl. congruence.
Qed.

Lemma createMark_in_snapshot (frame : Z) (d : string) (w : Metadata * Store) :
  connected (fst w) = true ->
  PyDict.get frame (marks (fst (createMark frame d w))) = Some d.
Proof.
  intros Hc. unfold createMark. rewrite Hc. simpl.
  destruct (removeMark frame w) as [s1 db1]. simpl.
  apply PyDictFacts.get_set_same.
Qed.

Lemma createMark_over (frame : Z) (d : string) (self : Metadata)
    (db : Store) :
  connected self = true ->
  PyDict.mem frame (marks self) = true ->
  createMark frame d (self, db)
  = (with_marks (PyDict.set frame d (PyDict.del frame (marks self))) self,
     exec_insert_mark frame d (exec_delete_mark frame db)).
Proof.
  intros Hc Hm. unfold createMark. cbn [fst]. rewrite Hc. cbn [negb].
  now rewrite (removeMark_present frame self db Hc Hm).
Qed.

(** Where the mark-uniqueness property holds.  On an open store,
    [createMark f x] followed by [createMark f y] leaves exactly one mark
    at frame [f], with text [y], in the store and in the snapshot, for
    every text [x] and every text [y] that holds no apostrophe and no
    NUL.  (The description is spliced into the INSERT statement between
    apostrophes, so the store receives what SQLite reads back from that
    text.) *)
Theorem createMark_twice (self : Metadata) (db : Store) (f : Z)
    (x y : string) :
  connected self = true ->
  plain y = true ->
  mark_replaced self db f x y.
Proof.
  intros Hc Hy. unfold mark_replaced.
  pose proof (createMark_connected f x (self, db)) as Hc1.
  pose proof (createMark_in_snapshot f x (self, db) Hc) as Hin.
  destruct (createMark f x (self, db)) as [s1 db1]. simpl in Hc1, Hin.
  rewrite Hc in Hc1.
  assert (PyDict.mem f (marks s1) = true) as Hm
    by (unfold PyDict.mem; now rewrite Hin).
  rewrite (createMark_over f y s1 db1 Hc1 Hm). cbn [fst snd]. split.
  - unfold store_marks_at, exec_insert_mark. simpl.
    rewrite (inserted_marks_plain f y Hy), filter_app, map_app.
    pose proof (store_marks_after_delete f db1) as Hdel.
    unfold store_marks_at, exec_delete_mark in Hdel. simpl in Hdel.
    rewrite Hdel. simpl. now rewrite Z.eqb_refl.
  - unfold snapshot_marks_at, PyDict.items. cbn [marks with_marks].
    rewrite set_absent by apply PyDictFacts.get_del_same.
    rewrite filter_app, filter_del_same. simpl. now rewrite Z.eqb_refl.
Qed.

End MarksFacts.

(** ** Reasoning about computations *)

Section Rules.
Context {RT : Runtime}.

Lemma wp_ret {A} (a : A) s (Q : A -> Metadata -> Prop) :
  Q a s -> wp (ret a) s Q.
Proof. auto. Qed.

Lemma wp_raise {A} (e : exn) s (Q : A -> Metadata -> Prop) :
  wp (raise e) s Q.
Proof. exact I. Qed.

Lemma wp_gets {A} (f : Metadata -> A) s (Q : A -> Metadata -> Prop) :
  Q (f s) s -> wp (gets f) s Q.
Proof. auto. Qed.

Lemma wp_modify (f : Metadata -> Metadata) s (Q : unit -> Metadata -> Prop) :
  Q tt (f s) -> wp (modify f) s Q.
Proof. auto. Qed.

Lemma wp_or_raise {A} (e : exn) (o : option A) s
    (Q : A -> Metadata -> Prop) :
  (forall a, o = Some a -> Q a s) -> wp (or_raise e o) s Q.
Proof. destruct o; simpl; intros H; [apply H; reflexivity | exact I]. Qed.

Lemma wp_bind {A B} (m : M A) (k : A -> M B) s (Q : B -> Metadata -> Prop) :
  wp m s (fun a s' => wp (k a) s' Q) -> wp (bind m k) s Q.
Proof.
  unfold wp, bind. destruct (m s) as [[a| e |] s']; auto.
Qed.

Lemma wp_mono {A} (m : M A) s (Q Q' : A -> Metadata -> Prop) :
  wp m s Q -> (forall a s', Q a s' -> Q' a s') -> wp m s Q'.
Proof.
  unfold wp. destruct (m s) as [[a| e |] s']; auto.
Qed.

(** A loop, with an invariant on the elements already visited. *)
Lemma wp_for_each_from {X} (body : X -> M unit)
    (I : list X -> Metadata -> Prop) (rest done : list X) s :
  I done s ->
  (forall d x s1, I d s1 -> wp (body x) s1 (fun _ s2 => I (d ++ [x]) s2)) ->
  wp (for_each rest body) s (fun _ s' => I (done ++ rest) s').
Proof.
  intros H0 Hstep. revert done s H0.
  induction rest as [|x rest IH]; intros done s H0; simpl.
  - rewrite app_nil_r. exact H0.
  - apply wp_bind. eapply wp_mono; [apply (Hstep done x s H0)|].
    intros u s2 H2. simpl in H2.
    replace (done ++ x :: rest) with ((done ++ [x]) ++ rest)
      by (rewrite <- app_assoc; reflexivity).
    apply IH. exact H2.
Qed.

Lemma wp_for_each {X} (body : X -> M unit)
    (I : list X -> Metadata -> Prop) (l : list X) s :
  I [] s ->
  (forall d x s1, I d s1 -> wp (body x) s1 (fun _ s2 => I (d ++ [x]) s2)) ->
  wp (for_each l body) s (fun _ s' => I l s').
Proof. intros H0 Hstep. exact (wp_for_each_from body I l [] s H0 Hstep). Qed.

(** What a run that returned tells about [wp]. *)
Lemma wp_run {A} (m : M A) s (Q : A -> Metadata -> Prop) a s' :
  wp m s Q -> m s = (Ok a, s') -> Q a s'.
Proof. unfold wp. intros H E. now rewrite E in H. Qed.

Lemma wp_not_out_of_fuel {A} (m : M A) s (Q : A -> Metadata -> Prop) :
  wp m s Q -> fst (m s) <> OutOfFuel.
Proof. unfold wp. destruct (m s) as [[a| e |] s']; simpl; congruence. Qed.

Lemma preserves_ret {A B} (proj : Metadata -> B) (a : A) :
  preserves proj (ret a).
Proof. intros s. reflexivity. Qed.

Lemma preserves_raise {A B} (proj : Metadata -> B) (e : exn) :
  preserves proj (@raise _ A e).
Proof. intros s. reflexivity. Qed.

Lemma preserves_gets {A B} (proj : Metadata -> B) (f : Metadata -> A) :
  preserves proj (gets f).
Proof. intros s. reflexivity. Qed.

Lemma preserves_or_raise {A B} (proj : Metadata -> B) (e : exn)
    (o : option A) :
  preserves proj (or_raise e o).
Proof. destruct o; intros s; reflexivity. Qed.

Lemma preserves_modify {B} (proj : Metadata -> B)
    (f : Metadata -> Metadata) :
  (forall s, proj (f s) = proj s) -> preserves proj (modify f).
Proof. intros H s. apply H. Qed.

Lemma preserves_bind {A C B} (proj : Metadata -> B) (m : M A)
    (k : A -> M C) :
  preserves proj m -> (forall a, preserves proj (k a)) ->
  preserves proj (bind m k).
Proof.
  intros Hm Hk s. unfold bind. specialize (Hm s).
  destruct (m s) as [[a| e |] s1]; auto.
  specialize (Hk a s1). destruct (k a s1) as [[c| e |] s2]; congruence.
Qed.

Lemma preserves_for_each {X B} (proj : Metadata -> B) (l : list X)
    (body : X -> M unit) :
  (forall x, preserves proj (body x)) -> preserves proj (for_each l body).
Proof.
  intros Hb. induction l as [|x l IH]; simpl.
  - apply preserves_ret.
  - apply preserves_bind; auto.
Qed.

(** A part left alone can be carried across a step. *)
Lemma wp_frame {A B} (proj : Metadata -> B) (m : M A) s
    (Q : A -> Metadata -> Prop) :
  preserves proj m -> wp m s Q ->
  wp m s (fun a s' => Q a s' /\ proj s' = proj s).
Proof.
  intros Hp Hw. specialize (Hp s). unfold wp in *.
  destruct (m s) as [[a| e |] s']; auto.
Qed.

Lemma wp_of_preserves {A B} (proj : Metadata -> B) (m : M A) s :
  preserves proj m -> wp m s (fun _ s' => proj s' = proj s).
Proof.
  intros Hp. specialize (Hp s). unfold wp.
  destruct (m s) as [[a| e |] s']; auto.
Qed.

End Rules.

(** Goals [preserves proj m] for a method built from binds, loops,
    lookups and field updates that do not touch [proj]. *)
Ltac preserve :=
  repeat first
    [ apply preserves_ret
    | apply preserves_raise
    | apply preserves_gets
    | apply preserves_or_raise
    | apply preserves_modify; intros; reflexivity
    | apply preserves_bind; [|intros]
    | apply preserves_for_each; intros
    | match goal with
      | |- preserves _ (match ?x with _ => _ end) => destruct x
      | |- preserves _ (let '(_, _) := ?p in _) => destruct p
      end ].

(** ** Row sets *)

Section Lists.

Lemma In_distinct {A} `{Key A} (x : A) (l : list A) :
  In x (distinct l) <-> In x l.
Proof.
  induction l as [|a l IH]; simpl; [tauto|].
  rewrite filter_In, IH. split.
  - intros [E|[Hin _]]; auto.
  - intros [E|Hin]; auto.
    destruct (key_eqb a x) eqn:E.
    + apply key_eqb_eq in E. auto.
    + right. split; auto.
Qed.

Lemma NoDup_distinct {A} `{Key A} (l : list A) : NoDup (distinct l).
Proof.
  induction l as [|a l IH]; simpl; constructor.
  - rewrite filter_In. intros [_ E]. now rewrite key_eqb_refl in E.
  - now apply NoDup_filter.
Qed.

Lemma distinct_nil_iff {A} `{Key A} (l : list A) : distinct l = [] <-> l = [].
Proof. destruct l; simpl; split; congruence. Qed.

Lemma In_insert_by {A} (le : A -> A -> bool) (x y : A) (l : list A) :
  In y (insert_by le x l) <-> y = x \/ In y l.
Proof.
  induction l as [|a l IH]; simpl; [intuition auto|].
  destruct (le x a); simpl; rewrite ?IH; intuition auto.
Qed.

Lemma In_sort_by {A} (le : A -> A -> bool) (y : A) (l : list A) :
  In y (sort_by le l) <-> In y l.
Proof.
  induction l as [|a l IH]; simpl; [tauto|].
  rewrite In_insert_by, IH. intuition auto.
Qed.

Lemma sort_by_nil_iff {A} (le : A -> A -> bool) (l : list A) :
  sort_by le l = [] <-> l = [].
Proof.
  split; [|intros ->; reflexivity].
  destruct l as [|a l]; [reflexivity|]. intros E. exfalso.
  assert (In a (sort_by le (a :: l))) as Hin
    by (apply In_sort_by; left; reflexivity).
  rewrite E in Hin. exact Hin.
Qed.

Lemma length_insert_by {A} (le : A -> A -> bool) (x : A) (l : list A) :
  List.length (insert_by le x l) = S (List.length l).
Proof.
  induction l as [|a l IH]; simpl; [reflexivity|].
  destruct (le x a); simpl; congruence.
Qed.

Lemma ascending_insert (x : Z) (l : list Z) :
  ascending l -> ascending (insert_by Z.leb x l).
Proof.
  induction 1 as [|a|a b l Hab Hl IH]; simpl.
  - constructor.
  - destruct (x <=? a) eqn:E.
    + constructor; [apply Z.leb_le; exact E | constructor].
    + constructor; [apply Z.leb_gt in E; lia | constructor].
  - destruct (x <=? a) eqn:E.
    + constructor; [apply Z.leb_le; exact E|]. constructor; assumption.
    + simpl in IH. destruct (x <=? b) eqn:E'.
      * constructor; [apply Z.leb_gt in E; lia | exact IH].
      * constructor; [exact Hab | exact IH].
Qed.

Lemma ascending_sorted (l : list Z) : ascending (sorted l).
Proof.
  unfold sorted, sort_by. induction l as [|a l IH]; simpl.
  - constructor.
  - apply ascending_insert. exact IH.
Qed.

Lemma NoDup_insert_by {A} (le : A -> A -> bool) (x : A) (l : list A) :
  ~ In x l -> NoDup l -> NoDup (insert_by le x l).
Proof.
  induction l as [|a l IH]; simpl; intros Hx Hl.
  - constructor; [tauto | constructor].
  - inversion Hl; subst. destruct (le x a).
    + constructor; [simpl; tauto | exact Hl].
    + constructor.
      * rewrite In_insert_by. intuition congruence.
      * apply IH; tauto.
Qed.

Lemma NoDup_sort_by {A} (le : A -> A -> bool) (l : list A) :
  NoDup l -> NoDup (sort_by le l).
Proof.
  induction 1 as [|a l Ha Hl IH]; simpl; [constructor|].
  apply NoDup_insert_by; [now rewrite In_sort_by | exact IH].
Qed.

Lemma of_list_snoc {K V} `{Key K} (l : list (K * V)) (k : K) (v : V) :
  PyDict.of_list (l ++ [(k, v)]) = PyDict.set k v (PyDict.of_list l).
Proof. unfold PyDict.of_list. now rewrite fold_left_app. Qed.

Lemma In_keys_set {K V} `{Key K} (k k' : K) (v : V) (d : dict K V) :
  In k' (PyDict.keys (PyDict.set k v d)) <-> k' = k \/ In k' (PyDict.keys d).
Proof.
  rewrite PyDictFacts.keys_set. destruct (PyDict.mem k d) eqn:E.
  - apply PyDictFacts.mem_In_keys in E. intuition (subst; auto).
  - rewrite in_app_iff. simpl. intuition auto.
Qed.

Lemma In_keys_of_list {K V} `{Key K} (k : K) (l : list (K * V)) :
  In k (PyDict.keys (PyDict.of_list l)) <-> In k (map fst l).
Proof.
  induction l as [|[k0 v0] l IH] using rev_ind; [simpl; tauto|].
  rewrite of_list_snoc, In_keys_set, map_app, in_app_iff, IH. simpl.
  intuition auto.
Qed.

Lemma NoDup_keys_of_list {K V} `{Key K} (l : list (K * V)) :
  NoDup (PyDict.keys (PyDict.of_list l)).
Proof.
  induction l as [|[k0 v0] l IH] using rev_ind; [constructor|].
  rewrite of_list_snoc. now apply PyDictFacts.NoDup_keys_set.
Qed.

Lemma last_opt_None {A} (l : list A) : last_opt l = None <-> l = [].
Proof.
  split; [|intros ->; reflexivity].
  induction l as [|a l IH]; [reflexivity|]. simpl.
  destruct l; [discriminate|]. intros E. specialize (IH E). discriminate.
Qed.

Lemma last_opt_In {A} (l : list A) (x : A) : last_opt l = Some x -> In x l.
Proof.
  induction l as [|a l IH]; [discriminate|]. simpl.
  destruct l; [intros [= ->]; left; reflexivity|].
  intros E. right. apply IH. exact E.
Qed.

Lemma last_opt_snoc {A} (l : list A) (x : A) : last_opt (l ++ [x]) = Some x.
Proof.
  induction l as [|a l IH]; [reflexivity|].
  simpl. destruct (l ++ [x]) eqn:E; [destruct l; discriminate|]. exact IH.
Qed.

Lemma last_opt_app {A} (l1 l2 : list A) :
  l2 <> [] -> last_opt (l1 ++ l2) = last_opt l2.
Proof.
  intros Hne. induction l1 as [|a l IH]; [reflexivity|].
  simpl. destruct (l ++ l2) eqn:E.
  - destruct l, l2; try discriminate. congruence.
  - exact IH.
Qed.

Lemma last_last_opt {A} (l : list A) (d : A) :
  last l d = match last_opt l with Some x => x | None => d end.
Proof.
  induction l as [|a l IH]; [reflexivity|].
  simpl. destruct l; [reflexivity|]. exact IH.
Qed.

Lemma latch_app (cur : Z) (l1 l2 : list Z) :
  latch cur (l1 ++ l2) = latch (latch cur l1) l2.
Proof. unfold latch. apply fold_left_app. Qed.

Lemma latch_set (cur : Z) (l : list Z) : cur <> -1 -> latch cur l = cur.
Proof.
  revert cur. induction l as [|a l IH]; intros cur Hc; simpl; [reflexivity|].
  assert ((cur =? -1) = false) as -> by (now apply Z.eqb_neq).
  apply IH. exact Hc.
Qed.

(** From -1, the latch takes the first frame; it keeps it when that
    frame is not -1 itself. *)
Lemma latch_first (f : Z) (l : list Z) : f <> -1 -> latch (-1) (f :: l) = f.
Proof. intros Hf. simpl. now apply latch_set. Qed.

End Lists.

(** ** The phases of [query] *)

Section QueryFacts.
Context {RT : Runtime}.
Variable db : Store.
Variables startTime endTime : option datetime.
Variable returnDiscards : bool.

Local Abbreviation frames_of := (frames db returnDiscards startTime endTime).
Local Abbreviation images_loaded :=
  (images_loaded db startTime endTime returnDiscards).
Local Abbreviation images_loading :=
  (images_loading db startTime endTime returnDiscards).
Local Abbreviation snapshot_loaded :=
  (snapshot_loaded db startTime endTime returnDiscards).
Local Abbreviation query_done :=
  (query_done db startTime endTime returnDiscards).

Lemma load_dropped_count_spec s :
  wp (load_dropped_count db) s
    (fun _ s' =>
       nDroppedImages s' = hd 0 (distinct (map drp_number (tbl_dropped db)))).
Proof.
  unfold load_dropped_count. apply wp_bind, wp_modify.
  destruct (distinct (map drp_number (tbl_dropped db))); simpl; reflexivity.
Qed.

Lemma load_dropped_count_keeps :
  preserves (fun s => (dbConnectionName s, cameras s, imageData s,
                       startImage s, endImage s, imageNumbers s, marks s))
    (load_dropped_count db).
Proof. unfold load_dropped_count. preserve. Qed.

Lemma load_cameras_keeps :
  preserves (fun s => (dbConnectionName s, nDroppedImages s, imageData s,
                       startImage s, endImage s, imageNumbers s, marks s))
    (load_cameras db).
Proof. unfold load_cameras, load_camera_row, set_camera. preserve. Qed.

Lemma load_deployment_data_keeps : preserves kept (load_deployment_data db).
Proof. unfold load_deployment_data. preserve. Qed.

Lemma times_of_keeps {B} (proj : Metadata -> B) timeOffset time :
  preserves proj (times_of timeOffset time).
Proof. unfold times_of. preserve. Qed.

Lemma load_dropped_keeps timeOffset :
  preserves kept (load_dropped db timeOffset).
Proof.
  unfold load_dropped, load_dropped_row.
  preserve; apply times_of_keeps.
Qed.

Lemma load_images_keeps timeOffset :
  preserves (fun s => (dbConnectionName s, nDroppedImages s, cameras s,
                       imageNumbers s, marks s))
    (load_images db timeOffset returnDiscards startTime endTime).
Proof.
  unfold load_images, load_camera_images, load_image_row.
  preserve; apply times_of_keeps.
Qed.

Lemma build_index_keeps camera :
  preserves (fun s => (dbConnectionName s, nDroppedImages s, cameras s,
                       imageData s, startImage s, endImage s, marks s))
    (build_index camera).
Proof. unfold build_index. preserve. Qed.

Lemma load_sensor_data_keeps timeOffset :
  preserves kept (load_sensor_data db timeOffset).
Proof.
  unfold load_sensor_data, init_sensor_id, init_sensor_header,
    fill_sensor_row.
  preserve; apply times_of_keeps.
Qed.

Lemma load_async_data_keeps timeOffset :
  preserves kept (load_async_data db timeOffset startTime endTime).
Proof.
  unfold load_async_data, init_async_id, init_async_header, fill_async_row.
  preserve; apply times_of_keeps.
Qed.

Lemma load_marks_keeps :
  preserves (fun s => (dbConnectionName s, nDroppedImages s, cameras s,
                       imageData s, startImage s, endImage s,
                       imageNumbers s))
    (load_marks db).
Proof. unfold load_marks. preserve. Qed.


Lemma load_cameras_spec s :
  cameras s = [] ->
  wp (load_cameras db) s (fun _ s' => cameras s' = camera_registry db).
Proof.
  intros Hc. unfold load_cameras.
  apply wp_bind, wp_modify.
  apply wp_bind.
  eapply wp_mono.
  - apply (wp_for_each load_camera_row
             (fun done s1 =>
                cameras s1 = PyDict.of_list (map camera_info done)
                /\ nCameras s1 = Z.of_nat (List.length done))).
    + split; [exact Hc | reflexivity].
    + intros d x s1 [H1 H2]. unfold load_camera_row, set_camera.
      apply wp_bind, wp_modify, wp_modify. simpl. split.
      * rewrite H1, map_app. symmetry. apply of_list_snoc.
      * rewrite H2, length_app. simpl. lia.
  - intros u s1 [H1 H2]. simpl in *.
    apply wp_bind, wp_gets. rewrite H2.
    unfold camera_registry.
    destruct (tbl_cameras db) as [|r rows] eqn:E.
    + simpl. apply wp_bind, wp_modify. apply wp_bind. eapply wp_mono.
      * apply (wp_for_each
                 (fun c => set_camera c (mkCameraInfo "" "" "" 0))
                 (fun done s2 =>
                    cameras s2
                    = PyDict.of_list
                        (map (fun c => (c, mkCameraInfo "" "" "" 0)) done))).
        -- exact H1.
        -- intros d x s2 H. unfold set_camera. apply wp_modify. simpl.
           rewrite H, map_app. symmetry. apply of_list_snoc.
      * intros u' s2 H. simpl in *. apply wp_modify. exact H.
    + assert ((Z.of_nat (List.length (r :: rows)) =? 0) = false) as ->
        by (apply Z.eqb_neq; simpl; lia).
      apply wp_ret. exact H1.
Qed.


(** A step that only reads the object. *)
Lemma wp_reading {A} (m : M A) s (Q : A -> Metadata -> Prop) :
  preserves (fun s => s) m -> (forall a, Q a s) -> wp m s Q.
Proof.
  intros Hp HQ. specialize (Hp s). unfold wp.
  destruct (m s) as [[a| e |] s']; auto. subst s'. apply HQ.
Qed.

Lemma load_image_row_spec done x timeOffset rdone row s :
  images_loading done x rdone s ->
  wp (load_image_row x timeOffset row) s
    (fun _ s' => images_loading done x (rdone ++ [row]) s').
Proof.
  intros (Hs & He & (d & Hd & Hk) & Ho). unfold load_image_row.
  apply wp_bind, wp_gets. apply wp_bind.
  set (si := if startImage s =? -1 then img_number row else startImage s).
  apply wp_mono with
    (Q := fun _ s1 => startImage s1 = si /\ imageData s1 = imageData s
                      /\ endImage s1 = endImage s).
  { subst si.
    destruct (startImage s =? -1); [apply wp_modify | apply wp_ret];
      simpl; auto. }
  intros u s1 (Hs1 & Hi1 & He1). simpl.
  apply wp_bind, wp_reading; [apply times_of_keeps|]. intros t.
  apply wp_bind, wp_gets. apply wp_bind, wp_or_raise. intros inner Hin.
  apply wp_bind, wp_modify, wp_modify.
  rewrite Hi1, Hd in Hin. injection Hin as <-.
  unfold images_loading. simpl. repeat split.
  - rewrite Hs1. subst si. rewrite map_app, app_assoc, latch_app, <- Hs.
    reflexivity.
  - rewrite map_app, app_assoc. simpl. now rewrite last_last.
  - exists (PyDict.set (img_number row) (fst t, snd t, img_name row) d).
    split; [rewrite Hi1; apply PyDictFacts.get_set_same|].
    intros n. rewrite In_keys_set, map_app, in_app_iff, Hk. simpl.
    intuition auto.
  - intros c Hc Hne. rewrite Hi1.
    rewrite PyDictFacts.get_set_other by congruence. now apply Ho.
Qed.

Lemma load_camera_images_spec done x timeOffset s :
  images_loaded done s ->
  wp (load_camera_images db timeOffset returnDiscards startTime endTime x) s
    (fun _ s' => images_loaded (done ++ [x]) s').
Proof.
  intros (Hs & He & Ho). unfold load_camera_images.
  apply wp_bind, wp_modify. eapply wp_mono.
  - apply (wp_for_each (load_image_row x timeOffset)
             (images_loading done x)).
    + unfold images_loading. simpl. rewrite app_nil_r. repeat split; auto.
      * exists []. split; [apply PyDictFacts.get_set_same | simpl; tauto].
      * intros c Hc Hne.
        rewrite PyDictFacts.get_set_other by congruence. now apply Ho.
    + intros d r s1 H. now apply load_image_row_spec.
  - intros u s1 (Hs1 & He1 & (d & Hd & Hk) & Ho1). simpl.
    unfold images_loaded. rewrite flat_map_app. simpl. rewrite app_nil_r.
    repeat split; auto.
    intros c Hc. destruct (string_dec c x) as [->|Hne].
    + exists d. split; auto.
    + apply Ho1; auto. apply in_app_iff in Hc. simpl in Hc.
      intuition congruence.
Qed.

Lemma load_images_spec timeOffset s :
  startImage s = -1 -> endImage s = 0 ->
  wp (load_images db timeOffset returnDiscards startTime endTime) s
    (fun camera s' =>
       camera = last_opt (PyDict.keys (cameras s))
       /\ images_loaded (PyDict.keys (cameras s)) s').
Proof.
  intros Hs He. unfold load_images.
  apply wp_bind, wp_gets. apply wp_bind. eapply wp_mono.
  - apply (wp_for_each
             (load_camera_images db timeOffset returnDiscards startTime
                endTime) images_loaded).
    + unfold images_loaded. simpl. repeat split; auto. intros c [].
    + intros d x s1 H. now apply load_camera_images_spec.
  - intros u s1 H. simpl. apply wp_ret. auto.
Qed.


Lemma wp_step {A C B} (proj : Metadata -> B) (m : M A) (k : A -> M C) s
    (Q : A -> Metadata -> Prop) (R : C -> Metadata -> Prop) :
  preserves proj m -> wp m s Q ->
  (forall a s', Q a s' -> proj s' = proj s -> wp (k a) s' R) ->
  wp (bind m k) s R.
Proof.
  intros Hp Hw Hk. apply wp_bind.
  eapply wp_mono; [apply (@wp_frame _ _ _ proj m s Q Hp Hw)|].
  intros a s' [HQ E]. now apply Hk.
Qed.

Lemma wp_step_keep {A C B} (proj : Metadata -> B) (m : M A) (k : A -> M C) s
    (R : C -> Metadata -> Prop) :
  preserves proj m ->
  (forall a s', proj s' = proj s -> wp (k a) s' R) ->
  wp (bind m k) s R.
Proof.
  intros Hp Hk. apply wp_bind.
  eapply wp_mono; [apply (@wp_of_preserves _ _ _ proj m s Hp)|].
  intros a s' E. now apply Hk.
Qed.

Lemma build_index_spec camera s :
  wp (build_index camera) s
    (fun _ s' =>
       exists c d, camera = Some c
                   /\ PyDict.get c (imageData s) = Some d
                   /\ imageNumbers s' = sorted (distinct (PyDict.keys d))).
Proof.
  unfold build_index.
  apply wp_bind, wp_or_raise. intros c ->.
  apply wp_bind, wp_gets. apply wp_bind, wp_or_raise. intros inner Hin.
  apply wp_bind, wp_gets.
  apply wp_step_keep with (proj := fun s : Metadata => s).
  - preserve.
  - intros u s' ->. apply wp_modify. simpl. eauto.
Qed.

Lemma load_marks_spec s :
  marks s = [] ->
  wp (load_marks db) s
    (fun _ s' =>
       marks s' = PyDict.of_list (select_marks db (startImage s) (endImage s))).
Proof.
  intros Hm. unfold load_marks.
  apply wp_bind, wp_gets. apply wp_bind, wp_gets.
  apply (wp_for_each _ (fun done s1 => marks s1 = PyDict.of_list done)).
  - exact Hm.
  - intros d [k v] s1 H. apply wp_modify. simpl.
    rewrite H. symmetry. apply of_list_snoc.
Qed.

Lemma min_key_Some (l : list Z) (z : Z) : min_key l = Some z -> l <> [].
Proof. destruct l; [discriminate | congruence]. Qed.

Lemma timespan_loop_spec cams timespan s :
  wp (timespan_loop cams timespan) s
    (fun _ s' =>
       s' = s
       /\ forall c, In c cams ->
            exists d, PyDict.get c (imageData s) = Some d
                      /\ PyDict.keys d <> []).
Proof.
  revert timespan. induction cams as [|c cams IH]; intros timespan; simpl.
  - apply wp_ret. split; [reflexivity | intros c []].
  - apply wp_bind, wp_gets. apply wp_bind, wp_or_raise. intros inner Hin.
    apply wp_bind, wp_or_raise. intros startFrame Hmin.
    apply wp_bind, wp_or_raise. intros endFrame Hmax.
    apply wp_bind, wp_or_raise. intros first Hfirst.
    apply wp_bind, wp_or_raise. intros final Hfinal.
    eapply wp_mono; [apply IH|].
    intros ts s' [-> H]. split; [reflexivity|].
    intros c' [<-|Hc']; [|now apply H].
    exists inner. split; [exact Hin | eapply min_key_Some; eauto].
Qed.

Lemma getTimespan_with_spec requery s :
  imageData s <> [] ->
  wp (getTimespan_with requery) s
    (fun _ s' =>
       s' = s
       /\ forall c, In c (PyDict.keys (cameras s)) ->
            exists d, PyDict.get c (imageData s) = Some d
                      /\ PyDict.keys d <> []).
Proof.
  intros Hne. unfold getTimespan_with.
  apply wp_bind, wp_gets. destruct (imageData s) eqn:E; [congruence|].
  apply wp_bind, wp_ret. apply wp_bind, wp_gets.
  rewrite <- E. apply timespan_loop_spec.
Qed.


Lemma images_loaded_ext cams s s' :
  imageData s' = imageData s -> startImage s' = startImage s ->
  endImage s' = endImage s ->
  images_loaded cams s -> images_loaded cams s'.
Proof.
  unfold images_loaded. intros -> -> ->. auto.
Qed.

Lemma load_snapshot_spec s :
  wp (load_snapshot db startTime endTime returnDiscards) s
    (fun _ s' =>
       dbConnectionName s' = dbConnectionName s /\ snapshot_loaded s').
Proof.
  unfold load_snapshot. apply wp_bind, wp_modify.
  eapply wp_step;
    [apply load_dropped_count_keeps | apply load_dropped_count_spec|].
  intros u1 s1 Hn E1. simpl in E1. injection E1 as C1 K1 I1 S1 N1 U1 M1.
  eapply wp_step;
    [apply load_cameras_keeps | apply load_cameras_spec; exact K1|].
  intros u2 s2 Hc E2. simpl in E2. injection E2 as C2 D2 I2 S2 N2 U2 M2.
  eapply wp_step_keep; [apply load_deployment_data_keeps|].
  intros timeOffset s3 E3. unfold kept in E3.
  injection E3 as C3 D3 K3 I3 S3 N3 U3 M3.
  eapply wp_step_keep; [apply load_dropped_keeps|].
  intros u4 s4 E4. unfold kept in E4.
  injection E4 as C4 D4 K4 I4 S4 N4 U4 M4.
  eapply wp_step;
    [apply load_images_keeps
    | apply load_images_spec; congruence|].
  intros camera s5 [Hcam Himg] E5. simpl in E5.
  injection E5 as C5 D5 K5 U5 M5.
  assert (PyDict.keys (cameras s4) = known_cameras db) as Hk
    by (unfold known_cameras; congruence).
  rewrite Hk in Hcam, Himg.
  eapply wp_step; [apply build_index_keeps | apply build_index_spec|].
  intros u6 s6 (c & d & Hc6 & Hd6 & Hn6) E6. simpl in E6.
  injection E6 as C6 D6 K6 I6 S6 N6 M6.
  eapply wp_step_keep; [apply load_sensor_data_keeps|].
  intros u7 s7 E7. unfold kept in E7.
  injection E7 as C7 D7 K7 I7 S7 N7 U7 M7.
  eapply wp_step_keep; [apply load_async_data_keeps|].
  intros u8 s8 E8. unfold kept in E8.
  injection E8 as C8 D8 K8 I8 S8 N8 U8 M8.
  assert (marks s8 = []) as M by congruence.
  eapply wp_mono.
  - exact (@wp_frame _ _ _ _ _ s8 _ load_marks_keeps (load_marks_spec s8 M)).
  - intros u9 s9 [Hm E9]. simpl in E9.
    injection E9 as C9 D9 K9 I9 S9 N9 U9.
    split; [congruence|]. unfold snapshot_loaded.
    split; [|split; [|split; [|split]]].
    + congruence.
    + congruence.
    + apply (images_loaded_ext (s := s5)); congruence.
    + exists c, d. repeat split; congruence.
    + rewrite Hm. congruence.
Qed.

Lemma query_n_spec n s :
  connected s = true ->
  wp (query_n (S n) db startTime endTime returnDiscards) s
    (fun _ s' => query_done s s').
Proof.
  intros Hc. simpl. apply wp_bind, wp_gets. rewrite Hc. simpl.
  apply wp_bind. eapply wp_mono; [apply load_snapshot_spec|].
  intros u s1 [Hconn Hsnap]. simpl.
  pose proof Hsnap as (Hn & Hk & Himg & (c & d & Hl & Hd & Hnum) & Hm).
  apply wp_bind. eapply wp_mono.
  - apply getTimespan_with_spec. intros E. rewrite E in Hd. discriminate.
  - intros span s2 [-> Hall]. simpl. apply wp_modify.
    split; [exact Hconn|]. split; [exact Hsnap|].
    intros c' Hc'. destruct Himg as (_ & _ & Hi).
    destruct (Hi c' Hc') as (d1 & Hd1 & Hk1).
    rewrite Hk in Hall. destruct (Hall c' Hc') as (d2 & Hd2 & Hne).
    assert (d2 = d1) as -> by congruence.
    destruct (PyDict.keys d1) as [|k l] eqn:E; [congruence|].
    intros Hf. assert (In k (frames_of c')) as Hin
      by (apply Hk1; left; reflexivity).
    rewrite Hf in Hin. exact Hin.
Qed.

End QueryFacts.

(** ** [query] as a whole *)

Section QueryClaims.
Context {RT : Runtime}.

(** One level of the recursion between [query] and [getTimespan] is all
    a call uses: [getTimespan] calls back only on an empty [imageData],
    which [query] never hands it. *)
Lemma bind_ext {A B} (m : M A) (k1 k2 : A -> M B) s :
  (forall a s', m s = (Ok a, s') -> k1 a s' = k2 a s') ->
  bind m k1 s = bind m k2 s.
Proof.
  intros H. unfold bind. destruct (m s) as [[a| e |] s']; auto.
Qed.

Lemma getTimespan_with_loaded (r1 r2 : M unit) s :
  imageData s <> [] -> getTimespan_with r1 s = getTimespan_with r2 s.
Proof.
  intros Hne. unfold getTimespan_with. apply bind_ext.
  intros d s' [= <- <-]. destruct (imageData s); [congruence | reflexivity].
Qed.

Lemma query_n_fuel n db st et rd s :
  query_n (S n) db st et rd s = query_n 1 db st et rd s.
Proof.
  cbn [query_n]. apply bind_ext. intros c s1 _.
  destruct (negb c); [reflexivity|].
  apply bind_ext. intros u s2 E.
  pose proof (load_snapshot_spec db st et rd s1) as W.
  unfold wp in W. rewrite E in W.
  destruct W as (_ & _ & _ & _ & (c' & d & _ & Hd & _) & _).
  unfold bind. rewrite (getTimespan_with_loaded _ out_of_fuel); auto.
  intros Hnil. rewrite Hnil in Hd. discriminate.
Qed.

Lemma query_not_connected_n n db st et rd s :
  connected s = false -> query_n (S n) db st et rd s = (Ok tt, s).
Proof. intros Hc. simpl. unfold bind, gets. now rewrite Hc. Qed.

Lemma query_run db st et rd s s' :
  connected s = true ->
  query db st et rd s = (Ok tt, s') ->
  query_done db st et rd s s'.
Proof.
  intros Hc E. unfold query in E.
  pose proof (query_n_spec db st et rd 1 s Hc) as W.
  unfold wp in W. now rewrite E in W.
Qed.

Lemma query_ends db st et rd s : fst (query db st et rd s) <> OutOfFuel.
Proof.
  destruct (connected s) eqn:Hc.
  - eapply wp_not_out_of_fuel. apply (query_n_spec db st et rd 1 s Hc).
  - unfold query. rewrite query_not_connected_n by exact Hc. discriminate.
Qed.

(** C5.  Without a connection name ([None] or the empty string) [query]
    returns at once: no exception, and the object is left as it was,
    nothing cleared and nothing loaded. *)
Theorem query_not_connected db st et rd s :
  connected s = false -> query db st et rd s = (Ok tt, s).
Proof. intros Hc. unfold query. now apply query_not_connected_n. Qed.

Lemma frames_nil_iff db rd st et c :
  frames db rd st et c = [] <-> select_images db c rd st et = [].
Proof.
  unfold frames. destruct (select_images db c rd st et); simpl; split;
    congruence.
Qed.

(** C9.  On an open store [query] returns only when there is a known
    camera and every known camera has an image row that passes the
    window and discard filter; when there is no known camera, or one of
    them has no such row, it raises. *)
Theorem query_completes_only_with_frames db st et rd s :
  connected s = true ->
  (forall s', query db st et rd s = (Ok tt, s') ->
     known_cameras db <> []
     /\ forall c, In c (known_cameras db) ->
          select_images db c rd st et <> [])
  /\ ((known_cameras db = []
       \/ exists c, In c (known_cameras db)
                    /\ select_images db c rd st et = []) ->
      exists e, fst (query db st et rd s) = Raise e).
Proof.
  intros Hc.
  assert (forall s', query db st et rd s = (Ok tt, s') ->
            known_cameras db <> []
            /\ forall c, In c (known_cameras db) ->
                 select_images db c rd st et <> []) as Hok.
  { intros s' E. destruct (query_run db st et rd s Hc E) as (_ & Hsnap & Hf).
    destruct Hsnap as (_ & _ & _ & (c & d & Hl & _) & _). split.
    - intros Hnil. rewrite Hnil in Hl. discriminate.
    - intros c' Hc' Hnil. apply (Hf c' Hc'). now apply frames_nil_iff. }
  split; [exact Hok|]. intros Hbad.
  pose proof (query_ends db st et rd s) as Hfuel.
  destruct (query db st et rd s) as [[[]| e |] s'] eqn:E; simpl in *.
  - exfalso. destruct (Hok s' eq_refl) as [Hne Hall].
    destruct Hbad as [Hnil | (c & Hc' & Hnil)]; [congruence|].
    exact (Hall c Hc' Hnil).
  - eauto.
  - congruence.
Qed.


Lemma last_opt_split {A} (l : list A) (x : A) :
  last_opt l = Some x -> exists l', l = l' ++ [x].
Proof.
  induction l as [|a l IH]; [discriminate|]. simpl.
  destruct l as [|b l].
  - intros [= ->]. exists []. reflexivity.
  - intros E. destruct (IH E) as [l' ->]. exists (a :: l'). reflexivity.
Qed.

(** [startImage] and [endImage] after a call that returns, whatever the
    frame numbers are: the latch run over the frames in the order they
    are met, and the last of them. *)
Lemma startImage_endImage_exact db st et rd s s' :
  connected s = true ->
  query db st et rd s = (Ok tt, s') ->
  startImage s' = latch (-1) (encountered db rd st et)
  /\ endImage s' = last (encountered db rd st et) 0.
Proof.
  intros Hc E.
  destruct (query_run db st et rd s Hc E) as (_ & Hsnap & _).
  destruct Hsnap as (_ & _ & (Hs & He & _) & _). split; assumption.
Qed.

(** The latch and the overwriting, for every store in which the first
    frame met does not carry the number -1, the value [clear] gives
    [startImage] to say that it is not assigned yet. *)
Lemma startImage_endImage_unless_marker db st et rd s :
  connected s = true ->
  hd_error (encountered db rd st et) <> Some (-1) ->
  first_and_last_seen db st et rd s.
Proof.
  intros Hc Hfirst s' E Hne.
  destruct (query_run db st et rd s Hc E) as (_ & Hsnap & Hf).
  destruct Hsnap as (_ & _ & (Hs & He & _) & (c & d & Hl & _) & _).
  fold (encountered db rd st et) in Hs, He. split.
  - destruct (encountered db rd st et) as [|f l]; [congruence|].
    simpl in *. rewrite Hs. f_equal. symmetry. apply latch_set. congruence.
  - exists c. split; [exact Hl|].
    destruct (last_opt_split _ Hl) as [l' Hk].
    assert (encountered db rd st et
            = flat_map (frames db rd st et) l' ++ frames db rd st et c) as En.
    { unfold encountered. rewrite Hk, flat_map_app. simpl.
      now rewrite app_nil_r. }
    assert (frames db rd st et c <> []) as Hfc
      by (apply Hf; eapply last_opt_In; eauto).
    rewrite He, last_last_opt, En, last_opt_app by exact Hfc.
    destruct (last_opt (frames db rd st et c)) eqn:El; [reflexivity|].
    apply last_opt_None in El. contradiction.
Qed.

(** A frame the image loop meets is the number of a stored image. *)
Lemma encountered_stored db rd st et n :
  In n (encountered db rd st et) ->
  exists r, In r (tbl_images db) /\ img_number r = n.
Proof.
  unfold encountered, frames, select_images. rewrite in_flat_map.
  intros (c & _ & Hn). apply in_map_iff in Hn. destruct Hn as (r & <- & Hr).
  apply In_sort_by in Hr. apply filter_In in Hr. exists r. tauto.
Qed.

(** C2.  Frame numbers are the counters of the image files; no image
    carries the number -1, which [clear] gives [startImage] to say that it
    is not assigned yet.  On such a store, when a call of [query] on an
    open object has returned, with at least one frame passing the
    filter: [startImage] is the first frame number met across the
    cameras in iteration order, whether or not it is the smallest, and
    [endImage] is the last frame of the camera iterated last. *)
Theorem startImage_endImage_order db st et rd s :
  connected s = true ->
  (forall r, In r (tbl_images db) -> img_number r <> -1) ->
  first_and_last_seen db st et rd s.
Proof.
  intros Hc Hcount. apply startImage_endImage_unless_marker; [exact Hc|].
  destruct (encountered db rd st et) as [|n l] eqn:E; [discriminate|].
  simpl. intros [= ->].
  destruct (encountered_stored db rd st et (-1)) as (r & Hr & Hn).
  { rewrite E. left. reflexivity. }
  exact (Hcount r Hr Hn).
Qed.

(** What [imageNumbers] holds after a call that returns: the frame
    numbers of the camera iterated last, ascending and without
    repetition.  The other cameras do not enter into it. *)
Lemma imageNumbers_last_camera db st et rd s s' :
  connected s = true ->
  query db st et rd s = (Ok tt, s') ->
  exists c, last_opt (known_cameras db) = Some c
            /\ (forall n, In n (imageNumbers s') <-> In n (frames db rd st et c))
            /\ ascending (imageNumbers s')
            /\ NoDup (imageNumbers s').
Proof.
  intros Hc E.
  destruct (query_run db st et rd s Hc E) as (_ & Hsnap & _).
  destruct Hsnap as (_ & _ & (_ & _ & Hi) & (c & d & Hl & Hd & Hn) & _).
  exists c. split; [exact Hl|].
  destruct (Hi c (last_opt_In _ Hl)) as (d' & Hd' & Hk).
  assert (d' = d) as -> by congruence. rewrite Hn. repeat split.
  - unfold sorted. rewrite In_sort_by, In_distinct. apply Hk.
  - unfold sorted. rewrite In_sort_by, In_distinct. apply Hk.
  - apply ascending_sorted.
  - apply NoDup_sort_by, NoDup_distinct.
Qed.

(** With one camera the index is that camera's set of frames. *)
Lemma imageNumbers_single_camera db st et rd s s' c :
  connected s = true ->
  query db st et rd s = (Ok tt, s') ->
  known_cameras db = [c] ->
  (forall n, In n (imageNumbers s') <-> In n (frames db rd st et c))
  /\ ascending (imageNumbers s') /\ NoDup (imageNumbers s').
Proof.
  intros Hc E Hk.
  destruct (imageNumbers_last_camera db st et rd s Hc E) as (c' & Hl & H).
  rewrite Hk in Hl. simpl in Hl. injection Hl as <-. exact H.
Qed.

(** What [nDroppedImages] holds after a call that returns: the frame
    number in the first row of the distinct dropped numbers, 0 when
    there is none. *)
Lemma nDroppedImages_first_row db st et rd s s' :
  connected s = true ->
  query db st et rd s = (Ok tt, s') ->
  nDroppedImages s' = hd 0 (distinct (map drp_number (tbl_dropped db))).
Proof.
  intros Hc E.
  destruct (query_run db st et rd s Hc E) as (_ & (Hn & _) & _). exact Hn.
Qed.

(** The marks of the snapshot are the stored marks inside the frames
    of the call. *)
Lemma marks_in_window db st et rd s s' frame :
  connected s = true ->
  query db st et rd s = (Ok tt, s') ->
  PyDict.mem frame (marks s') = true ->
  startImage s' <= frame <= endImage s'.
Proof.
  intros Hc E Hm.
  destruct (query_run db st et rd s Hc E) as (_ & Hsnap & _).
  destruct Hsnap as (_ & _ & _ & _ & Hmarks).
  apply PyDictFacts.mem_In_keys in Hm. rewrite Hmarks in Hm.
  apply (proj1 (In_keys_of_list _ _)) in Hm. apply in_map_iff in Hm.
  destruct Hm as ([k v] & <- & Hin). unfold select_marks in Hin.
  apply filter_In in Hin. destruct Hin as [_ Hb]. simpl in *.
  apply andb_true_iff in Hb. destruct Hb as [H1 H2].
  apply Z.leb_le in H1, H2. lia.
Qed.

(** C10.  On an open store [removeMark] deletes from the store only a
    frame that is a key of the snapshot of marks: then every stored mark
    of the frame goes and the key leaves the snapshot.  For any other
    frame the store and the object stay as they are, whatever the store
    holds for it; after a [query], that is the case of every frame outside
    [[startImage, endImage]]. *)
Theorem removeMark_follows_snapshot (self : Metadata) (db : Store)
    (frame : Z) :
  connected self = true ->
  (PyDict.mem frame (marks self) = true ->
     let w := removeMark frame (self, db) in
     store_marks_at frame (snd w) = []
     /\ PyDict.mem frame (marks (fst w)) = false
     /\ forall f, f <> frame -> store_marks_at f (snd w) = store_marks_at f db)
  /\ (PyDict.mem frame (marks self) = false ->
      removeMark frame (self, db) = (self, db))
  /\ (forall st et rd s0,
        connected s0 = true ->
        query db st et rd s0 = (Ok tt, self) ->
        frame < startImage self \/ endImage self < frame ->
        removeMark frame (self, db) = (self, db)).
Proof.
  intros Hc. split; [|split].
  - intros Hm. rewrite (removeMark_present frame self db Hc Hm). simpl.
    split; [apply store_marks_after_delete|]. split.
    + unfold PyDict.mem. now rewrite PyDictFacts.get_del_same.
    + intros f Hne. now apply store_marks_delete_other.
  - apply removeMark_absent.
  - intros st et rd s0 Hc0 E Hout. apply removeMark_absent.
    destruct (PyDict.mem frame (marks self)) eqn:Hm; [|reflexivity].
    pose proof (marks_in_window db st et rd s0 frame Hc0 E Hm). lia.
Qed.

End QueryClaims.

(** ** Locations and depths *)

Section ResolverFacts.
Context {RT : Runtime}.

(** The position of a frame after the datagrams [l]: the one it had, or
    else the fix of the first datagram that offers one. *)
Lemma location_fold (l : list (Z * string))
    (acc : Bounds * dict Z (float * float)) (n : Z) :
  PyDict.get n (snd (fold_left location_step l acc))
  = match PyDict.get n (snd acc) with
    | Some loc => Some loc
    | None => first_fix n l
    end.
Proof.
  revert acc. induction l as [|[n' data] l IH]; intros [b locs]; simpl.
  - now destruct (PyDict.get n locs).
  - rewrite IH. unfold PyDict.mem.
    destruct (PyDict.get n' locs) as [loc'|] eqn:E'; simpl.
    + destruct (n' =? n) eqn:En; [|reflexivity].
      apply Z.eqb_eq in En. subst n'. now rewrite E'.
    + destruct (datagram_fix data) as [loc|]; simpl.
      * destruct (n' =? n) eqn:En.
        -- apply Z.eqb_eq in En. subst n'.
           now rewrite PyDictFacts.get_set_same, E'.
        -- apply Z.eqb_neq in En.
           now rewrite PyDictFacts.get_set_other by exact En.
      * destruct (n' =? n) eqn:En; [|reflexivity].
        apply Z.eqb_eq in En. subst n'. now rewrite E'.
Qed.

Lemma getLocations_loaded db id s :
  imageData s <> [] ->
  getLocations db id s
  = (match locations_of (sensorData s) id with
     | Ok (b, locations) => Ok (deploymentBounds b, locations)
     | Raise e => Raise e
     | OutOfFuel => OutOfFuel
     end, s).
Proof.
  intros Hne. unfold getLocations, ensure_queried, bind, gets.
  destruct (imageData s); [congruence|]. simpl.
  destruct (locations_of (sensorData s) id) as [[b l]| e |]; reflexivity.
Qed.

(** What [first_fix] stands for, in terms of the parser and the gate: a
    fix comes from a datagram of the frame that parses and passes the
    gate, with no such datagram of the frame before it. *)
Lemma first_fix_Some (n : Z) (l : list (Z * string)) (loc : float * float) :
  first_fix n l = Some loc ->
  exists before data after msg,
    l = before ++ (n, data) :: after
    /\ nmea_parse data = Some msg /\ fix_of msg = Some loc
    /\ forall data' msg',
         In (n, data') before -> nmea_parse data' = Some msg' ->
         fix_of msg' = None.
Proof.
  induction l as [|[n' data] l IH]; [discriminate|]. simpl.
  destruct (n' =? n) eqn:En.
  - apply Z.eqb_eq in En. subst n'.
    destruct (datagram_fix data) as [loc0|] eqn:Ed.
    + intros [= ->]. unfold datagram_fix in Ed.
      destruct (nmea_parse data) as [msg|] eqn:Ep; [|discriminate].
      exists [], data, l, msg. repeat split; auto.
      intros data' msg' [].
    + intros E. destruct (IH E) as (before & d & after & msg & -> & Hp & Hf & Hb).
      exists ((n, data) :: before), d, after, msg. repeat split; auto.
      intros data' msg' [[= <-]|Hin] Hp'.
      * unfold datagram_fix in Ed. now rewrite Hp' in Ed.
      * now apply (Hb data').
  - intros E. destruct (IH E) as (before & d & after & msg & -> & Hp & Hf & Hb).
    exists ((n', data) :: before), d, after, msg. repeat split; auto.
    intros data' msg' [[= -> <-]|Hin] Hp'.
    + rewrite Z.eqb_refl in En. discriminate.
    + now apply (Hb data').
Qed.

Lemma first_fix_None (n : Z) (l : list (Z * string)) :
  first_fix n l = None ->
  forall data msg,
    In (n, data) l -> nmea_parse data = Some msg -> fix_of msg = None.
Proof.
  induction l as [|[n' data] l IH]; [intros _ data msg []|]. simpl.
  intros E data0 msg [[= -> <-]|Hin] Hp.
  - rewrite Z.eqb_refl in E. unfold datagram_fix in E. rewrite Hp in E.
    destruct (fix_of msg); [discriminate | reflexivity].
  - eapply IH; [|exact Hin|exact Hp].
    destruct (n' =? n); [|exact E].
    destruct (datagram_fix data); [discriminate | exact E].
Qed.

(** C4.  For the sensor id the resolver matches, with the datagrams taken
    in the order of the two loops (the headers in the order of the
    dictionary, the frames of a header in the order of theirs).  A frame
    has a location exactly when one of its datagrams parses and passes
    the gate; the location is the latitude and longitude of the first
    such datagram, and no datagram processed after that changes it.
    The gate: a sentence needs a latitude and a longitude; with a status,
    it gives its fix only when the status reads "a" in either case;
    without a status but with a quality, only when the quality is
    positive; with neither, as it is.  So a frame with a datagram of
    quality 1 has a location, and a frame whose datagrams are all of
    quality 0 has none. *)
Theorem location_first_fix_wins (sd : dict string SensorEntry) (id : string)
    (e : SensorEntry) :
  PyDict.get (match_sensor_id sd id) sd = Some e ->
  se_times e = [] ->
  (exists b locations,
     locations_of sd id = Ok (b, locations)
     /\ (forall n loc,
           PyDict.get n locations = Some loc ->
           exists before data after msg,
             flat_map (fun h => PyDict.items (snd h))
               (PyDict.items (se_headers e))
             = before ++ (n, data) :: after
             /\ nmea_parse data = Some msg /\ fix_of msg = Some loc
             /\ forall data' msg',
                  In (n, data') before -> nmea_parse data' = Some msg' ->
                  fix_of msg' = None)
     /\ (forall n,
           PyDict.get n locations = None ->
           forall data msg,
             In (n, data)
               (flat_map (fun h => PyDict.items (snd h))
                  (PyDict.items (se_headers e))) ->
             nmea_parse data = Some msg -> fix_of msg = None)
     /\ (forall n loc more,
           PyDict.get n locations = Some loc ->
           PyDict.get n (snd (fold_left location_step more (b, locations)))
           = Some loc)
     /\ (forall n data msg lat lon,
           In (n, data)
             (flat_map (fun h => PyDict.items (snd h))
                (PyDict.items (se_headers e))) ->
           nmea_parse data = Some msg ->
           nm_latitude msg = Some lat -> nm_longitude msg = Some lon ->
           nm_status msg = None -> nm_quality msg = Some 1 ->
           PyDict.mem n locations = true)
     /\ (forall n,
           (forall data,
              In (n, data)
                (flat_map (fun h => PyDict.items (snd h))
                   (PyDict.items (se_headers e))) ->
              exists msg,
                nmea_parse data = Some msg
                /\ nm_status msg = None /\ nm_quality msg = Some 0) ->
           PyDict.get n locations = None))
  /\ (forall msg,
        (nm_latitude msg = None \/ nm_longitude msg = None ->
         fix_of msg = None)
        /\ forall lat lon,
             nm_latitude msg = Some lat -> nm_longitude msg = Some lon ->
             (forall st, nm_status msg = Some st ->
                fix_of msg
                = if String.eqb (lower st) "a" then Some (lat, lon) else None)
             /\ (forall q, nm_status msg = None -> nm_quality msg = Some q ->
                   fix_of msg = if 0 <? q then Some (lat, lon) else None)
             /\ (nm_status msg = None -> nm_quality msg = Some 0 ->
                   fix_of msg = None)
             /\ (nm_status msg = None -> nm_quality msg = Some 1 ->
                   fix_of msg = Some (lat, lon))
             /\ (nm_status msg = None -> nm_quality msg = None ->
                   fix_of msg = Some (lat, lon))).
Proof.
  intros He Ht. split.
  - unfold locations_of. rewrite He, Ht.
    destruct (fold_left location_step (datagrams e) locations_start)
      as [b locations] eqn:E.
    assert (forall n, PyDict.get n locations = first_fix n (datagrams e))
      as Hfirst.
    { intros n. change locations with (snd (b, locations)).
      rewrite <- E, location_fold. reflexivity. }
    fold (datagrams e).
    exists b, locations. split; [reflexivity|].
    split; [|split; [|split; [|split]]].
    + intros n loc Hn. rewrite Hfirst in Hn. now apply first_fix_Some.
    + intros n Hn. rewrite Hfirst in Hn. now apply first_fix_None.
    + intros n loc more Hn. rewrite location_fold. simpl. now rewrite Hn.
    + intros n data msg lat lon Hin Hp Hlat Hlon Hst Hq.
      unfold PyDict.mem.
      destruct (PyDict.get n locations) eqn:Hn; [reflexivity|].
      rewrite Hfirst in Hn.
      pose proof (first_fix_None _ _ Hn _ Hin Hp) as Hf.
      unfold fix_of in Hf. rewrite Hlat, Hlon, Hst, Hq in Hf. discriminate.
    + intros n Hall.
      destruct (PyDict.get n locations) as [loc|] eqn:Hn; [|reflexivity].
      rewrite Hfirst in Hn.
      destruct (first_fix_Some _ _ Hn)
        as (before & data & after & msg & El & Hp & Hf & _).
      destruct (Hall data) as (msg0 & Hp0 & Hst & Hq).
      { rewrite El. apply in_or_app. right. left. reflexivity. }
      rewrite Hp in Hp0. injection Hp0 as <-.
      unfold fix_of in Hf. rewrite Hst, Hq in Hf.
      destruct (nm_latitude msg), (nm_longitude msg); discriminate.
  - intros msg. split.
    + unfold fix_of. intros [-> | ->]; [reflexivity|].
      now destruct (nm_latitude msg).
    + intros lat lon Hlat Hlon. unfold fix_of. rewrite Hlat, Hlon.
      repeat split.
      * intros st ->. reflexivity.
      * intros q -> ->. reflexivity.
      * intros -> ->. reflexivity.
      * intros -> ->. reflexivity.
      * intros -> ->. reflexivity.
Qed.

(** The depth of every frame is what its payload parses to; a payload
    that does not parse gives [None]. *)
Lemma depth_fold parseChar depthFieldNum (l : list (Z * string)) acc :
  snd (fold_left (depth_step parseChar depthFieldNum) l acc)
  = fold_left
      (fun d item =>
         PyDict.set (fst item) (parse_depth parseChar depthFieldNum (snd item)) d)
      l (snd acc).
Proof.
  revert acc. induction l as [|[n data] l IH]; intros [[mn mx] d]; simpl;
    [reflexivity|].
  rewrite IH. f_equal.
  destruct (parse_depth parseChar depthFieldNum data) as [depth|]; simpl;
    [|reflexivity].
  destruct (float_ltb mx depth); [reflexivity|].
  destruct (float_ltb depth mn); reflexivity.
Qed.

(** A payload that does not parse leaves the minimum and maximum alone. *)
Lemma depth_step_failure parseChar depthFieldNum mn mx d n data :
  parse_depth parseChar depthFieldNum data = None ->
  depth_step parseChar depthFieldNum (mn, mx, d) (n, data)
  = (mn, mx, PyDict.set n None d).
Proof. intros E. unfold depth_step. now rewrite E. Qed.

(** The example payload: field 5 is the text "15.5". *)
Lemma parse_depth_OHPR :
  parse_depth "," 5 "$OHPR,1,2,3,-999.0,15.5,0,0,0*00"
  = float_of_string "15.5".
Proof. reflexivity. Qed.

(** A depth above the running maximum is not compared with the minimum:
    the first depth read, if above -999999, leaves the minimum at
    999999. *)
Lemma depth_step_first parseChar depthFieldNum n data depth :
  parse_depth parseChar depthFieldNum data = Some depth ->
  float_ltb (float_of_Z (-999999)) depth = true ->
  depth_step parseChar depthFieldNum depths_start (n, data)
  = (float_of_Z 999999, depth, [(n, Some depth)]).
Proof.
  intros E Hlt. unfold depth_step, depths_start. now rewrite E, Hlt.
Qed.

End ResolverFacts.

(** ** Schema migration *)

Section SchemaFacts.

Lemma fold_left_noop {A B} (f : A -> B -> A) (l : list B) (a : A) :
  (forall b, In b l -> f a b = a) -> fold_left f l a = a.
Proof.
  induction l as [|b l IH]; simpl; intros H; [reflexivity|].
  rewrite (H b) by (left; reflexivity). apply IH. intros b' Hb'.
  apply H. right. exact Hb'.
Qed.

Lemma fold_left_keeps {A B} (f : A -> B -> A) (P : A -> Prop)
    (l : list B) (a : A) :
  (forall a b, P a -> P (f a b)) -> P a -> P (fold_left f l a).
Proof.
  intros Hf. revert a. induction l as [|b l IH]; simpl; auto.
Qed.

(** A step establishes [P b] and no step undoes it: after the loop [P]
    holds of every element. *)
Lemma fold_left_establishes {A B} (f : A -> B -> A) (P : B -> A -> Prop)
    (l : list B) (a : A) :
  (forall a b, In b l -> P b (f a b)) ->
  (forall a b b', P b a -> P b (f a b')) ->
  forall b, In b l -> P b (fold_left f l a).
Proof.
  intros Hest Hkeep. revert a.
  induction l as [|x l IH]; intros a b Hb; simpl; [destruct Hb|].
  destruct Hb as [->|Hb].
  - apply fold_left_keeps; [intros; now apply Hkeep|].
    apply Hest. left. reflexivity.
  - apply IH; auto. intros a' b' Hb'. apply Hest. right. exact Hb'.
Qed.

Lemma names_add_column table column sch :
  map fst (add_column table column sch) = map fst sch.
Proof.
  unfold add_column. rewrite map_map. apply map_ext. intros t.
  now destruct (same_name table (fst t)
                && negb (existsb (same_name column) (snd t))).
Qed.

Lemma names_ensure_column sch c :
  map fst (ensure_column sch c) = map fst sch.
Proof.
  unfold ensure_column. destruct (has_column (fst c) (snd c) sch);
    [reflexivity | apply names_add_column].
Qed.

Lemma table_exists_ensure_column name sch c :
  table_exists name (ensure_column sch c) = table_exists name sch.
Proof. unfold table_exists. now rewrite names_ensure_column. Qed.

Lemma in_tables_ensure_column name sch c :
  in_tables name (ensure_column sch c) = in_tables name sch.
Proof. unfold in_tables. now rewrite names_ensure_column. Qed.

Lemma table_exists_app name sch t :
  table_exists name sch = true -> table_exists name (sch ++ [t]) = true.
Proof.
  unfold table_exists. rewrite map_app, existsb_app. intros ->. reflexivity.
Qed.

Lemma table_exists_ensure_table sch t :
  table_exists (fst t) (ensure_table sch t) = true.
Proof.
  unfold ensure_table, create_table.
  destruct (in_tables (fst t) sch) eqn:E.
  - unfold in_tables in E. unfold table_exists.
    apply existsb_exists in E. destruct E as (x & Hx & Ex).
    apply String.eqb_eq in Ex. subst x. apply existsb_exists.
    exists (fst t). split; [exact Hx|]. unfold same_name.
    apply String.eqb_refl.
  - destruct (table_exists (fst t) sch) eqn:E'; [exact E'|].
    unfold table_exists. rewrite map_app, existsb_app. simpl.
    unfold same_name. rewrite String.eqb_refl. now rewrite orb_true_r.
Qed.

Lemma table_exists_kept_by_table name sch t :
  table_exists name sch = true -> table_exists name (ensure_table sch t) = true.
Proof.
  intros H. unfold ensure_table, create_table.
  destruct (in_tables (fst t) sch); [exact H|].
  destruct (table_exists (fst t) sch); [exact H|].
  now apply table_exists_app.
Qed.

Lemma ensure_table_noop sch t :
  table_exists (fst t) sch = true -> ensure_table sch t = sch.
Proof.
  intros H. unfold ensure_table, create_table. rewrite H.
  now destruct (in_tables (fst t) sch).
Qed.

Lemma add_column_no_table table column sch :
  table_exists table sch = false -> add_column table column sch = sch.
Proof.
  unfold table_exists, add_column.
  induction sch as [|t sch IH]; simpl; [reflexivity|].
  intros H. apply orb_false_iff in H. destruct H as [H1 H2].
  rewrite H1. simpl. now rewrite IH.
Qed.

Lemma ensure_column_noop sch c :
  column_settled c sch -> ensure_column sch c = sch.
Proof.
  intros [H|H]; unfold ensure_column.
  - now rewrite H.
  - destruct (has_column (fst c) (snd c) sch); [reflexivity|].
    now apply add_column_no_table.
Qed.

Lemma has_column_add_column_same table column sch :
  lower column = column ->
  has_column table column (add_column table column sch)
  = table_exists table sch.
Proof.
  intros Hl. unfold has_column, add_column, table_exists.
  induction sch as [|t sch IH]; simpl; [reflexivity|].
  rewrite IH. f_equal.
  destruct (same_name table (fst t)) eqn:E; simpl.
  - destruct (existsb (same_name column) (snd t)) eqn:E'; simpl.
    + rewrite E. simpl. apply existsb_exists in E'.
      destruct E' as (x & Hx & Ex). apply existsb_exists. exists x.
      split; [exact Hx|]. unfold same_name in Ex. rewrite Hl in Ex.
      now rewrite String.eqb_sym.
    + rewrite E. simpl. rewrite existsb_app. simpl.
      now rewrite Hl, String.eqb_refl, orb_true_r.
  - now rewrite E.
Qed.

Lemma has_column_kept table column sch table' column' :
  has_column table column sch = true ->
  has_column table column (add_column table' column' sch) = true.
Proof.
  unfold has_column, add_column. intros H.
  apply existsb_exists in H. destruct H as (t & Ht & E).
  apply existsb_exists.
  exists (if same_name table' (fst t)
             && negb (existsb (same_name column') (snd t))
          then (fst t, snd t ++ [column']) else t).
  split.
  - apply in_map_iff. exists t. split; [reflexivity | exact Ht].
  - apply andb_true_iff in E. destruct E as [E1 E2].
    destruct (same_name table' (fst t)
              && negb (existsb (same_name column') (snd t))); simpl.
    + rewrite E1, existsb_app, E2. reflexivity.
    + now rewrite E1, E2.
Qed.

Lemma column_settled_ensure sch c :
  lower (snd c) = snd c -> column_settled c (ensure_column sch c).
Proof.
  intros Hl. unfold column_settled, ensure_column.
  destruct (has_column (fst c) (snd c) sch) eqn:E; [left; exact E|].
  rewrite has_column_add_column_same by exact Hl.
  unfold table_exists at 2. rewrite names_add_column.
  fold (table_exists (fst c) sch).
  destruct (table_exists (fst c) sch); auto.
Qed.

Lemma column_settled_kept sch c c' :
  column_settled c sch -> column_settled c (ensure_column sch c').
Proof.
  unfold column_settled. rewrite table_exists_ensure_column.
  intros [H|H]; [left | right; exact H].
  unfold ensure_column. destruct (has_column (fst c') (snd c') sch);
    [exact H | now apply has_column_kept].
Qed.

Lemma new_columns_lower c : In c new_columns -> lower (snd c) = snd c.
Proof.
  unfold new_columns. simpl.
  intros H. repeat (destruct H as [<-|H]; [reflexivity|]). destruct H.
Qed.

Lemma ensureSchema_settled sch : schema_settled (ensureSchema sch).
Proof.
  unfold ensureSchema. split.
  - intros t Ht.
    apply (fold_left_keeps ensure_column
             (fun s => table_exists (fst t) s = true)).
    + intros a c H. now rewrite table_exists_ensure_column.
    + apply (fold_left_establishes ensure_table
               (fun t s => table_exists (fst t) s = true)); auto.
      * intros a b _. apply table_exists_ensure_table.
      * intros a b b' H. now apply table_exists_kept_by_table.
  - apply (fold_left_establishes ensure_column column_settled).
    + intros a c Hc. apply column_settled_ensure.
      now apply new_columns_lower.
    + intros a c c' H. now apply column_settled_kept.
Qed.

Lemma settled_noop sch : schema_settled sch -> ensureSchema sch = sch.
Proof.
  intros [Ht Hc]. unfold ensureSchema.
  rewrite (@fold_left_noop _ _ ensure_table new_tables sch).
  - apply fold_left_noop. intros c Hin. apply ensure_column_noop. auto.
  - intros t Hin. apply ensure_table_noop. auto.
Qed.

(** Running the checks on a schema that has been through them changes
    nothing. *)
Lemma ensureSchema_idempotent sch :
  ensureSchema (ensureSchema sch) = ensureSchema sch.
Proof. apply settled_noop, ensureSchema_settled. Qed.

End SchemaFacts.

Section OpenFacts.
Context {RT : Runtime}.

Lemma with_schema_same db : with_schema (schema db) db = db.
Proof. now destruct db. Qed.

Lemma schema_insert_parameter p v db :
  schema (insert_parameter p v db) = schema db.
Proof.
  unfold insert_parameter.
  now destruct (table_exists "deployment_data" (schema db)
                && negb (existsb (fun r => String.eqb (fst r) p)
                           (tbl_deployment_data db))).
Qed.

Lemma schema_default_rows c db : schema (default_rows c db) = schema db.
Proof.
  unfold default_rows.
  destruct (same_name (fst c) "images" && table_exists "images" (schema db));
    [|reflexivity].
  destruct (String.eqb (snd c) "still_image"); [reflexivity|].
  now destruct (String.eqb (snd c) "discarded").
Qed.

Lemma schema_migrate_table db t :
  schema (migrate_table db t) = ensure_table (schema db) t.
Proof.
  unfold migrate_table, ensure_table.
  destruct (in_tables (fst t) (schema db)); [reflexivity|].
  destruct (String.eqb (fst t) "deployment_data");
    [rewrite schema_insert_parameter|]; reflexivity.
Qed.

Lemma schema_migrate_column db c :
  schema (migrate_column db c) = ensure_column (schema db) c.
Proof.
  unfold migrate_column, ensure_column.
  destruct (has_column (fst c) (snd c) (schema db)); reflexivity.
Qed.

Lemma fold_left_proj {A A' B} (proj : A -> A') (g : A -> B -> A)
    (f : A' -> B -> A') (l : list B) (a : A) :
  (forall a b, proj (g a b) = f (proj a) b) ->
  proj (fold_left g l a) = fold_left f l (proj a).
Proof.
  intros H. revert a. induction l as [|b l IH]; intros a; simpl;
    [reflexivity|]. now rewrite IH, H.
Qed.

(** The schema side of [open] is [ensureSchema]. *)
Lemma schema_migrate db : schema (migrate db) = ensureSchema (schema db).
Proof.
  unfold migrate, ensureSchema.
  rewrite (fold_left_proj schema migrate_column ensure_column)
    by apply schema_migrate_column.
  now rewrite (fold_left_proj schema migrate_table ensure_table)
    by apply schema_migrate_table.
Qed.

Lemma has_parameter_insert p q v db :
  existsb (fun r => String.eqb (fst r) p) (tbl_deployment_data db) = true ->
  existsb (fun r => String.eqb (fst r) p)
    (tbl_deployment_data (insert_parameter q v db)) = true.
Proof.
  intros H. unfold insert_parameter.
  destruct (table_exists "deployment_data" (schema db)
            && negb (existsb (fun r => String.eqb (fst r) q)
                       (tbl_deployment_data db))); [|exact H].
  simpl. rewrite existsb_app, H. reflexivity.
Qed.

Lemma seeded_insert_parameter p v db :
  seeded db -> seeded (insert_parameter p v db).
Proof.
  unfold seeded. rewrite schema_insert_parameter.
  intros [H|H]; [left; exact H | right; now apply has_parameter_insert].
Qed.

Lemma in_tables_create name t cols sch :
  in_tables name sch = true -> in_tables name (create_table t cols sch) = true.
Proof.
  intros H. unfold create_table. destruct (table_exists t sch); [exact H|].
  unfold in_tables in *. rewrite map_app, existsb_app, H. reflexivity.
Qed.

Lemma table_exists_create t cols sch :
  table_exists t (create_table t cols sch) = true.
Proof.
  unfold create_table. destruct (table_exists t sch) eqn:E; [exact E|].
  unfold table_exists. rewrite map_app, existsb_app. simpl.
  unfold same_name. now rewrite String.eqb_refl, orb_true_r.
Qed.

Lemma seeded_migrate_table_kept db t :
  seeded db -> seeded (migrate_table db t).
Proof.
  intros H. unfold migrate_table.
  destruct (in_tables (fst t) (schema db)); [exact H|].
  assert (seeded (with_schema (create_table (fst t) (snd t) (schema db)) db))
    as H1.
  { destruct H as [H|H]; [left | right; exact H].
    simpl. now apply in_tables_create. }
  destruct (String.eqb (fst t) "deployment_data"); [|exact H1].
  now apply seeded_insert_parameter.
Qed.

Lemma seeded_migrate_table db t :
  fst t = "deployment_data" -> seeded (migrate_table db t).
Proof.
  intros Ht. unfold migrate_table. rewrite Ht.
  destruct (in_tables "deployment_data" (schema db)) eqn:E; [left; exact E|].
  rewrite String.eqb_refl. right. unfold insert_parameter. simpl.
  rewrite table_exists_create. simpl.
  destruct (existsb (fun r => String.eqb (fst r) "hours_offset_to_utc")
              (tbl_deployment_data db)) eqn:E'; simpl.
  - exact E'.
  - rewrite existsb_app. simpl. now rewrite orb_true_r.
Qed.

Lemma deployment_data_default_rows c db :
  tbl_deployment_data (default_rows c db) = tbl_deployment_data db.
Proof.
  unfold default_rows.
  destruct (same_name (fst c) "images" && table_exists "images" (schema db));
    [|reflexivity].
  destruct (String.eqb (snd c) "still_image"); [reflexivity|].
  now destruct (String.eqb (snd c) "discarded").
Qed.

Lemma seeded_migrate_column db c : seeded db -> seeded (migrate_column db c).
Proof.
  intros H. unfold seeded. rewrite schema_migrate_column.
  rewrite in_tables_ensure_column.
  unfold migrate_column.
  destruct (has_column (fst c) (snd c) (schema db)); [exact H|].
  simpl. now rewrite deployment_data_default_rows.
Qed.

Lemma migrate_settled db : store_settled (migrate db).
Proof.
  split.
  - rewrite schema_migrate. apply ensureSchema_settled.
  - unfold migrate. apply fold_left_keeps.
    + intros a c H. now apply seeded_migrate_column.
    + apply (fold_left_establishes migrate_table
               (fun t db => fst t = "deployment_data" -> seeded db))
        with (b := ("deployment_data",
                    ["deployment_parameter"; "parameter_value"])).
      * intros a b _ Hb. now apply seeded_migrate_table.
      * intros a b b' H Hb. apply seeded_migrate_table_kept. auto.
      * unfold new_tables. simpl. auto.
      * reflexivity.
Qed.

Lemma migrate_table_noop db t :
  table_exists (fst t) (schema db) = true -> seeded db ->
  migrate_table db t = db.
Proof.
  intros Ht Hs. unfold migrate_table.
  destruct (in_tables (fst t) (schema db)) eqn:E; [reflexivity|].
  unfold create_table. rewrite Ht, with_schema_same.
  destruct (String.eqb (fst t) "deployment_data") eqn:Et; [|reflexivity].
  apply String.eqb_eq in Et. rewrite Et in E.
  destruct Hs as [Hs|Hs]; [congruence|].
  unfold insert_parameter. rewrite Hs. simpl. now rewrite andb_false_r.
Qed.

Lemma default_rows_no_table c db :
  In c new_columns -> table_exists (fst c) (schema db) = false ->
  default_rows c db = db.
Proof.
  unfold new_columns. simpl. intros H Ht. unfold default_rows.
  repeat (destruct H as [<-|H];
          [simpl in *; try rewrite Ht; reflexivity|]).
  destruct H.
Qed.

Lemma migrate_column_noop db c :
  In c new_columns -> column_settled c (schema db) ->
  migrate_column db c = db.
Proof.
  intros Hin Hc. unfold migrate_column.
  destruct (has_column (fst c) (snd c) (schema db)) eqn:E; [reflexivity|].
  destruct Hc as [Hc|Hc]; [congruence|].
  rewrite add_column_no_table by exact Hc.
  rewrite default_rows_no_table by assumption. apply with_schema_same.
Qed.

(** A store that has been through [open] is left as it is by the checks. *)
Lemma migrate_noop db : store_settled db -> migrate db = db.
Proof.
  intros [[Ht Hc] Hs]. unfold migrate.
  rewrite (@fold_left_noop _ _ migrate_table new_tables db).
  - apply fold_left_noop. intros c Hin. apply migrate_column_noop; auto.
  - intros t Hin. apply migrate_table_noop; auto.
Qed.


Lemma filter_none {A} (f : A -> bool) (l : list A) :
  existsb f l = false -> filter f l = [].
Proof.
  induction l as [|a l IH]; simpl; [reflexivity|].
  intros H. apply orb_false_iff in H. destruct H as [-> H]. now apply IH.
Qed.

(** What the last step of [open] can do to the store: nothing, or write
    the image type found on disk under a parameter that was not there. *)
Lemma image_file_type_cases fs path db :
  snd (image_file_type fs path db) = db
  \/ exists t,
       In t imageTypes
       /\ existsb (fun r => String.eqb (fst r) "image_file_type")
            (tbl_deployment_data db) = false
       /\ image_file_type fs path db
          = (Some t,
             with_tbl_deployment_data
               (tbl_deployment_data db ++ [("image_file_type", drop_first t)])
               db).
Proof.
  unfold image_file_type.
  destruct (match filter (fun r => String.eqb (fst r) "image_file_type")
                    (tbl_deployment_data db) with
            | [] => None
            | (_, v) :: _ =>
                match v with
                | EmptyString => None
                | String _ _ =>
                    if starts_with_dot (lower v) then Some (lower v)
                    else Some ("." ++ lower v)%string
                end
            end) as [e|]; [left; reflexivity|].
  destruct (filter (fun r => discardClause r && is_still r) (tbl_images db))
    as [|r rows]; [left; reflexivity|].
  destruct (filter
              (fun t => isfile fs
                 (normpath fs
                    (path ++ sep fs ++ "images" ++ sep fs ++ img_camera r
                     ++ sep fs ++ img_name r) ++ t)%string) imageTypes)
    as [|t ts] eqn:Ef; [left; reflexivity|].
  unfold insert_parameter.
  destruct (table_exists "deployment_data" (schema db)) eqn:Et; simpl;
    [|left; reflexivity].
  destruct (existsb (fun r0 => String.eqb (fst r0) "image_file_type")
              (tbl_deployment_data db)) eqn:Ee; simpl;
    [left; reflexivity|].
  right. exists t. split; [|split; reflexivity].
  assert (In t (t :: ts)) as Hin by (left; reflexivity).
  rewrite <- Ef in Hin. apply filter_In in Hin. tauto.
Qed.

Lemma schema_image_file_type fs path db :
  schema (snd (image_file_type fs path db)) = schema db.
Proof.
  destruct (image_file_type_cases fs path db) as [->|(t & _ & _ & ->)];
    reflexivity.
Qed.

Lemma seeded_image_file_type fs path db :
  seeded db -> seeded (snd (image_file_type fs path db)).
Proof.
  intros H.
  destruct (image_file_type_cases fs path db) as [->|(t & _ & _ & ->)];
    [exact H|].
  destruct H as [H|H]; [left; exact H | right]. simpl.
  rewrite existsb_app, H. reflexivity.
Qed.

(** Determining the image type a second time gives the same answer and
    writes nothing. *)
Lemma image_file_type_stable fs path db :
  image_file_type fs path (snd (image_file_type fs path db))
  = image_file_type fs path db.
Proof.
  destruct (image_file_type_cases fs path db) as [E|(t & Ht & Ee & E)].
  - rewrite E. destruct (image_file_type fs path db) as [ext db'].
    simpl in E. now subst db'.
  - rewrite E. simpl. unfold image_file_type at 1. simpl.
    rewrite filter_app, (filter_none _ _ Ee). simpl.
    unfold imageTypes in Ht. simpl in Ht.
    destruct Ht as [<-|[<-|[<-|[<-|[]]]]]; reflexivity.
Qed.

Lemma open_store fs path name self db :
  isfile fs (dbFile fs path) = true ->
  snd (snd (open fs true path name (self, db)))
  = snd (image_file_type fs path (migrate db)).
Proof.
  intros Hf. unfold open. rewrite Hf. cbn [negb].
  now destruct (image_file_type fs path (migrate db)).
Qed.

Lemma open_outcome fs path name self db :
  isfile fs (dbFile fs path) = true ->
  fst (open fs true path name (self, db)) = Ok tt.
Proof.
  intros Hf. unfold open. rewrite Hf. cbn [negb].
  now destruct (image_file_type fs path (migrate db)).
Qed.

Lemma open_settled fs path name self db :
  isfile fs (dbFile fs path) = true ->
  store_settled (snd (snd (open fs true path name (self, db)))).
Proof.
  intros Hf. rewrite open_store by exact Hf.
  destruct (migrate_settled db) as [Hs Hd]. split.
  - now rewrite schema_image_file_type.
  - now apply seeded_image_file_type.
Qed.

(** C8.  Opening a store a second time, under the same answers of the
    file system, raises nothing and leaves the store exactly as the first
    opening left it, schema and rows alike: every check of the migration
    finds its table or column and no statement is applied.  The schema
    the first opening leaves is [ensureSchema] of the schema it found. *)
Theorem open_twice fs path name self db :
  isfile fs (dbFile fs path) = true ->
  let r1 := open fs true path name (self, db) in
  let r2 := open fs true path name (snd r1) in
  fst r1 = Ok tt
  /\ fst r2 = Ok tt
  /\ schema (snd (snd r1)) = ensureSchema (schema db)
  /\ schema (snd (snd r2)) = schema (snd (snd r1))
  /\ snd (snd r2) = snd (snd r1).
Proof.
  intros Hf. cbv zeta.
  pose proof (open_settled fs path name self db Hf) as Hset.
  pose proof (open_store fs path name self db Hf) as Hdb.
  destruct (open fs true path name (self, db)) as [o1 [self1 db1]] eqn:E1.
  cbn [fst snd] in *.
  assert (snd (snd (open fs true path name (self1, db1))) = db1) as Hdb2.
  { rewrite open_store by exact Hf. rewrite (migrate_noop Hset), Hdb.
    rewrite image_file_type_stable. now rewrite <- Hdb. }
  split; [|split; [|split; [|split]]].
  - pose proof (open_outcome fs path name self db Hf) as H.
    now rewrite E1 in H.
  - now apply open_outcome.
  - rewrite Hdb, schema_image_file_type. apply schema_migrate.
  - now rewrite Hdb2.
  - exact Hdb2.
Qed.

End OpenFacts.

(** ** Looking marks up *)

Section Ordering.

(** The first row of a sorted result is a least one. *)
Lemma sort_by_hd_least {A} (le : A -> A -> bool) (l : list A) (y : A)
    (ys : list A) :
  (forall a b, le a b = false -> le b a = true) ->
  (forall a b c, le a b = true -> le b c = true -> le a c = true) ->
  sort_by le l = y :: ys ->
  forall x, In x l -> le y x = true.
Proof.
  intros Htot Htr. revert y ys.
  assert (forall a, le a a = true) as Hrefl.
  { intros a. destruct (le a a) eqn:E; [reflexivity|].
    pose proof (Htot a a E). congruence. }
  induction l as [|a l IH]; intros y ys E x Hx; [destruct Hx|].
  simpl in E. destruct (sort_by le l) as [|z zs] eqn:Es.
  - apply sort_by_nil_iff in Es. subst l. simpl in E.
    injection E as <- <-. destruct Hx as [<-|[]]. apply Hrefl.
  - simpl in E. destruct (le a z) eqn:Eaz.
    + injection E as <- <-. destruct Hx as [<-|Hx]; [apply Hrefl|].
      apply Htr with z; [exact Eaz|]. now apply (IH z zs).
    + injection E as <- <-. destruct Hx as [<-|Hx].
      * now apply Htot.
      * now apply (IH z zs).
Qed.

Lemma sort_by_hd_In {A} (le : A -> A -> bool) (l : list A) (y : A)
    (ys : list A) :
  sort_by le l = y :: ys -> In y l.
Proof.
  intros E. apply (In_sort_by le). rewrite E. left. reflexivity.
Qed.

Lemma filter_nil_false {A} (f : A -> bool) (l : list A) :
  filter f l = [] -> forall x, In x l -> f x = false.
Proof.
  intros E x Hx. destruct (f x) eqn:Ef; [|reflexivity].
  assert (In x (filter f l)) as H by (apply filter_In; auto).
  rewrite E in H. destruct H.
Qed.

End Ordering.

Section MarkLookups.
Context {RT : Runtime}.

Lemma asc_total (a b : Z * string) :
  (fst a <=? fst b) = false -> (fst b <=? fst a) = true.
Proof. intros H. apply Z.leb_gt in H. apply Z.leb_le. lia. Qed.

Lemma asc_trans (a b c : Z * string) :
  (fst a <=? fst b) = true -> (fst b <=? fst c) = true ->
  (fst a <=? fst c) = true.
Proof. rewrite !Z.leb_le. lia. Qed.

(** The shape of the answer of [findNextMark] on an open store. *)
Lemma findNextMark_cases (frame : Z) (self : Metadata) (db : Store) :
  connected self = true ->
  (findNextMark frame self db = NoMark
   /\ forall r, In r (tbl_marks db) -> fst r <= frame)
  \/ exists g d,
       findNextMark frame self db = Mark g d
       /\ In (g, d) (tbl_marks db) /\ frame < g
       /\ forall r, In r (tbl_marks db) -> frame < fst r -> g <= fst r.
Proof.
  intros Hc. unfold findNextMark, marks_asc. rewrite Hc. cbn [negb].
  destruct (sort_by _ (filter (fun r => frame <? fst r) (tbl_marks db)))
    as [|[g d] ys] eqn:E.
  - left. split; [reflexivity|]. intros r Hr.
    apply sort_by_nil_iff in E.
    pose proof (filter_nil_false _ _ E r Hr) as H. simpl in H.
    apply Z.ltb_ge in H. exact H.
  - right. exists g, d. split; [reflexivity|].
    pose proof (sort_by_hd_In _ _ E) as Hin. apply filter_In in Hin.
    destruct Hin as [Hin Hlt]. simpl in Hlt. apply Z.ltb_lt in Hlt.
    split; [exact Hin|]. split; [exact Hlt|]. intros r Hr Hfr.
    assert (In r (filter (fun r => frame <? fst r) (tbl_marks db))) as Hr'
      by (apply filter_In; split; [exact Hr | now apply Z.ltb_lt]).
    pose proof (sort_by_hd_least _ _ asc_total asc_trans E r Hr') as H.
    simpl in H. now apply Z.leb_le in H.
Qed.

Lemma findPreviousMark_cases (frame : Z) (self : Metadata) (db : Store) :
  connected self = true ->
  (findPreviousMark frame self db = NoMark
   /\ forall r, In r (tbl_marks db) -> frame <= fst r)
  \/ exists g d,
       findPreviousMark frame self db = Mark g d
       /\ In (g, d) (tbl_marks db) /\ g < frame
       /\ forall r, In r (tbl_marks db) -> fst r < frame -> fst r <= g.
Proof.
  intros Hc. unfold findPreviousMark, marks_desc. rewrite Hc. cbn [negb].
  destruct (sort_by _ (filter (fun r => fst r <? frame) (tbl_marks db)))
    as [|[g d] ys] eqn:E.
  - left. split; [reflexivity|]. intros r Hr.
    apply sort_by_nil_iff in E.
    pose proof (filter_nil_false _ _ E r Hr) as H. simpl in H.
    apply Z.ltb_ge in H. exact H.
  - right. exists g, d. split; [reflexivity|].
    pose proof (sort_by_hd_In _ _ E) as Hin. apply filter_In in Hin.
    destruct Hin as [Hin Hlt]. simpl in Hlt. apply Z.ltb_lt in Hlt.
    split; [exact Hin|]. split; [exact Hlt|]. intros r Hr Hfr.
    assert (In r (filter (fun r => fst r <? frame) (tbl_marks db))) as Hr'
      by (apply filter_In; split; [exact Hr | now apply Z.ltb_lt]).
    assert (forall a b : Z * string,
              (fst b <=? fst a) = false -> (fst a <=? fst b) = true) as Htot
      by (intros a b; apply asc_total).
    assert (forall a b c : Z * string,
              (fst b <=? fst a) = true -> (fst c <=? fst b) = true ->
              (fst c <=? fst a) = true) as Htr
      by (intros a b c H1 H2; now apply asc_trans with b).
    pose proof (sort_by_hd_least (fun a b : Z * string => fst b <=? fst a)
                  _ Htot Htr E r Hr') as H.
    simpl in H. now apply Z.leb_le in H.
Qed.

(** X1.  On an open store [findNextMark] answers with the nearest mark
    strictly after the frame: a stored mark whose frame is above the one
    given, with no stored mark in between; the frame given is never the
    answer, marked or not.  It answers [(None, None)] exactly when no
    stored mark lies after the frame. *)
Theorem findNextMark_nearest (frame : Z) (self : Metadata) (db : Store) :
  connected self = true ->
  match findNextMark frame self db with
  | NotConnected => False
  | NoMark => forall r, In r (tbl_marks db) -> fst r <= frame
  | Mark g d =>
      In (g, d) (tbl_marks db) /\ frame < g
      /\ forall r, In r (tbl_marks db) -> frame < fst r -> g <= fst r
  end.
Proof.
  intros Hc.
  destruct (findNextMark_cases frame self db Hc)
    as [[-> H]|(g & d & -> & H)]; exact H.
Qed.

(** X2.  On an open store [findPreviousMark] answers with the nearest mark
    strictly before the frame, and with [(None, None)] exactly when no
    stored mark lies before it. *)
Theorem findPreviousMark_nearest (frame : Z) (self : Metadata) (db : Store) :
  connected self = true ->
  match findPreviousMark frame self db with
  | NotConnected => False
  | NoMark => forall r, In r (tbl_marks db) -> frame <= fst r
  | Mark g d =>
      In (g, d) (tbl_marks db) /\ g < frame
      /\ forall r, In r (tbl_marks db) -> fst r < frame -> fst r <= g
  end.
Proof.
  intros Hc.
  destruct (findPreviousMark_cases frame self db Hc)
    as [[-> H]|(g & d & -> & H)]; exact H.
Qed.

(** X3.  Stepping from a marked frame to the next mark and back, or to the
    previous mark and forth, lands on the frame one started from: the
    two lookups skip no mark. *)
Theorem mark_steps_return (frame : Z) (d0 : string) (self : Metadata)
    (db : Store) :
  connected self = true ->
  In (frame, d0) (tbl_marks db) ->
  (forall g d, findNextMark frame self db = Mark g d ->
     exists d', findPreviousMark g self db = Mark frame d')
  /\ (forall g d, findPreviousMark frame self db = Mark g d ->
        exists d', findNextMark g self db = Mark frame d').
Proof.
  intros Hc Hin. split; intros g d E.
  - destruct (findNextMark_cases frame self db Hc)
      as [[E' _]|(g' & d' & E' & Hg & Hlt & Hmin)];
      rewrite E in E'; [discriminate|].
    injection E' as <- <-.
    destruct (findPreviousMark_cases g self db Hc)
      as [[_ Hnone]|(h & dh & Eh & Hh & Hhlt & Hmax)].
    + specialize (Hnone _ Hin). simpl in Hnone. lia.
    + exists dh. rewrite Eh. f_equal.
      pose proof (Hmax _ Hin Hlt) as H1. simpl in H1.
      destruct (Z.eq_dec h frame) as [->|Hne]; [reflexivity|].
      assert (frame < h) as H2 by lia.
      pose proof (Hmin _ Hh H2) as H3. simpl in H3. lia.
  - destruct (findPreviousMark_cases frame self db Hc)
      as [[E' _]|(g' & d' & E' & Hg & Hlt & Hmax)];
      rewrite E in E'; [discriminate|].
    injection E' as <- <-.
    destruct (findNextMark_cases g self db Hc)
      as [[_ Hnone]|(h & dh & Eh & Hh & Hhlt & Hmin)].
    + specialize (Hnone _ Hin). simpl in Hnone. lia.
    + exists dh. rewrite Eh. f_equal.
      pose proof (Hmin _ Hin Hlt) as H1. simpl in H1.
      destruct (Z.eq_dec h frame) as [->|Hne]; [reflexivity|].
      assert (h < frame) as H2 by lia.
      pose proof (Hmax _ Hh H2) as H3. simpl in H3. lia.
Qed.

End MarkLookups.

(** ** The order of a dictionary built from rows *)

Section DictOrder.

Lemma key_eqb_sym {K} `{Key K} (a b : K) : key_eqb a b = key_eqb b a.
Proof.
  destruct (key_eqb a b) eqn:E1, (key_eqb b a) eqn:E2; try reflexivity.
  - apply key_eqb_eq in E1. subst b. now rewrite key_eqb_refl in E2.
  - apply key_eqb_eq in E2. subst b. now rewrite key_eqb_refl in E1.
Qed.

Lemma filter_twice {A} (f g : A -> bool) (l : list A) :
  filter f (filter g l) = filter (fun x => g x && f x) l.
Proof.
  induction l as [|a l IH]; simpl; [reflexivity|].
  destruct (g a); simpl; [destruct (f a); now rewrite IH | exact IH].
Qed.

Lemma existsb_key_In {K} `{Key K} (k : K) (l : list K) :
  existsb (key_eqb k) l = true <-> In k l.
Proof.
  rewrite existsb_exists. split.
  - intros (x & Hx & E). apply key_eqb_eq in E. now subst x.
  - intros Hin. exists k. split; [exact Hin | apply key_eqb_refl].
Qed.

(** The keys of a dictionary filled from a list of rows: those it had,
    then the new ones in the order of their first row. *)
Lemma keys_fold_set {K V} `{Key K} (l : list (K * V)) (d : dict K V) :
  PyDict.keys (fold_left (fun d kv => PyDict.set (fst kv) (snd kv) d) l d)
  = PyDict.keys d
    ++ filter (fun k => negb (existsb (key_eqb k) (PyDict.keys d)))
         (distinct (map fst l)).
Proof.
  revert d. induction l as [|[k v] l IH]; intros d; simpl.
  - now rewrite app_nil_r.
  - rewrite IH, PyDictFacts.keys_set.
    destruct (PyDict.mem k d) eqn:Em.
    + assert (existsb (key_eqb k) (PyDict.keys d) = true) as ->
        by (apply existsb_key_In; now apply PyDictFacts.mem_In_keys).
      simpl. f_equal. rewrite filter_twice. apply filter_ext_in.
      intros y _. destruct (key_eqb k y) eqn:E; simpl; [|reflexivity].
      apply key_eqb_eq in E. subst y.
      assert (existsb (key_eqb k) (PyDict.keys d) = true) as ->
        by (apply existsb_key_In; now apply PyDictFacts.mem_In_keys).
      reflexivity.
    + assert (existsb (key_eqb k) (PyDict.keys d) = false) as ->.
      { destruct (existsb (key_eqb k) (PyDict.keys d)) eqn:E; [|reflexivity].
        apply existsb_key_In, PyDictFacts.mem_In_keys in E. congruence. }
      simpl. rewrite <- app_assoc. simpl. do 2 f_equal.
      rewrite filter_twice. apply filter_ext_in. intros y _.
      rewrite existsb_app. simpl. rewrite orb_false_r, negb_orb.
      rewrite (key_eqb_sym y k). apply andb_comm.
Qed.

Lemma keys_of_list {K V} `{Key K} (l : list (K * V)) :
  PyDict.keys (PyDict.of_list l) = distinct (map fst l).
Proof.
  unfold PyDict.of_list. rewrite keys_fold_set. simpl.
  induction (distinct (map fst l)) as [|a l' IH]; simpl; [reflexivity|].
  now rewrite IH.
Qed.

Lemma distinct_NoDup {A} `{Key A} (l : list A) : NoDup l -> distinct l = l.
Proof.
  induction l as [|a l IH]; intros Hnd; simpl; [reflexivity|].
  inversion Hnd as [|a' l' Hnin Hnd']; subst. rewrite (IH Hnd'). f_equal.
  clear IH Hnd Hnd'. induction l as [|b l IH]; simpl; [reflexivity|].
  destruct (key_eqb a b) eqn:E; simpl.
  - apply key_eqb_eq in E. subst b. exfalso. apply Hnin. left. reflexivity.
  - f_equal. apply IH. intros Hin. apply Hnin. right. exact Hin.
Qed.

Lemma distinct_twice {A} `{Key A} (l : list A) :
  distinct (distinct l) = distinct l.
Proof. apply distinct_NoDup, NoDup_distinct. Qed.

Lemma get_of_list_In {K V} `{Key K} (l : list (K * V)) (k : K) (v : V) :
  PyDict.get k (PyDict.of_list l) = Some v -> In (k, v) l.
Proof.
  induction l as [|[k0 v0] l IH] using rev_ind; [discriminate|].
  rewrite of_list_snoc, in_app_iff. intros E.
  destruct (key_eqb k0 k) eqn:Ek.
  - apply key_eqb_eq in Ek. subst k0.
    rewrite PyDictFacts.get_set_same in E. injection E as <-.
    right. left. reflexivity.
  - apply key_eqb_neq in Ek.
    rewrite PyDictFacts.get_set_other in E by exact Ek. left. now apply IH.
Qed.

Lemma ascending_cons_iff (x : Z) (l : list Z) :
  ascending (x :: l) <-> (forall y, In y l -> x <= y) /\ ascending l.
Proof.
  revert x. induction l as [|a l IH]; intros x.
  - split; [intros _; split; [intros y []| constructor] | constructor].
  - split.
    + intros Hasc. inversion Hasc as [| |x' y' l' Hxa Ha]; subst.
      split; [|exact Ha]. intros y [<-|Hy]; [exact Hxa|].
      apply IH in Ha. destruct Ha as [Hall _]. specialize (Hall y Hy). lia.
    + intros [Hall Ha]. constructor; [apply Hall; left; reflexivity | exact Ha].
Qed.

Lemma ascending_filter (f : Z -> bool) (l : list Z) :
  ascending l -> ascending (filter f l).
Proof.
  induction l as [|a l IH]; intros Ha; simpl; [constructor|].
  apply ascending_cons_iff in Ha. destruct Ha as [Hall Ha].
  destruct (f a); [|now apply IH].
  apply ascending_cons_iff. split; [|now apply IH].
  intros y Hy. apply filter_In in Hy. now apply Hall.
Qed.

Lemma ascending_distinct (l : list Z) : ascending l -> ascending (distinct l).
Proof.
  induction l as [|a l IH]; intros Ha; simpl; [constructor|].
  apply ascending_cons_iff in Ha. destruct Ha as [Hall Ha].
  apply ascending_cons_iff. split.
  - intros y Hy. apply filter_In in Hy. destruct Hy as [Hy _].
    apply Hall. now apply (proj1 (In_distinct y l)).
  - apply ascending_filter. now apply IH.
Qed.

(** Sorting rows by a key sorts their keys. *)
Lemma map_insert_by {A} (key : A -> Z) (x : A) (l : list A) :
  map key (insert_by (fun a b => key a <=? key b) x l)
  = insert_by Z.leb (key x) (map key l).
Proof.
  induction l as [|a l IH]; simpl; [reflexivity|].
  destruct (key x <=? key a); simpl; [reflexivity | now rewrite IH].
Qed.

Lemma map_sort_by {A} (key : A -> Z) (l : list A) :
  map key (sort_by (fun a b => key a <=? key b) l) = sorted (map key l).
Proof.
  unfold sorted, sort_by. induction l as [|a l IH]; simpl; [reflexivity|].
  now rewrite map_insert_by, IH.
Qed.

End DictOrder.

Section AllMarks.
Context {RT : Runtime}.

Lemma getAllMarks_keys (self : Metadata) (db : Store) :
  connected self = true ->
  exists m,
    getAllMarks self db = Some m
    /\ forall n, In n (PyDict.keys m) <-> exists d, In (n, d) (tbl_marks db).
Proof.
  intros Hc. unfold getAllMarks. rewrite Hc. cbn [negb].
  eexists. split; [reflexivity|].
  intros n. rewrite In_keys_of_list, in_map_iff. unfold marks_asc. split.
  - intros ([n' d] & <- & Hin). exists d. now apply In_sort_by in Hin.
  - intros (d & Hin). exists (n, d). split; [reflexivity|].
    now apply In_sort_by.
Qed.

(** X4.  On an open store [getAllMarks] returns a dictionary whose keys are
    the frames that carry a stored mark, each once and in ascending
    order, and whose value at a frame is the description of a stored
    mark of that frame. *)
Theorem getAllMarks_ordered (self : Metadata) (db : Store) :
  connected self = true ->
  exists m,
    getAllMarks self db = Some m
    /\ (forall n, In n (PyDict.keys m) <-> exists d, In (n, d) (tbl_marks db))
    /\ (forall n d, PyDict.get n m = Some d -> In (n, d) (tbl_marks db))
    /\ ascending (PyDict.keys m)
    /\ NoDup (PyDict.keys m).
Proof.
  intros Hc. unfold getAllMarks. rewrite Hc. cbn [negb].
  eexists. split; [reflexivity|]. split; [|split; [|split]].
  - intros n. rewrite In_keys_of_list, in_map_iff. unfold marks_asc. split.
    + intros ([n' d] & <- & Hin). exists d. now apply In_sort_by in Hin.
    + intros (d & Hin). exists (n, d). split; [reflexivity|].
      now apply In_sort_by.
  - intros n d E. apply get_of_list_In in E. unfold marks_asc in E.
    now apply In_sort_by in E.
  - rewrite keys_of_list. apply ascending_distinct. unfold marks_asc.
    rewrite (map_sort_by fst). apply ascending_sorted.
  - apply NoDup_keys_of_list.
Qed.

(** What the store holds after [createMark] with a description that
    stands between apostrophes as it is. *)
Lemma createMark_store (f : Z) (d : string) (self : Metadata) (db : Store) :
  connected self = true ->
  plain d = true ->
  tbl_marks (snd (createMark f d (self, db)))
  = (if PyDict.mem f (marks self)
     then filter (fun r => negb (fst r =? f)) (tbl_marks db)
     else tbl_marks db) ++ [(f, d)].
Proof.
  intros Hc Hp. unfold createMark. cbn [fst]. rewrite Hc. cbn [negb].
  destruct (PyDict.mem f (marks self)) eqn:Hm.
  - rewrite (removeMark_present f self db Hc Hm). simpl.
    now rewrite (inserted_marks_plain f d Hp).
  - rewrite (removeMark_absent f self db Hm). simpl.
    now rewrite (inserted_marks_plain f d Hp).
Qed.

(** X5.  A mark that has just been created is found: from the frame before
    it [findNextMark] answers with its frame, from the frame after it
    [findPreviousMark] does, and [getAllMarks] has it as a key.  The
    description found is the one given whenever the snapshot knew of the
    marks the store held for the frame (the frame was a key of
    [self.marks], or the store had no mark for it); otherwise it is that
    of some stored mark of the frame. *)
Theorem createMark_then_found (f : Z) (d : string) (self : Metadata)
    (db : Store) :
  connected self = true ->
  plain d = true ->
  let w := createMark f d (self, db) in
  (exists d', findNextMark (f - 1) (fst w) (snd w) = Mark f d'
              /\ In d' (store_marks_at f (snd w)))
  /\ (exists d', findPreviousMark (f + 1) (fst w) (snd w) = Mark f d'
                 /\ In d' (store_marks_at f (snd w)))
  /\ (exists m, getAllMarks (fst w) (snd w) = Some m
                /\ In f (PyDict.keys m))
  /\ (PyDict.mem f (marks self) = true \/ store_marks_at f db = [] ->
      store_marks_at f (snd w) = [d]).
Proof.
  intros Hc Hp w.
  assert (connected (fst w) = true) as Hcw
    by (subst w; now rewrite createMark_connected).
  assert (In (f, d) (tbl_marks (snd w))) as Hin.
  { subst w. rewrite (createMark_store f d self db Hc Hp), in_app_iff.
    right. left. reflexivity. }
  assert (forall g d', In (g, d') (tbl_marks (snd w)) -> g = f ->
            In d' (store_marks_at f (snd w))) as Hat.
  { intros g d' Hg ->. unfold store_marks_at. apply in_map_iff.
    exists (f, d'). split; [reflexivity|]. apply filter_In.
    split; [exact Hg | apply Z.eqb_refl]. }
  split; [|split; [|split]].
  - destruct (findNextMark_cases (f - 1) (fst w) (snd w) Hcw)
      as [[_ Hnone]|(g & d' & E & Hg & Hlt & Hmin)].
    + specialize (Hnone _ Hin). simpl in Hnone. lia.
    + assert (g = f) as Eg.
      { pose proof (Hmin _ Hin) as H. simpl in H. lia. }
      exists d'. rewrite E, Eg. split; [reflexivity | now apply (Hat g)].
  - destruct (findPreviousMark_cases (f + 1) (fst w) (snd w) Hcw)
      as [[_ Hnone]|(g & d' & E & Hg & Hlt & Hmax)].
    + specialize (Hnone _ Hin). simpl in Hnone. lia.
    + assert (g = f) as Eg.
      { pose proof (Hmax _ Hin) as H. simpl in H. lia. }
      exists d'. rewrite E, Eg. split; [reflexivity | now apply (Hat g)].
  - destruct (getAllMarks_keys (fst w) (snd w) Hcw) as (m & E & Hk).
    exists m. split; [exact E|]. apply Hk. now exists d.
  - intros Hknown. subst w. unfold store_marks_at.
    rewrite (createMark_store f d self db Hc Hp), filter_app, map_app.
    simpl. rewrite Z.eqb_refl. simpl.
    destruct (PyDict.mem f (marks self)) eqn:Hm.
    + rewrite filter_twice.
      rewrite (filter_none (fun x : Z * string => negb (fst x =? f) && (fst x =? f))
                 (tbl_marks db)); [reflexivity|].
      clear. induction (tbl_marks db) as [|a l IH]; simpl; [reflexivity|].
      rewrite IH. now destruct (fst a =? f).
    + destruct Hknown as [Hk|Hk]; [discriminate|].
      unfold store_marks_at in Hk. now rewrite Hk.
Qed.

End AllMarks.

(** ** Discarding frames and deleting their files *)

Section Trimming.
Context {RT : Runtime}.

Lemma In_select_images db c rd st et r :
  In r (select_images db c rd st et)
  <-> In r (tbl_images db) /\ image_filter c rd st et r = true.
Proof. unfold select_images. rewrite In_sort_by, filter_In. tauto. Qed.

(** A frame number is loaded for a camera when one of the camera's rows
    carries it and passes the filter. *)
Lemma In_frames db rd st et c n :
  In n (frames db rd st et c)
  <-> exists r, In r (tbl_images db) /\ image_filter c rd st et r = true
                /\ img_number r = n.
Proof.
  unfold frames. rewrite in_map_iff. split.
  - intros (r & <- & Hr). apply In_select_images in Hr. exists r. tauto.
  - intros (r & Hr & Hf & <-). exists r. split; [reflexivity|].
    now apply In_select_images.
Qed.

Lemma set_discarded_row_number a b v r :
  img_number (set_discarded_row a b v r) = img_number r.
Proof.
  unfold set_discarded_row.
  now destruct ((a <=? img_number r) && (img_number r <=? b)).
Qed.

Lemma in_range_iff a b n :
  (a <=? n) && (n <=? b) = true <-> a <= n <= b.
Proof. rewrite andb_true_iff, !Z.leb_le. tauto. Qed.

(** How the filter reads a row after the update. *)
Lemma image_filter_set_discarded a b v c rd st et r :
  image_filter c rd st et (set_discarded_row a b v r)
  = if (a <=? img_number r) && (img_number r <=? b)
    then String.eqb (img_camera r) c && is_still r
         && (rd || match v with None => true | Some d => d =? 0 end)
         && timeClause st et (img_time r)
    else image_filter c rd st et r.
Proof.
  unfold set_discarded_row.
  destruct ((a <=? img_number r) && (img_number r <=? b)); reflexivity.
Qed.

Lemma exec_set_discarded_images a b v db :
  has_column "images" "discarded" (schema db) = true ->
  tbl_images (exec_set_discarded a b v db)
  = map (set_discarded_row a b v) (tbl_images db).
Proof. intros H. unfold exec_set_discarded. now rewrite H. Qed.

Lemma exec_set_discarded_schema a b v db :
  schema (exec_set_discarded a b v db) = schema db.
Proof.
  unfold exec_set_discarded.
  now destruct (has_column "images" "discarded" (schema db)).
Qed.

(** The frames loaded after an update of the range [[a, b]]. *)
Lemma In_frames_set_discarded a b v db rd st et c n :
  has_column "images" "discarded" (schema db) = true ->
  In n (frames (exec_set_discarded a b v db) rd st et c)
  <-> exists r, In r (tbl_images db) /\ img_number r = n
                /\ image_filter c rd st et (set_discarded_row a b v r) = true.
Proof.
  intros Hcol. rewrite In_frames, (exec_set_discarded_images a b v db Hcol).
  split.
  - intros (r' & Hr' & Hf & Hn). apply in_map_iff in Hr'.
    destruct Hr' as (r & <- & Hr). exists r.
    rewrite set_discarded_row_number in Hn. tauto.
  - intros (r & Hr & Hn & Hf). exists (set_discarded_row a b v r).
    rewrite set_discarded_row_number. split; [|tauto].
    apply in_map_iff. now exists r.
Qed.

Lemma exec_set_discarded_frames (a b : Z) (db : Store) :
  has_column "images" "discarded" (schema db) = true ->
  (forall c st et n,
     In n (frames (exec_set_discarded a b (Some 1) db) false st et c)
     <-> In n (frames db false st et c) /\ ~ a <= n <= b)
  /\ (forall c st et n,
        In n (frames (exec_set_discarded a b (Some 1) db) true st et c)
        <-> In n (frames db true st et c)).
Proof.
  intros Hcol. split.
  - intros c st et n.
    rewrite (In_frames_set_discarded a b (Some 1) db false st et c n Hcol).
    rewrite In_frames. split.
    + intros (r & Hr & Hn & Hf). rewrite image_filter_set_discarded in Hf.
      destruct ((a <=? img_number r) && (img_number r <=? b)) eqn:Er.
      * simpl in Hf. rewrite andb_false_r in Hf. discriminate.
      * split; [now exists r|]. rewrite <- Hn.
        intros Hin. apply in_range_iff in Hin. congruence.
    + intros [(r & Hr & Hf & Hn) Hout]. exists r.
      split; [exact Hr|]. split; [exact Hn|].
      rewrite image_filter_set_discarded.
      destruct ((a <=? img_number r) && (img_number r <=? b)) eqn:Er;
        [|exact Hf].
      apply in_range_iff in Er. rewrite Hn in Er. contradiction.
  - intros c st et n.
    rewrite (In_frames_set_discarded a b (Some 1) db true st et c n Hcol).
    rewrite In_frames. split.
    + intros (r & Hr & Hn & Hf). exists r. split; [exact Hr|].
      split; [|exact Hn]. rewrite image_filter_set_discarded in Hf.
      destruct ((a <=? img_number r) && (img_number r <=? b)); exact Hf.
    + intros (r & Hr & Hf & Hn). exists r. split; [exact Hr|].
      split; [exact Hn|]. rewrite image_filter_set_discarded.
      destruct ((a <=? img_number r) && (img_number r <=? b)); exact Hf.
Qed.

(** X6.  [setDiscarded(a, b)] on an open store whose [images] table has the
    column: the object is left as it is (the snapshot still lists the
    frames until the next [query]); a [query] that leaves discarded
    frames out no longer loads any frame numbered within [[a, b]], for
    any camera and any window, and loads the frames outside the range as
    before; a [query] that returns discarded frames loads what it loaded
    before.  With [b < a] no row is in the range and the store does not
    change. *)
Theorem setDiscarded_hides_frames (a b : Z) (self : Metadata) (db : Store) :
  connected self = true ->
  has_column "images" "discarded" (schema db) = true ->
  let w := setDiscarded a b false (self, db) in
  fst w = self
  /\ (forall c st et n,
        In n (frames (snd w) false st et c)
        <-> In n (frames db false st et c) /\ ~ a <= n <= b)
  /\ (forall c st et n,
        In n (frames (snd w) true st et c) <-> In n (frames db true st et c))
  /\ (b < a -> tbl_images (snd w) = tbl_images db).
Proof.
  intros Hc Hcol w. subst w. unfold setDiscarded. rewrite Hc. cbn [negb fst snd].
  destruct (exec_set_discarded_frames a b db Hcol) as [Hf Ht].
  split; [reflexivity|]. split; [exact Hf|]. split; [exact Ht|].
  intros Hlt. rewrite (exec_set_discarded_images a b (Some 1) db Hcol).
  induction (tbl_images db) as [|r l IH]; simpl; [reflexivity|].
  rewrite IH. f_equal. unfold set_discarded_row.
  destruct ((a <=? img_number r) && (img_number r <=? b)) eqn:Er;
    [|reflexivity].
  apply in_range_iff in Er. lia.
Qed.

(** X7.  [setDiscarded(a, b, unset=True)]: afterwards a [query] that leaves
    discarded frames out loads, within [[a, b]], every frame a [query]
    returning discarded frames would have loaded, and outside the range
    what it loaded before.  Called after [setDiscarded(a, b)] it brings
    back every frame that call had hidden; it also brings back the frames
    of the range that were discarded before either call. *)
Theorem setDiscarded_unset_restores (a b : Z) (self : Metadata) (db : Store) :
  connected self = true ->
  has_column "images" "discarded" (schema db) = true ->
  (forall c st et n,
     In n (frames (snd (setDiscarded a b true (self, db))) false st et c)
     <-> (a <= n <= b /\ In n (frames db true st et c))
         \/ (~ a <= n <= b /\ In n (frames db false st et c)))
  /\ (forall c st et n,
        In n (frames (snd (setDiscarded a b true
                             (setDiscarded a b false (self, db))))
                false st et c)
        <-> In n (frames db false st et c)
            \/ (a <= n <= b /\ In n (frames db true st et c))).
Proof.
  intros Hc Hcol.
  assert (forall db0 c st et n,
            has_column "images" "discarded" (schema db0) = true ->
            In n (frames (snd (setDiscarded a b true (self, db0))) false st et c)
            <-> (a <= n <= b /\ In n (frames db0 true st et c))
                \/ (~ a <= n <= b /\ In n (frames db0 false st et c))) as Hun.
  { intros db0 c st et n Hcol0. unfold setDiscarded. rewrite Hc.
    cbn [negb fst snd].
    rewrite (In_frames_set_discarded a b None db0 false st et c n Hcol0).
    rewrite !In_frames. split.
    - intros (r & Hr & Hn & Hf). rewrite image_filter_set_discarded in Hf.
      destruct ((a <=? img_number r) && (img_number r <=? b)) eqn:Er.
      + left. apply in_range_iff in Er. rewrite Hn in Er. split; [exact Er|].
        exists r. split; [exact Hr|]. split; [|exact Hn].
        unfold image_filter. cbn [orb] in *. exact Hf.
      + right. split.
        * rewrite <- Hn. intros Hin. apply in_range_iff in Hin. congruence.
        * exists r. tauto.
    - intros [[Hin (r & Hr & Hf & Hn)]|[Hout (r & Hr & Hf & Hn)]];
        exists r; (split; [exact Hr|]); (split; [exact Hn|]);
        rewrite image_filter_set_discarded.
      + rewrite <- Hn in Hin. apply in_range_iff in Hin. rewrite Hin.
        unfold image_filter in Hf. cbn [orb] in *. exact Hf.
      + destruct ((a <=? img_number r) && (img_number r <=? b)) eqn:Er;
          [|exact Hf].
        apply in_range_iff in Er. rewrite Hn in Er. contradiction. }
  split; [intros c st et n; now apply Hun|].
  intros c st et n.
  destruct (exec_set_discarded_frames a b db Hcol) as [Hf Ht].
  unfold setDiscarded at 2. rewrite Hc. cbn [negb].
  rewrite Hun by (rewrite exec_set_discarded_schema; exact Hcol).
  rewrite Hf, Ht. split.
  - intros [[Hin H]|[Hout [H _]]]; [right; tauto | left; exact H].
  - intros [H|[Hin H]].
    + destruct (Z_le_dec a n) as [H1|H1]; [destruct (Z_le_dec n b) as [H2|H2]|].
      * left. split; [lia|]. apply In_frames in H. apply In_frames.
        destruct H as (r & Hr & Hfl & Hn). exists r. split; [exact Hr|].
        split; [|exact Hn]. unfold image_filter in *.
        apply andb_true_iff in Hfl. destruct Hfl as [Hfl Htc].
        apply andb_true_iff in Hfl. destruct Hfl as [Hfl _].
        now rewrite Hfl, Htc.
      * right. split; [lia|]. split; [exact H | lia].
      * right. split; [lia|]. split; [exact H | lia].
    + left. tauto.
Qed.

Lemma In_discarded_rows db r :
  In r (discarded_rows db) <-> In r (tbl_images db) /\ is_discarded r = true.
Proof. unfold discarded_rows. rewrite In_sort_by, filter_In. tauto. Qed.

(** The file system after the removals for the rows [rows]. *)
Lemma remove_files_spec (path : ImageRow -> string) (rows : list ImageRow)
    (fs : FileSystem) :
  let fs' := fold_left (fun fs' r => remove_file (path r) fs') rows fs in
  normpath fs' = normpath fs /\ sep fs' = sep fs
  /\ forall q, isfile fs' q = true
               <-> isfile fs q = true /\ forall r, In r rows -> q <> path r.
Proof.
  revert fs. induction rows as [|r rows IH]; intros fs; simpl.
  - repeat split; auto. tauto.
  - destruct (IH (remove_file (path r) fs)) as (Hn & Hs & Hq).
    split; [exact Hn|]. split; [exact Hs|]. intros q. rewrite Hq. simpl.
    rewrite andb_true_iff, negb_true_iff, String.eqb_neq. split.
    + intros [[Hf Hne] Hall]. split; [exact Hf|].
      intros r' [<-|Hr']; [exact Hne | now apply Hall].
    + intros [Hf Hall]. split; [split; [exact Hf|]|].
      * apply Hall. left. reflexivity.
      * intros r' Hr'. apply Hall. right. exact Hr'.
Qed.

Lemma deleteDiscardedImages_some self db fs ext :
  connected self = true ->
  imageExtension self = Some ext ->
  exists fs',
    deleteDiscardedImages self db fs = Some fs'
    /\ normpath fs' = normpath fs /\ sep fs' = sep fs
    /\ forall q,
         isfile fs' q = true
         <-> isfile fs q = true
             /\ forall r, In r (tbl_images db) -> is_discarded r = true ->
                  q <> image_path fs (deploymentPath self) ext r.
Proof.
  intros Hc He. unfold deleteDiscardedImages. rewrite Hc, He. cbn [negb].
  destruct (discarded_rows db) as [|r0 rows] eqn:E.
  - exists fs. split; [reflexivity|]. split; [reflexivity|].
    split; [reflexivity|]. intros q. split; [|tauto].
    intros Hf. split; [exact Hf|]. intros r Hr Hd.
    assert (In r (discarded_rows db)) as Hin by now apply In_discarded_rows.
    rewrite E in Hin. destruct Hin.
  - rewrite <- E.
    pose proof (remove_files_spec (image_path fs (deploymentPath self) ext)
                  (discarded_rows db) fs) as H.
    cbv zeta in H. destruct H as (Hn & Hs & Hq).
    eexists. split; [reflexivity|]. split; [exact Hn|]. split; [exact Hs|].
    intros q. rewrite Hq.
    split; intros [Hf Hall]; (split; [exact Hf|]).
    + intros r Hr Hd. apply Hall. now apply In_discarded_rows.
    + intros r Hr. apply In_discarded_rows in Hr. now apply Hall.
Qed.

(** X8.  [deleteDiscardedImages] on an open store.  With an image extension
    known, it leaves a file system in which a path is a file exactly when
    it was one before and is not the path built for a row of [images]
    with [discarded=1]; rows of every camera count, whatever their time
    and whether still images or not.  With the extension [None] (the
    state [open] leaves when it finds no image file of a known type) it
    raises as soon as there is a discarded row, before any removal, and
    does nothing when there is none. *)
Theorem deleteDiscardedImages_effect (self : Metadata) (db : Store)
    (fs : FileSystem) :
  connected self = true ->
  match imageExtension self with
  | Some ext =>
      exists fs',
        deleteDiscardedImages self db fs = Some fs'
        /\ normpath fs' = normpath fs /\ sep fs' = sep fs
        /\ forall q,
             isfile fs' q = true
             <-> isfile fs q = true
                 /\ forall r, In r (tbl_images db) ->
                      is_discarded r = true ->
                      q <> image_path fs (deploymentPath self) ext r
  | None =>
      ((exists r, In r (tbl_images db) /\ is_discarded r = true) ->
       deleteDiscardedImages self db fs = None)
      /\ ((forall r, In r (tbl_images db) -> is_discarded r = false) ->
          deleteDiscardedImages self db fs = Some fs)
  end.
Proof.
  intros Hc. destruct (imageExtension self) as [ext|] eqn:He.
  - now apply deleteDiscardedImages_some.
  - unfold deleteDiscardedImages. rewrite Hc, He. cbn [negb]. split.
    + intros (r & Hr & Hd).
      assert (In r (discarded_rows db)) as Hin by now apply In_discarded_rows.
      destruct (discarded_rows db); [destruct Hin | reflexivity].
    + intros Hnone. destruct (discarded_rows db) as [|r rows] eqn:E;
        [reflexivity|].
      assert (In r (discarded_rows db)) as Hin by (rewrite E; now left).
      apply In_discarded_rows in Hin. destruct Hin as [Hr Hd].
      rewrite (Hnone r Hr) in Hd. discriminate.
Qed.

(** X9.  Trimming a deployment: [setDiscarded(a, b)] followed by
    [deleteDiscardedImages].  Afterwards the path built for any row of
    [images] numbered within [[a, b]] is no longer a file; no path has
    become a file; and a file stays when its path is not the one built
    for a row that is in the range or was discarded before. *)
Theorem discard_then_delete (a b : Z) (self : Metadata) (db : Store)
    (fs : FileSystem) (ext : string) :
  connected self = true ->
  has_column "images" "discarded" (schema db) = true ->
  imageExtension self = Some ext ->
  let w := setDiscarded a b false (self, db) in
  let path := image_path fs (deploymentPath self) ext in
  exists fs',
    deleteDiscardedImages (fst w) (snd w) fs = Some fs'
    /\ (forall r, In r (tbl_images db) -> a <= img_number r <= b ->
          isfile fs' (path r) = false)
    /\ (forall q, isfile fs' q = true -> isfile fs q = true)
    /\ (forall q, isfile fs q = true ->
          (forall r, In r (tbl_images db) ->
             is_discarded r = true \/ a <= img_number r <= b ->
             q <> path r) ->
          isfile fs' q = true).
Proof.
  intros Hc Hcol He w path. subst w path.
  unfold setDiscarded. rewrite Hc. cbn [negb fst snd].
  destruct (deleteDiscardedImages_some self
              (exec_set_discarded a b (Some 1) db) fs Hc He)
    as (fs' & E & _ & _ & Hq).
  rewrite (exec_set_discarded_images a b (Some 1) db Hcol) in Hq.
  exists fs'. split; [exact E|]. split; [|split].
  - intros r Hr Hin. destruct (isfile fs' _) eqn:Ef; [|reflexivity].
    apply Hq in Ef. destruct Ef as [_ Hall]. exfalso.
    apply (Hall (set_discarded_row a b (Some 1) r)).
    + apply in_map_iff. now exists r.
    + unfold set_discarded_row. apply in_range_iff in Hin. now rewrite Hin.
    + unfold set_discarded_row, image_path.
      now destruct ((a <=? img_number r) && (img_number r <=? b)).
  - intros q Hf. now apply Hq in Hf.
  - intros q Hf Hall. apply Hq. split; [exact Hf|].
    intros r' Hr' Hd. apply in_map_iff in Hr'. destruct Hr' as (r & <- & Hr).
    assert (image_path fs (deploymentPath self) ext
              (set_discarded_row a b (Some 1) r)
            = image_path fs (deploymentPath self) ext r) as ->.
    { unfold set_discarded_row, image_path.
      now destruct ((a <=? img_number r) && (img_number r <=? b)). }
    apply (Hall r Hr). unfold set_discarded_row in Hd.
    destruct ((a <=? img_number r) && (img_number r <=? b)) eqn:Er.
    + right. now apply in_range_iff.
    + left. exact Hd.
Qed.

End Trimming.

(** ** [close] *)

Section CloseFacts.
Context {RT : Runtime}.

Lemma close_connected (s : Metadata) : connected (close s) = false.
Proof.
  unfold close. destruct (connected s) eqn:Hc; [reflexivity | exact Hc].
Qed.

(** X10.  After [close] the object has no connection, whatever it was before,
    and every method that asks for one returns at once: [query] loads
    nothing, the mark and discard methods leave object and store alone,
    the lookups return Python's [None], a second [close] changes nothing,
    and the resolvers, finding nothing loaded, answer with their empty
    results.  A [close] on an open object puts it back in the state
    [__init__] gives, except for [nCameras], which keeps its value; a
    [close] without a connection leaves everything as it is. *)
Theorem close_disconnects (s : Metadata) (db : Store) :
  let s' := close s in
  connected s' = false
  /\ (forall st et rd, query db st et rd s' = (Ok tt, s'))
  /\ (forall f d, createMark f d (s', db) = (s', db))
  /\ (forall f, removeMark f (s', db) = (s', db))
  /\ (forall a b u, setDiscarded a b u (s', db) = (s', db))
  /\ (forall fs, deleteDiscardedImages s' db fs = Some fs)
  /\ getAllMarks s' db = None
  /\ (forall f, findNextMark f s' db = NotConnected
                /\ findPreviousMark f s' db = NotConnected)
  /\ close s' = s'
  /\ (connected s = true ->
      s' = with_nCameras (nCameras s) init
      /\ (forall i h n p, getDepths db i h n p s' = (Ok depths_start, s'))
      /\ (forall i, getLocations db i s'
                    = (Ok (deploymentBounds (fst locations_start), []), s')))
  /\ (connected s = false -> s' = s).
Proof.
  intros s'. pose proof (close_connected s) as Hc. fold s' in Hc.
  assert (forall st et rd, query db st et rd s' = (Ok tt, s')) as Hq
    by (intros st et rd; unfold query; now apply query_not_connected_n).
  split; [exact Hc|]. split; [exact Hq|].
  split; [intros f d; unfold createMark; cbn [fst]; now rewrite Hc|].
  split; [intros f; unfold removeMark; now rewrite Hc|].
  split; [intros a b u; unfold setDiscarded; now rewrite Hc|].
  split; [intros fs; unfold deleteDiscardedImages; now rewrite Hc|].
  split; [unfold getAllMarks; now rewrite Hc|].
  split; [intros f; unfold findNextMark, findPreviousMark; now rewrite Hc|].
  split; [unfold close at 1; now rewrite Hc|].
  split.
  - intros Hs.
    assert (s' = with_nCameras (nCameras s) init) as E
      by (subst s'; unfold close; rewrite Hs; reflexivity).
    split; [exact E|]. split.
    + intros i h n p. unfold getDepths, ensure_queried, bind, gets.
      assert (imageData s' = []) as -> by (rewrite E; reflexivity).
      rewrite Hq. unfold ret, depths_of.
      assert (sensorData s' = []) as -> by (rewrite E; reflexivity).
      reflexivity.
    + intros i. unfold getLocations, ensure_queried, bind, gets.
      assert (imageData s' = []) as -> by (rewrite E; reflexivity).
      rewrite Hq.
      assert (sensorData s' = []) as -> by (rewrite E; reflexivity).
      unfold locations_of, match_sensor_id. simpl.
      destruct locations_start as [b0 l0] eqn:El. unfold ret.
      unfold locations_start in El. injection El as <- <-. reflexivity.
  - intros Hs. subst s'. unfold close. now rewrite Hs.
Qed.

End CloseFacts.

(** ** More about [query] *)

Section QueryMore.
Context {RT : Runtime}.

Lemma wp_conj {A} (m : M A) s (Q1 Q2 : A -> Metadata -> Prop) :
  wp m s Q1 -> wp m s Q2 -> wp m s (fun a s' => Q1 a s' /\ Q2 a s').
Proof. unfold wp. destruct (m s) as [[a| e |] s']; auto. Qed.

(** A fact the loading establishes and the time span does not disturb
    holds when [query] returns. *)
Lemma query_n_establishes (P : Metadata -> Prop) n db st et rd s :
  connected s = true ->
  wp (load_snapshot db st et rd) s (fun _ s' => P s') ->
  (forall s1 a b, P s1 -> P (with_timespan a b s1)) ->
  wp (query_n (S n) db st et rd) s (fun _ s' => P s').
Proof.
  intros Hc Hload Hspan. simpl. apply wp_bind, wp_gets. rewrite Hc. simpl.
  apply wp_bind. eapply wp_mono.
  - apply wp_conj; [apply load_snapshot_spec | exact Hload].
  - intros u s1 [[_ Hsnap] HP]. simpl.
    destruct Hsnap as (_ & _ & _ & (c & d & _ & Hd & _) & _).
    apply wp_bind. eapply wp_mono.
    + apply getTimespan_with_spec. intros E. rewrite E in Hd. discriminate.
    + intros span s2 [-> _]. simpl. apply wp_modify. now apply Hspan.
Qed.

Lemma query_establishes (P : Metadata -> Prop) db st et rd s s' :
  connected s = true ->
  wp (load_snapshot db st et rd) s (fun _ s1 => P s1) ->
  (forall s1 a b, P s1 -> P (with_timespan a b s1)) ->
  query db st et rd s = (Ok tt, s') ->
  P s'.
Proof.
  intros Hc Hload Hspan E.
  pose proof (query_n_establishes P 1 db st et rd s Hc Hload Hspan) as W.
  unfold query in E. unfold wp in W. now rewrite E in W.
Qed.

(** The paths, the extension and the connection name are not touched by
    the loading. *)
Lemma load_snapshot_keeps_identity db st et rd :
  preserves opened_as (load_snapshot db st et rd).
Proof.
  unfold load_snapshot, load_dropped_count, load_cameras, load_camera_row,
    set_camera, load_deployment_data, load_dropped, load_dropped_row,
    load_images, load_camera_images, load_image_row, build_index,
    load_sensor_data, init_sensor_id, init_sensor_header, fill_sensor_row,
    load_async_data, init_async_id, init_async_header, fill_async_row,
    load_marks.
  preserve; apply times_of_keeps.
Qed.

(** X11.  After a call of [query] on an open store that returns, the
    dictionary of a known camera in [imageData] has for keys exactly the
    frame numbers of the rows of [images] that belong to the camera, are
    still images, lie in the time window and, unless discarded frames
    were asked for, are not discarded ([discarded] NULL or 0).  A
    discarded frame is never loaded by a call with [returnDiscards]
    false. *)
Theorem query_loads_filtered_frames db st et rd s s' :
  connected s = true ->
  query db st et rd s = (Ok tt, s') ->
  forall c, In c (known_cameras db) ->
    exists d,
      PyDict.get c (imageData s') = Some d
      /\ forall n,
           In n (PyDict.keys d)
           <-> exists r,
                 In r (tbl_images db) /\ img_number r = n
                 /\ img_camera r = c /\ is_still r = true
                 /\ (rd = true \/ discardClause r = true)
                 /\ timeClause st et (img_time r) = true.
Proof.
  intros Hc E c Hin.
  destruct (query_run db st et rd s Hc E) as (_ & Hsnap & _).
  destruct Hsnap as (_ & _ & (_ & _ & Hi) & _).
  destruct (Hi c Hin) as (d & Hd & Hk). exists d. split; [exact Hd|].
  intros n. rewrite Hk, In_frames. unfold image_filter.
  split; intros (r & H); exists r.
  - destruct H as (Hr & Hf & Hn).
    rewrite !andb_true_iff, orb_true_iff, String.eqb_eq in Hf. tauto.
  - rewrite !andb_true_iff, orb_true_iff, String.eqb_eq. tauto.
Qed.

Lemma load_cameras_count db s :
  wp (load_cameras db) s
    (fun _ s' =>
       nCameras s'
       = match tbl_cameras db with
         | [] => 1
         | rows => Z.of_nat (List.length rows)
         end).
Proof.
  unfold load_cameras. apply wp_bind, wp_modify. apply wp_bind.
  eapply wp_mono.
  - apply (wp_for_each load_camera_row
             (fun done s1 => nCameras s1 = Z.of_nat (List.length done))).
    + reflexivity.
    + intros d x s1 H. unfold load_camera_row, set_camera.
      apply wp_bind, wp_modify, wp_modify. simpl.
      rewrite H, length_app. simpl. lia.
  - intros u s1 H. simpl in H. apply wp_bind, wp_gets. rewrite H.
    destruct (tbl_cameras db) as [|r rows].
    + simpl. apply wp_bind, wp_modify. apply wp_bind. eapply wp_mono.
      * apply (wp_for_each
                 (fun c => set_camera c (mkCameraInfo "" "" "" 0))
                 (fun _ s2 => nCameras s2 = 0)).
        -- reflexivity.
        -- intros d x s2 H2. unfold set_camera. apply wp_modify. exact H2.
      * intros u' s2 H2. simpl in H2. apply wp_modify. simpl. lia.
    + assert ((Z.of_nat (List.length (r :: rows)) =? 0) = false) as ->
        by (apply Z.eqb_neq; simpl; lia).
      apply wp_ret. exact H.
Qed.

Lemma load_snapshot_count db st et rd s :
  wp (load_snapshot db st et rd) s
    (fun _ s' =>
       nCameras s'
       = match tbl_cameras db with
         | [] => 1
         | rows => Z.of_nat (List.length rows)
         end).
Proof.
  unfold load_snapshot. apply wp_bind, wp_modify.
  apply wp_step_keep with (proj := fun _ : Metadata => tt).
  { unfold load_dropped_count. preserve. }
  intros u1 s1 _. apply wp_bind. eapply wp_mono; [apply load_cameras_count|].
  intros u2 s2 H2. cbv beta in H2. rewrite <- H2.
  apply wp_of_preserves with (proj := nCameras).
  unfold load_deployment_data, load_dropped, load_dropped_row,
    load_images, load_camera_images, load_image_row, build_index,
    load_sensor_data, init_sensor_id, init_sensor_header, fill_sensor_row,
    load_async_data, init_async_id, init_async_header, fill_async_row,
    load_marks.
  preserve; apply times_of_keeps.
Qed.

(** X12.  The cameras a call of [query] that returns leaves in the object.
    When the [cameras] table has rows, the keys of [cameras] are the
    camera names of the rows, each entry is made from a row of that name,
    and [nCameras] counts the rows.  When the table is empty the keys are
    the camera names found in [images], every entry is blank, and
    [nCameras] is 1 however many names were found: the counter is
    incremented once, after the loop. *)
Theorem query_camera_registry db st et rd s s' :
  connected s = true ->
  query db st et rd s = (Ok tt, s') ->
  (tbl_cameras db <> [] ->
   PyDict.keys (cameras s') = distinct (map cam_camera (tbl_cameras db))
   /\ nCameras s' = Z.of_nat (List.length (tbl_cameras db))
   /\ forall c info,
        PyDict.get c (cameras s') = Some info ->
        exists row,
          In row (tbl_cameras db) /\ cam_camera row = c
          /\ info = mkCameraInfo (cam_mac_address row) (cam_model row)
                      (cam_label row) (orientation_of (cam_col4 row)))
  /\ (tbl_cameras db = [] ->
      PyDict.keys (cameras s') = distinct (map img_camera (tbl_images db))
      /\ nCameras s' = 1
      /\ forall c info,
           PyDict.get c (cameras s') = Some info ->
           info = mkCameraInfo "" "" "" 0).
Proof.
  intros Hc E.
  destruct (query_run db st et rd s Hc E) as (_ & Hsnap & _).
  destruct Hsnap as (_ & Hk & _).
  assert (nCameras s'
          = match tbl_cameras db with
            | [] => 1
            | rows => Z.of_nat (List.length rows)
            end) as Hn.
  { apply (query_establishes
             (fun s1 => nCameras s1
                        = match tbl_cameras db with
                          | [] => 1
                          | rows => Z.of_nat (List.length rows)
                          end) db st et rd s Hc);
      [apply load_snapshot_count | auto | exact E]. }
  rewrite Hk. unfold camera_registry. split.
  - intros Hne. destruct (tbl_cameras db) as [|r rows] eqn:Er; [congruence|].
    split; [|split; [exact Hn|]].
    + rewrite keys_of_list, map_map. reflexivity.
    + intros c info Hg. apply get_of_list_In in Hg.
      apply in_map_iff in Hg. destruct Hg as (row & Hrow & Hin).
      exists row. unfold camera_info in Hrow. injection Hrow as <- <-.
      auto.
  - intros Hnil. rewrite Hnil in Hn |- *. split; [|split; [exact Hn|]].
    + rewrite keys_of_list, map_map. simpl. rewrite map_id.
      apply distinct_twice.
    + intros c info Hg. apply get_of_list_In in Hg.
      apply in_map_iff in Hg. destruct Hg as (c' & Hc' & _). congruence.
Qed.

(** The loading starts by clearing the object, so that what it does
    depends on the object only through the fields [query] leaves alone. *)
Lemma load_snapshot_from_cleared db st et rd s :
  load_snapshot db st et rd s
  = load_snapshot db st et rd (with_nCameras 0 (clear s)).
Proof.
  unfold load_snapshot, load_dropped_count, load_cameras.
  destruct (distinct (map drp_number (tbl_dropped db))); reflexivity.
Qed.

Lemma cleared_of_opened_as s1 s2 :
  opened_as s1 = opened_as s2 ->
  with_nCameras 0 (clear s1) = with_nCameras 0 (clear s2).
Proof.
  unfold opened_as. intros [= E1 E2 E3 E4].
  unfold with_nCameras, clear. simpl. now rewrite E1, E2, E3, E4.
Qed.

Lemma query_n_connected n db st et rd s :
  connected s = true ->
  query_n (S n) db st et rd s
  = bind (load_snapshot db st et rd)
      (fun _ =>
         bind (getTimespan_with (query_n n db None None false))
           (fun span => modify (with_timespan (fst span) (snd span)))) s.
Proof. intros Hc. cbn [query_n]. unfold bind at 1, gets. now rewrite Hc. Qed.

Lemma bind_from {A B} (m : M A) (k : A -> M B) s1 s2 :
  m s1 = m s2 -> bind m k s1 = bind m k s2.
Proof. intros E. unfold bind. now rewrite E. Qed.

Lemma query_forgets db st et rd s1 s2 :
  connected s1 = true ->
  opened_as s1 = opened_as s2 ->
  query db st et rd s1 = query db st et rd s2.
Proof.
  intros Hc E.
  assert (connected s2 = true) as Hc2.
  { unfold connected in *. unfold opened_as in E.
    injection E as _ _ _ <-. exact Hc. }
  unfold query. rewrite !query_n_connected by assumption.
  apply bind_from.
  rewrite (load_snapshot_from_cleared db st et rd s1),
    (load_snapshot_from_cleared db st et rd s2).
  now rewrite (cleared_of_opened_as E).
Qed.

(** X13.  What the object held before a call of [query] does not matter: two
    open objects with the same deployment path, database file name,
    image extension and connection name are left in the same state, with
    the same outcome, by the same call. *)
Theorem query_forgets_snapshot db st et rd s1 s2 :
  connected s1 = true ->
  deploymentPath s1 = deploymentPath s2 ->
  dbFilename s1 = dbFilename s2 ->
  imageExtension s1 = imageExtension s2 ->
  dbConnectionName s1 = dbConnectionName s2 ->
  query db st et rd s1 = query db st et rd s2.
Proof.
  intros Hc E1 E2 E3 E4. apply query_forgets; [exact Hc|].
  unfold opened_as. congruence.
Qed.

(** X14.  A call of [query] that returned can be repeated: on the same store,
    with the same arguments, the second call returns and leaves the
    object exactly as the first left it. *)
Theorem query_idempotent db st et rd s s' :
  connected s = true ->
  query db st et rd s = (Ok tt, s') ->
  query db st et rd s' = (Ok tt, s').
Proof.
  intros Hc E.
  assert (opened_as s' = opened_as s) as Hid.
  { apply (query_establishes (fun s1 => opened_as s1 = opened_as s)
             db st et rd s Hc); [|auto|exact E].
    apply wp_of_preserves, load_snapshot_keeps_identity. }
  rewrite <- E. apply query_forgets; [|exact Hid].
  unfold connected in *. unfold opened_as in Hid.
  injection Hid as _ _ _ ->. exact Hc.
Qed.

(** Running a computation whose first step is known. *)
Lemma bind_run {A B} (m : M A) (k : A -> M B) s a s' :
  m s = (Ok a, s') -> bind m k s = k a s'.
Proof. intros E. unfold bind. now rewrite E. Qed.

Lemma bind_raise {A B} (m : M A) (k : A -> M B) s e s' :
  m s = (Raise e, s') -> bind m k s = (Raise e, s').
Proof. intros E. unfold bind. now rewrite E. Qed.

Lemma for_each_modify {X} (l : list X) (f : X -> Metadata -> Metadata) s :
  for_each l (fun x => modify (f x)) s
  = (Ok tt, fold_left (fun s1 x => f x s1) l s).
Proof.
  revert s. induction l as [|x l IH]; intros s; simpl; [reflexivity|].
  unfold bind, modify. apply IH.
Qed.

Lemma fold_deploymentData (l : list (string * string)) s :
  fold_left
    (fun s1 r =>
       with_deploymentData (PyDict.set (fst r) (snd r) (deploymentData s1)) s1)
    l s
  = with_deploymentData
      (fold_left (fun d r => PyDict.set (fst r) (snd r) d) l (deploymentData s))
      s.
Proof.
  revert s. induction l as [|r l IH]; intros s; simpl.
  - now destruct s.
  - rewrite IH. reflexivity.
Qed.

(** Reading [deployment_data] cannot fail. *)
Lemma load_deployment_data_run db :
  exists timeOffset, forall s,
    load_deployment_data db s
    = (Ok timeOffset,
       with_deploymentData (PyDict.of_list (tbl_deployment_data db)) s).
Proof.
  eexists. intros s. unfold load_deployment_data.
  erewrite bind_run by reflexivity.
  erewrite bind_run by apply for_each_modify.
  rewrite fold_deploymentData. unfold bind, gets, ret. cbn [deploymentData
    with_deploymentData]. reflexivity.
Qed.

Lemma load_dropped_count_none db s :
  tbl_dropped db = [] ->
  load_dropped_count db s = (Ok tt, with_nDroppedImages 0 s).
Proof. intros H. unfold load_dropped_count. rewrite H. reflexivity. Qed.

Lemma load_cameras_none db s :
  tbl_cameras db = [] -> tbl_images db = [] ->
  load_cameras db s = (Ok tt, with_nCameras 1 s).
Proof.
  intros H1 H2. unfold load_cameras. rewrite H1, H2.
  unfold bind, modify, gets, ret. simpl. now destruct s.
Qed.

Lemma load_dropped_none db timeOffset s :
  tbl_dropped db = [] ->
  load_dropped db timeOffset s = (Ok tt, with_droppedData [] s).
Proof. intros H. unfold load_dropped. rewrite H. reflexivity. Qed.

Lemma load_images_none db timeOffset rd st et s :
  cameras s = [] ->
  load_images db timeOffset rd st et s = (Ok None, s).
Proof.
  intros H. unfold load_images, bind, gets. rewrite H. reflexivity.
Qed.

(** With no camera, no image and no dropped frame the loading stops at
    the index of image numbers. *)
Lemma load_snapshot_empty db st et rd s :
  tbl_cameras db = [] ->
  tbl_images db = [] ->
  tbl_dropped db = [] ->
  load_snapshot db st et rd s
  = (Raise UnboundLocalError,
     with_droppedData []
       (with_deploymentData (PyDict.of_list (tbl_deployment_data db))
          (with_nCameras 1 (with_nDroppedImages 0 (clear s))))).
Proof.
  intros Hcam Himg Hdrop.
  destruct (load_deployment_data_run db) as [timeOffset Hdd].
  unfold load_snapshot.
  rewrite (bind_run (modify clear) _ s (a := tt) (s' := clear s) eq_refl).
  rewrite (bind_run _ _ _ (load_dropped_count_none db (clear s) Hdrop)).
  rewrite (bind_run _ _ _ (load_cameras_none db _ Hcam Himg)).
  rewrite (bind_run _ _ _ (Hdd _)).
  rewrite (bind_run _ _ _ (load_dropped_none db timeOffset _ Hdrop)).
  match goal with
  | |- bind _ _ ?S = _ =>
      rewrite (bind_run _ _ S
                 (load_images_none db timeOffset rd st et S eq_refl))
  end.
  reflexivity.
Qed.

(** X15.  A store that recorded nothing: no camera, no image, no dropped
    frame.  On an open object [query] raises [UnboundLocalError] (the
    loop variable [camera] is read after a loop that never ran), and it
    does so after the clearing: the snapshot the object held is gone,
    the connection is kept, the deployment parameters are loaded, and
    [nCameras] reads 1. *)
Theorem query_empty_store_raises db st et rd s :
  connected s = true ->
  tbl_cameras db = [] ->
  tbl_images db = [] ->
  tbl_dropped db = [] ->
  let r := query db st et rd s in
  fst r = Raise UnboundLocalError
  /\ opened_as (snd r) = opened_as s
  /\ cameras (snd r) = [] /\ imageData (snd r) = []
  /\ imageNumbers (snd r) = [] /\ marks (snd r) = []
  /\ sensorData (snd r) = [] /\ asyncData (snd r) = []
  /\ startImage (snd r) = -1 /\ endImage (snd r) = 0
  /\ startTime (snd r) = None /\ endTime (snd r) = None
  /\ nCameras (snd r) = 1
  /\ deploymentData (snd r) = PyDict.of_list (tbl_deployment_data db).
Proof.
  intros Hc Hcam Himg Hdrop r. subst r. unfold query.
  rewrite query_n_connected by exact Hc.
  rewrite (bind_raise _ _ _ (load_snapshot_empty db st et rd s Hcam Himg Hdrop)).
  cbn [fst snd]. repeat split.
Qed.

(** The loop of [getTimespan] reads [imageData] and nothing else, and
    changes nothing. *)
Lemma timespan_loop_ext cams ts s1 s2 :
  imageData s1 = imageData s2 ->
  timespan_loop cams ts s1 = (fst (timespan_loop cams ts s2), s1).
Proof.
  intros H. revert ts. induction cams as [|c cams IH]; intros ts; simpl;
    [reflexivity|].
  unfold bind, gets, or_raise, ret, raise. rewrite H.
  destruct (PyDict.get c (imageData s2)) as [inner|]; [|reflexivity].
  destruct (min_key (PyDict.keys inner)) as [startFrame|]; [|reflexivity].
  destruct (max_key (PyDict.keys inner)) as [endFrame|]; [|reflexivity].
  destruct (PyDict.get startFrame inner) as [first|]; [|reflexivity].
  destruct (PyDict.get endFrame inner) as [final|]; [|reflexivity].
  apply IH.
Qed.

Lemma getTimespan_with_run requery s :
  imageData s <> [] ->
  getTimespan_with requery s
  = timespan_loop (PyDict.keys (cameras s)) (None, None) s.
Proof.
  intros Hne. unfold getTimespan_with, bind, gets.
  destruct (imageData s); [congruence | reflexivity].
Qed.

(** X16.  After a call of [query] that returned, the three resolvers answer
    from the snapshot alone: they do not run [query] again, they do not
    read the store (any store [db'] gives the same answers, so a change
    made to the store since is not seen), and they leave the object as
    it is.  [getTimespan] returns the [startTime] and [endTime] the call
    stored; [getDepths] returns the fold over the loaded datagrams. *)
Theorem resolvers_use_snapshot db st et rd s0 s db' :
  connected s0 = true ->
  query db st et rd s0 = (Ok tt, s) ->
  getTimespan db' s = (Ok (startTime s, endTime s), s)
  /\ (forall i h n p,
        getDepths db' i h n p s = (Ok (depths_of (sensorData s) i h n p), s))
  /\ (forall id,
        snd (getLocations db' id s) = s
        /\ getLocations db' id s = getLocations db id s).
Proof.
  intros Hc E.
  assert (imageData s <> []) as Hne.
  { destruct (query_run db st et rd s0 Hc E) as (_ & Hsnap & _).
    destruct Hsnap as (_ & _ & _ & (c & d & _ & Hd & _) & _).
    intros Hnil. rewrite Hnil in Hd. discriminate. }
  split; [|split].
  - unfold query in E. rewrite query_n_connected in E by exact Hc.
    pose proof (load_snapshot_spec db st et rd s0) as W. unfold wp in W.
    unfold bind at 1 in E.
    destruct (load_snapshot db st et rd s0) as [[[]| e |] s2];
      [|discriminate|discriminate].
    destruct W as (_ & _ & _ & _ & (c & d & _ & Hd & _) & _).
    assert (imageData s2 <> []) as Hne2
      by (intros Hnil; rewrite Hnil in Hd; discriminate).
    unfold bind in E. rewrite (getTimespan_with_run _ s2 Hne2) in E.
    rewrite (timespan_loop_ext _ _ s2 s2 eq_refl) in E.
    destruct (fst (timespan_loop (PyDict.keys (cameras s2)) (None, None) s2))
      as [span| e |] eqn:Es; [|discriminate|discriminate].
    unfold modify in E. injection E as <-.
    unfold getTimespan. rewrite getTimespan_with_run by exact Hne.
    rewrite (timespan_loop_ext _ _ _ s2) by reflexivity.
    cbn [cameras with_timespan]. rewrite Es.
    destruct span as [a b]. reflexivity.
  - intros i h n p. unfold getDepths, ensure_queried, bind, gets.
    destruct (imageData s); [congruence | reflexivity].
  - intros id. rewrite !getLocations_loaded by exact Hne.
    split; reflexivity.
Qed.

End QueryMore.

(** ** The files the downloader copies *)

Section DownloadList.
Context {RT : Runtime}.

Lemma wp_for_each_in {X} (body : X -> M unit) (P : Metadata -> Prop)
    (l : list X) s :
  P s ->
  (forall x s1, In x l -> P s1 -> wp (body x) s1 (fun _ s2 => P s2)) ->
  wp (for_each l body) s (fun _ s' => P s').
Proof.
  revert s. induction l as [|x l IH]; intros s H0 Hstep; simpl.
  - exact H0.
  - apply wp_bind. eapply wp_mono.
    + apply Hstep; [left; reflexivity | exact H0].
    + intros u s1 H1. simpl in H1. apply IH; [exact H1|].
      intros x' s2 Hin. apply Hstep. right. exact Hin.
Qed.

Lemma In_set {K V} `{Key K} (k : K) (v : V) (d : dict K V) (kv : K * V) :
  In kv (PyDict.set k v d) -> kv = (k, v) \/ In kv d.
Proof.
  induction d as [|[k0 v0] d IH]; simpl.
  - intros [<-|[]]. left. reflexivity.
  - destruct (key_eqb k k0) eqn:E; simpl.
    + apply key_eqb_eq in E. subst k0. intros [<-|Hin]; auto.
    + intros [<-|Hin]; [auto|]. destruct (IH Hin); auto.
Qed.

Lemma entries_from_rows_ext db rd st et s s' :
  imageData s' = imageData s ->
  entries_from_rows db rd st et s -> entries_from_rows db rd st et s'.
Proof. unfold entries_from_rows. intros ->. auto. Qed.

Lemma load_image_row_entries db rd st et camera timeOffset row s :
  In row (select_images db camera rd st et) ->
  entries_from_rows db rd st et s ->
  wp (load_image_row camera timeOffset row) s
    (fun _ s' => entries_from_rows db rd st et s').
Proof.
  intros Hrow HP. unfold load_image_row.
  apply wp_bind, wp_gets.
  apply wp_step_keep with (proj := imageData).
  { destruct (startImage s =? -1); preserve. }
  intros u s1 E1.
  apply wp_step_keep with (proj := imageData); [apply times_of_keeps|].
  intros t s2 E2. apply wp_bind, wp_gets. apply wp_bind, wp_or_raise.
  intros inner Hin. apply wp_bind, wp_modify, wp_modify.
  rewrite E2, E1 in Hin. rewrite E2, E1.
  intros c d n e Hd Hne. simpl in Hd.
  destruct (string_dec camera c) as [->|Hc].
  - rewrite PyDictFacts.get_set_same in Hd. injection Hd as <-.
    apply In_set in Hne. destruct Hne as [[= -> ->]|Hold].
    + exists row. apply In_select_images in Hrow. simpl. tauto.
    + now apply (HP c inner n e).
  - rewrite PyDictFacts.get_set_other in Hd by exact Hc.
    now apply (HP c d n e).
Qed.

Lemma load_images_entries db rd st et timeOffset s :
  entries_from_rows db rd st et s ->
  wp (load_images db timeOffset rd st et) s
    (fun _ s' => entries_from_rows db rd st et s').
Proof.
  intros HP. unfold load_images. apply wp_bind, wp_gets. apply wp_bind.
  eapply wp_mono.
  - apply (wp_for_each_in
             (load_camera_images db timeOffset rd st et)
             (entries_from_rows db rd st et)); [exact HP|].
    intros camera s1 _ H1. unfold load_camera_images.
    apply wp_bind, wp_modify.
    apply wp_for_each_in.
    + intros c d n e Hd Hne. simpl in Hd.
      destruct (string_dec camera c) as [->|Hc].
      * rewrite PyDictFacts.get_set_same in Hd. injection Hd as <-.
        destruct Hne.
      * rewrite PyDictFacts.get_set_other in Hd by exact Hc.
        now apply (H1 c d n e).
    + intros row s2 Hrow H2. now apply load_image_row_entries.
  - intros u s1 H1. simpl in H1. apply wp_ret. exact H1.
Qed.

Lemma load_snapshot_entries db st et rd s :
  wp (load_snapshot db st et rd) s
    (fun _ s' => entries_from_rows db rd st et s').
Proof.
  unfold load_snapshot. apply wp_bind, wp_modify.
  assert (entries_from_rows db rd st et (clear s)) as H0
    by (intros c d n e Hd; discriminate).
  apply wp_step_keep with (proj := imageData).
  { unfold load_dropped_count. preserve. }
  intros u1 s1 E1.
  apply wp_step_keep with (proj := imageData).
  { unfold load_cameras, load_camera_row, set_camera. preserve. }
  intros u2 s2 E2.
  apply wp_step_keep with (proj := imageData).
  { unfold load_deployment_data. preserve. }
  intros timeOffset s3 E3.
  apply wp_step_keep with (proj := imageData).
  { unfold load_dropped, load_dropped_row. preserve; apply times_of_keeps. }
  intros u4 s4 E4. apply wp_bind. eapply wp_mono.
  - apply load_images_entries.
    apply (entries_from_rows_ext (s := clear s)); [congruence | exact H0].
  - intros camera s5 H5. simpl in H5.
    eapply wp_mono.
    + apply wp_of_preserves with (proj := imageData).
      unfold build_index, load_sensor_data, init_sensor_id,
        init_sensor_header, fill_sensor_row, load_async_data, init_async_id,
        init_async_header, fill_async_row, load_marks.
      preserve; apply times_of_keeps.
    + intros u6 s6 E6. simpl in E6.
      now apply (entries_from_rows_ext (s := s5)).
Qed.

(** X20.  The downloader copies, for a camera, the files named after the
    entries [query()] loaded for it.  After an [open] that found the
    image extension and a [query()] that returned, the list of a known
    camera holds only names of rows of [images] that belong to the
    camera, are still images and are not discarded, each with the
    extension added; and for every such row the list has the file of a
    row of the same camera and number.  A discarded image is never
    downloaded. *)
Theorem download_list_excludes_discards db s0 s ext c :
  connected s0 = true ->
  query db None None false s0 = (Ok tt, s) ->
  imageExtension s = Some ext ->
  In c (known_cameras db) ->
  exists files,
    sourceFiles s c = Some files
    /\ (forall f, In f files ->
          exists r,
            In r (tbl_images db) /\ img_camera r = c
            /\ is_still r = true /\ discardClause r = true
            /\ f = (img_name r ++ ext)%string)
    /\ (forall r,
          In r (tbl_images db) -> img_camera r = c ->
          is_still r = true -> discardClause r = true ->
          timeClause None None (img_time r) = true ->
          exists r',
            In r' (tbl_images db) /\ img_camera r' = c
            /\ img_number r' = img_number r
            /\ In (img_name r' ++ ext)%string files).
Proof.
  intros Hc E Hext Hin.
  assert (entries_from_rows db false None None s) as HP.
  { apply (query_establishes (entries_from_rows db false None None)
             db None None false s0 Hc);
      [apply load_snapshot_entries | | exact E].
    intros s1 a b H. exact H. }
  destruct (query_run db None None false s0 Hc E) as (_ & Hsnap & _).
  destruct Hsnap as (_ & _ & (_ & _ & Hi) & _).
  destruct (Hi c Hin) as (d & Hd & Hk).
  assert (forall item, In item d ->
            exists r,
              In r (tbl_images db) /\ img_camera r = c
              /\ is_still r = true /\ discardClause r = true
              /\ img_number r = fst item
              /\ snd (snd item) = img_name r) as Hitems.
  { intros [n e] Hitem. destruct (HP c d n e Hd Hitem) as (r & Hr & Hf & Hn & He).
    exists r. unfold image_filter in Hf.
    rewrite !andb_true_iff, String.eqb_eq in Hf. simpl in *. tauto. }
  exists (map (fun item => (snd (snd item) ++ ext)%string) d).
  split; [|split].
  - unfold sourceFiles. rewrite Hd, Hext. now destruct d.
  - intros f Hf. apply in_map_iff in Hf. destruct Hf as (item & <- & Hitem).
    destruct (Hitems item Hitem) as (r & Hr & H1 & H2 & H3 & _ & H5).
    exists r. rewrite <- H5. tauto.
  - intros r Hr H1 H2 H3 H4.
    assert (In (img_number r) (PyDict.keys d)) as Hkey.
    { apply Hk, In_frames. exists r. split; [exact Hr|].
      split; [|reflexivity]. unfold image_filter.
      rewrite H1, String.eqb_refl, H2, H3, H4. reflexivity. }
    unfold PyDict.keys in Hkey. apply in_map_iff in Hkey.
    destruct Hkey as (item & Hn & Hitem).
    destruct (Hitems item Hitem) as (r' & Hr' & G1 & G2 & G3 & G4 & G5).
    exists r'. split; [exact Hr'|]. split; [exact G1|].
    split; [congruence|]. apply in_map_iff. exists item.
    split; [cbv beta; f_equal; exact G5 | exact Hitem].
Qed.

End DownloadList.

(** ** The marks of the snapshot *)

Section MarksWindow.
Context {RT : Runtime}.

Lemma fold_marks (l : list (Z * string)) s :
  let s' :=
    fold_left
      (fun s1 r => with_marks (PyDict.set (fst r) (snd r) (marks s1)) s1) l s in
  marks s'
  = fold_left (fun d kv => PyDict.set (fst kv) (snd kv) d) l (marks s)
  /\ startImage s' = startImage s /\ endImage s' = endImage s.
Proof.
  cbv zeta. revert s. induction l as [|r l IH]; intros s; simpl; [auto|].
  destruct (IH (with_marks (PyDict.set (fst r) (snd r) (marks s)) s))
    as (H1 & H2 & H3).
  rewrite H1, H2, H3. auto.
Qed.

Lemma load_snapshot_marks db st et rd s :
  wp (load_snapshot db st et rd) s
    (fun _ s' =>
       marks s'
       = PyDict.of_list (select_marks db (startImage s') (endImage s'))).
Proof.
  unfold load_snapshot. apply wp_bind, wp_modify.
  assert (marks (clear s) = []) as H0 by reflexivity.
  apply wp_step_keep with (proj := marks).
  { unfold load_dropped_count. preserve. }
  intros u1 s1 E1.
  apply wp_step_keep with (proj := marks).
  { unfold load_cameras, load_camera_row, set_camera. preserve. }
  intros u2 s2 E2.
  apply wp_step_keep with (proj := marks).
  { unfold load_deployment_data. preserve. }
  intros timeOffset s3 E3.
  apply wp_step_keep with (proj := marks).
  { unfold load_dropped, load_dropped_row. preserve; apply times_of_keeps. }
  intros u4 s4 E4.
  apply wp_step_keep with (proj := marks).
  { unfold load_images, load_image_row. preserve; apply times_of_keeps. }
  intros camera s5 E5.
  apply wp_step_keep with (proj := marks).
  { unfold build_index. preserve. }
  intros u6 s6 E6.
  apply wp_step_keep with (proj := marks).
  { unfold load_sensor_data, init_sensor_id, init_sensor_header,
      fill_sensor_row. preserve; apply times_of_keeps. }
  intros u7 s7 E7.
  apply wp_step_keep with (proj := marks).
  { unfold load_async_data, init_async_id, init_async_header, fill_async_row.
    preserve; apply times_of_keeps. }
  intros u8 s8 E8.
  assert (marks s8 = []) as Hm by congruence.
  unfold load_marks. apply wp_bind, wp_gets. apply wp_bind, wp_gets.
  unfold wp. rewrite for_each_modify.
  destruct (fold_marks (select_marks db (startImage s8) (endImage s8)) s8)
    as (H1 & H2 & H3).
  rewrite H1, H2, H3, Hm. reflexivity.
Qed.

(** X21.  The marks a [query()] that returned has loaded are the marks of the
    store inside the frame range of the snapshot, [startImage] to
    [endImage], assigned in the order of the table: a mark of the snapshot
    is a row of [marks] inside the range, and every row of [marks] inside
    the range has its frame in the snapshot.  A mark on a frame outside the
    range is in the store and not in the snapshot. *)
Theorem query_marks_window db st et rd s0 s :
  connected s0 = true ->
  query db st et rd s0 = (Ok tt, s) ->
  marks s = PyDict.of_list (select_marks db (startImage s) (endImage s))
  /\ (forall f d,
        PyDict.get f (marks s) = Some d ->
        In (f, d) (tbl_marks db) /\ startImage s <= f <= endImage s)
  /\ (forall f d,
        In (f, d) (tbl_marks db) -> startImage s <= f <= endImage s ->
        PyDict.mem f (marks s) = true)
  /\ (forall f, f < startImage s \/ endImage s < f ->
        PyDict.mem f (marks s) = false).
Proof.
  intros Hc E.
  assert (marks s = PyDict.of_list (select_marks db (startImage s) (endImage s)))
    as HP.
  { apply (query_establishes
             (fun s1 => marks s1
                = PyDict.of_list
                    (select_marks db (startImage s1) (endImage s1)))
             db st et rd s0 Hc);
      [apply load_snapshot_marks | | exact E].
    intros s1 a b H. exact H. }
  assert (forall f d, In (f, d) (select_marks db (startImage s) (endImage s))
            <-> In (f, d) (tbl_marks db) /\ startImage s <= f <= endImage s)
    as Hsel.
  { intros f d. unfold select_marks. rewrite filter_In. simpl.
    rewrite andb_true_iff, !Z.leb_le. tauto. }
  split; [exact HP|]. split; [|split].
  - intros f d Hg. rewrite HP in Hg. apply get_of_list_In in Hg.
    now apply Hsel.
  - intros f d Hin Hr. apply PyDictFacts.mem_In_keys.
    rewrite HP, keys_of_list, In_distinct, in_map_iff.
    exists (f, d). split; [reflexivity|]. now apply Hsel.
  - intros f Hout. destruct (PyDict.mem f (marks s)) eqn:Em; [|reflexivity].
    apply PyDictFacts.mem_In_keys in Em.
    rewrite HP, keys_of_list, In_distinct, in_map_iff in Em.
    destruct Em as ([f' d] & Ef & Hin). simpl in Ef. subst f'.
    apply Hsel in Hin. lia.
Qed.

End MarksWindow.

(** ** Trimming a deployment path *)

Section Paths.

Lemma strip_prefix_Some (p s rest : string) :
  strip_prefix p s = Some rest -> s = (p ++ rest)%string.
Proof.
  revert s. induction p as [|a p IH]; intros s; simpl.
  - intros [= ->]. reflexivity.
  - destruct s as [|b s]; [discriminate|].
    destruct (Ascii.eqb a b) eqn:E; [|discriminate].
    apply Ascii.eqb_eq in E. subst b. intros H. now rewrite (IH s H).
Qed.

Lemma append_assoc (a b c : string) :
  ((a ++ b) ++ c = a ++ (b ++ c))%string.
Proof. induction a as [|x a IH]; simpl; [reflexivity | now rewrite IH]. Qed.

Lemma append_nil_r (a : string) : (a ++ "")%string = a.
Proof. induction a as [|x a IH]; simpl; [reflexivity | now rewrite IH]. Qed.

Lemma length_append (a b : string) :
  String.length (a ++ b) = (String.length a + String.length b)%nat.
Proof. induction a as [|x a IH]; simpl; [reflexivity | now rewrite IH]. Qed.

Lemma rev_string_acc (acc s : string) :
  rev_string acc s = (rev_string "" s ++ acc)%string.
Proof.
  revert acc. induction s as [|c s IH]; intros acc; simpl; [reflexivity|].
  rewrite (IH (String c acc)), (IH (String c "")), append_assoc. reflexivity.
Qed.

Lemma count_char_append (a : ascii) (s t : string) :
  count_char a (s ++ t) = (count_char a s + count_char a t)%nat.
Proof.
  induction s as [|c s IH]; simpl; [reflexivity|]. rewrite IH. lia.
Qed.

Lemma count_char_rev (a : ascii) (s : string) :
  count_char a (rev_string "" s) = count_char a s.
Proof.
  induction s as [|c s IH]; simpl; [reflexivity|].
  rewrite rev_string_acc, count_char_append, IH. simpl. lia.
Qed.

Lemma split_from_not_nil fuel sep cur s : split_from fuel sep cur s <> [].
Proof.
  revert cur s. induction fuel as [|fuel IH]; intros cur s; simpl;
    [discriminate|].
  destruct s as [|c s]; [discriminate|].
  destruct (strip_prefix sep (String c s)); [discriminate | apply IH].
Qed.

Lemma join_cons (sep x : string) (l : list string) :
  l <> [] -> join sep (x :: l) = (x ++ sep ++ join sep l)%string.
Proof. destruct l; [congruence | reflexivity]. Qed.

(** Joining the pieces of a split gives the text back. *)
Lemma split_from_join (sep : string) (fuel : nat) (cur s : string) :
  sep <> EmptyString ->
  (String.length s <= fuel)%nat ->
  join sep (split_from fuel sep cur s) = (rev_string "" cur ++ s)%string.
Proof.
  intros Hsep. revert cur s.
  induction fuel as [fuel IH] using lt_wf_ind. intros cur s Hlen.
  destruct fuel as [|fuel].
  - destruct s; [|simpl in Hlen; lia]. simpl. now rewrite append_nil_r.
  - destruct s as [|c s]; [simpl; now rewrite append_nil_r|].
    cbn [split_from].
    destruct (strip_prefix sep (String c s)) as [rest|] eqn:E.
    + rewrite join_cons by apply split_from_not_nil.
      apply strip_prefix_Some in E.
      assert (String.length sep <> 0%nat) as Hl
        by (destruct sep; [congruence | simpl; lia]).
      assert (String.length (String c s)
              = (String.length sep + String.length rest)%nat) as Hlr
        by (rewrite E; apply length_append).
      rewrite IH; [| lia | lia]. simpl (rev_string "" "").
      rewrite E. reflexivity.
    + rewrite IH; [| lia | simpl in Hlen; lia].
      simpl. rewrite (rev_string_acc (String c "")), append_assoc.
      reflexivity.
Qed.

Lemma split_join (sep s : string) (parts : list string) :
  split sep s = Some parts -> parts <> [] /\ join sep parts = s.
Proof.
  unfold split. destruct sep as [|a sep]; [discriminate|].
  intros [= <-]. split; [apply split_from_not_nil|].
  rewrite split_from_join; [reflexivity | discriminate | lia].
Qed.

(** No piece cut at a one-character separator holds the separator. *)
Lemma split_from_pieces (a : ascii) (fuel : nat) (cur s : string) :
  count_char a cur = 0%nat ->
  forall piece, In piece (split_from fuel (String a "") cur s) ->
    count_char a piece = 0%nat.
Proof.
  revert cur s. induction fuel as [|fuel IH]; intros cur s Hcur piece; simpl.
  - intros [<-|[]]. now rewrite count_char_rev.
  - destruct s as [|c s].
    + intros [<-|[]]. now rewrite count_char_rev.
    + destruct (Ascii.eqb a c) eqn:E.
      * intros [<-|Hin]; [now rewrite count_char_rev|].
        rewrite Nat.sub_0_r in Hin. now apply (IH "" s).
      * apply IH. simpl. now rewrite E.
Qed.

Lemma join_snoc (sep x : string) (l : list string) :
  l <> [] -> join sep (l ++ [x]) = (join sep l ++ sep ++ x)%string.
Proof.
  induction l as [|y l IH]; [congruence|]. intros _.
  destruct l as [|z l]; [reflexivity|].
  change ((y :: z :: l) ++ [x]) with (y :: ((z :: l) ++ [x])).
  rewrite join_cons by (destruct l; discriminate).
  rewrite IH by discriminate.
  rewrite (@join_cons sep y (z :: l)) by discriminate.
  now rewrite !append_assoc.
Qed.

(** X22.  [trimDeploymentPath] leaves a path alone unless both "D20" and "-T"
    occur in it, anywhere; otherwise it removes exactly the last
    component: what follows the last "/" goes together with that "/".
    A path with no "/" at all is then cut down to the empty string. *)
Theorem trimDeploymentPath_last_component (path : string) :
  (contains "D20" path && contains "-T" path = false ->
   trimDeploymentPath path = path)
  /\ (contains "D20" path && contains "-T" path = true ->
      exists last,
        count_char "/" last = 0%nat
        /\ (path = (trimDeploymentPath path ++ "/" ++ last)%string
            \/ (trimDeploymentPath path = EmptyString /\ path = last))).
Proof.
  unfold trimDeploymentPath. split; intros ->; [reflexivity|].
  destruct (split "/" path) as [parts|] eqn:E; [|discriminate].
  destruct (split_join _ _ E) as [Hne Hj].
  assert (forall piece, In piece parts -> count_char "/" piece = 0%nat) as Hp.
  { unfold split in E. injection E as <-.
    apply split_from_pieces. reflexivity. }
  rewrite (app_removelast_last EmptyString Hne) in Hj, Hp.
  exists (List.last parts EmptyString). split.
  - apply Hp, in_app_iff. right. left. reflexivity.
  - destruct (removelast parts) as [|p ps] eqn:Er.
    + right. split; [reflexivity|]. symmetry. exact Hj.
    + left. rewrite join_snoc in Hj by discriminate. symmetry. exact Hj.
Qed.

Lemma cb_paths_spec (items newList : list string) :
  cb_paths items newList
  = newList
    ++ filter (fun p => negb (existsb (String.eqb p) newList))
         (distinct (map trimDeploymentPath items)).
Proof.
  revert newList. induction items as [|item items IH]; intros newList; simpl.
  - now rewrite app_nil_r.
  - rewrite IH.
    destruct (existsb (String.eqb (trimDeploymentPath item)) newList) eqn:E.
    + f_equal. rewrite filter_twice. apply filter_ext_in. intros y _.
      change (key_eqb (trimDeploymentPath item) y)
        with (String.eqb (trimDeploymentPath item) y).
      destruct (String.eqb (trimDeploymentPath item) y) eqn:Ey; simpl;
        [|reflexivity].
      apply String.eqb_eq in Ey. subst y. now rewrite E.
    + simpl. rewrite <- app_assoc. simpl. do 2 f_equal.
      rewrite filter_twice. apply filter_ext_in. intros y _.
      rewrite existsb_app. simpl. rewrite orb_false_r, negb_orb.
      change (key_eqb (trimDeploymentPath item) y)
        with (String.eqb (trimDeploymentPath item) y).
      rewrite (String.eqb_sym y). apply andb_comm.
Qed.

(** X23.  The list [updateCbPaths] writes to the settings: the trimmed items
    of the combo box in the order of their first occurrence, each once. *)
Theorem updateCbPaths_first_occurrences (items : list string) :
  updateCbPaths items = distinct (map trimDeploymentPath items)
  /\ NoDup (updateCbPaths items)
  /\ forall p, In p (updateCbPaths items)
               <-> exists item, In item items /\ trimDeploymentPath item = p.
Proof.
  assert (updateCbPaths items = distinct (map trimDeploymentPath items)) as E.
  { unfold updateCbPaths. rewrite cb_paths_spec. simpl.
    induction (distinct (map trimDeploymentPath items)) as [|a l IH];
      simpl; [reflexivity | now rewrite IH]. }
  split; [exact E|]. rewrite E. split; [apply NoDup_distinct|].
  intros p. rewrite In_distinct, in_map_iff. split.
  - intros (item & <- & Hin). now exists item.
  - intros (item & Hin & <-). now exists item.
Qed.

End Paths.

(** ** The image files of a folder *)

Section ImageListFacts.
Context {F : Files}.
Import ImageList.

Lemma length_lower (s : string) : String.length (lower s) = String.length s.
Proof. induction s as [|c s IH]; simpl; congruence. Qed.

Lemma length_substring_le (n m : nat) (s : string) :
  (String.length (substring n m s) <= m)%nat.
Proof.
  revert n m. induction s as [|c s IH]; intros n m.
  - destruct n, m; simpl; lia.
  - destruct n as [|n]; [destruct m as [|m]|]; simpl.
    + lia.
    + specialize (IH 0%nat m). lia.
    + apply IH.
Qed.

Lemma is_image_ending (name : string) :
  is_image name = true ->
  lower (last3 name) = "jpg" \/ lower (last3 name) = "tif".
Proof.
  unfold is_image, imageTypes. simpl.
  rewrite !orb_true_iff, !String.eqb_eq.
  pose proof (length_substring_le (String.length name - 3) 3 name) as Hl.
  fold (last3 name) in Hl. rewrite <- length_lower in Hl.
  intros [E|[E|[E|[E|E]]]]; auto; try discriminate;
    rewrite E in Hl; simpl in Hl; lia.
Qed.

Lemma length_sort_by {A} (le : A -> A -> bool) (l : list A) :
  List.length (sort_by le l) = List.length l.
Proof.
  induction l as [|a l IH]; simpl; [reflexivity|].
  now rewrite length_insert_by, IH.
Qed.

Lemma length_keys_set (k : Z) (v : string) (d : dict Z string) :
  (List.length (PyDict.keys (PyDict.set k v d))
   <= S (List.length (PyDict.keys d)))%nat.
Proof.
  rewrite PyDictFacts.keys_set. destruct (PyDict.mem k d); [lia|].
  rewrite length_app. simpl. lia.
Qed.

Lemma entries_parse_set k name d :
  entries_parse d -> py_int (number_text name) = Some k ->
  is_image name = true -> entries_parse (PyDict.set k name d).
Proof.
  intros Hd Hk Hi k' name' Hg. destruct (Z.eq_dec k k') as [<-|Hne].
  - rewrite PyDictFacts.get_set_same in Hg. injection Hg as <-. auto.
  - rewrite PyDictFacts.get_set_other in Hg by exact Hne. now apply Hd.
Qed.

Lemma turn_keeps path rn i images d w images' d' w' :
  turn path rn i (images, d, w) = Some (images', d', w') ->
  entries_parse d ->
  entries_parse d'
  /\ (List.length (PyDict.keys d') <= S (List.length (PyDict.keys d)))%nat
  /\ (rn = false -> w' = w).
Proof.
  unfold turn. intros E Hd.
  destruct (nth_error images i) as [this|]; [|discriminate].
  destruct (nth_error images (S i)) as [next|]; [|discriminate].
  assert (entries_parse d
          /\ (List.length (PyDict.keys d) <= S (List.length (PyDict.keys d)))%nat
          /\ (rn = false -> w = w)) as Hsame
    by (split; [exact Hd | split; [lia | reflexivity]]).
  destruct (is_image this) eqn:Ei; cbn [negb orb] in E;
    [|injection E as <- <- <-; exact Hsame].
  destruct (is_image next); cbn [negb orb] in E;
    [|injection E as <- <- <-; exact Hsame].
  destruct (py_int (number_text this)) as [thisNumber|] eqn:Et;
    [|injection E as <- <- <-; exact Hsame].
  destruct (py_int (number_text next)) as [nextNumber|];
    [|injection E as <- <- <-; exact Hsame].
  cbv zeta in E.
  assert (entries_parse (PyDict.set thisNumber this d)) as Hset
    by now apply entries_parse_set.
  pose proof (length_keys_set thisNumber this d) as Hlen.
  destruct (-1 <? _) in E.
  - destruct rn.
    + destruct (os_rename _ _ w) as [w1|]; [|discriminate].
      injection E as <- <- <-.
      split; [exact Hset | split; [exact Hlen | discriminate]].
    + injection E as <- <- <-.
      split; [exact Hset | split; [exact Hlen | reflexivity]].
  - injection E as <- <- <-.
    split; [exact Hset | split; [exact Hlen | reflexivity]].
Qed.

Lemma turns_None path rn l : turns path rn l None = None.
Proof. induction l as [|i l IH]; simpl; auto. Qed.

Lemma turns_keep path rn l images d w images' d' w' :
  turns path rn l (Some (images, d, w)) = Some (images', d', w') ->
  entries_parse d ->
  entries_parse d'
  /\ (List.length (PyDict.keys d')
      <= List.length l + List.length (PyDict.keys d))%nat
  /\ (rn = false -> w' = w).
Proof.
  revert images d w. induction l as [|i l IH]; intros images d w E Hd.
  - injection E as <- <- <-.
    split; [exact Hd | split; [simpl; lia | reflexivity]].
  - change (turns path rn l (turn path rn i (images, d, w))
            = Some (images', d', w')) in E.
    destruct (turn path rn i (images, d, w)) as [[[images1 d1] w1]|] eqn:E1;
      [|now rewrite turns_None in E].
    destruct (@turn_keeps path rn i images d w images1 d1 w1 E1 Hd)
      as (H1 & H2 & H3).
    destruct (IH _ _ _ E H1) as (G1 & G2 & G3).
    split; [exact G1|]. split; [simpl; lia|].
    intros Hrn. rewrite (G3 Hrn). now apply H3.
Qed.

(** X25.  What [getImageList] returns when it returns: every entry maps a
    number to a name that reads as this number and ends, whatever the
    case, in "jpg" or "tif" (the types "tiff" and "jpeg" of the list have
    four letters and the three last letters of a name never match them);
    the turns of the loop are one fewer than the files, so the dictionary
    has fewer entries than the folder has files, none for a folder of one
    file; and when the files are not to be renamed the folders are left
    as they were. *)
Theorem getImageList_entries path rn w listing d w' :
  os_listdir path w = Some listing ->
  getImageList path rn w = Some (d, w') ->
  (forall k name,
     PyDict.get k d = Some name ->
     py_int (number_text name) = Some k
     /\ (lower (last3 name) = "jpg" \/ lower (last3 name) = "tif"))
  /\ (List.length (PyDict.keys d) <= List.length listing - 1)%nat
  /\ (rn = false -> w' = w).
Proof.
  intros Hl E. unfold getImageList in E. rewrite Hl in E. cbv zeta in E.
  destruct (turns path rn _ _) as [[[images1 d1] w1]|] eqn:Et; [|discriminate].
  injection E as -> ->.
  destruct (@turns_keep path rn _ _ [] w images1 d w' Et) as (H1 & H2 & H3);
    [intros k name Hg; discriminate|].
  rewrite length_seq, length_sort_by in H2. simpl in H2.
  split; [|split; [lia | exact H3]].
  intros k name Hg. destruct (H1 k name Hg) as [Hk Hi].
  split; [exact Hk | now apply is_image_ending].
Qed.

Lemma turns_numbered path rn w images first j :
  (forall i name,
     nth_error images i = Some name ->
     is_image name = true
     /\ py_int (number_text name) = Some (first + Z.of_nat i)) ->
  (j <= List.length images - 1)%nat ->
  exists d,
    turns path rn (seq 0 j) (Some (images, [], w)) = Some (images, d, w)
    /\ PyDict.keys d = map (fun i => first + Z.of_nat i) (seq 0 j)
    /\ forall i name,
         nth_error images i = Some name ->
         PyDict.get (first + Z.of_nat i) d
         = if (i <? j)%nat then Some name else None.
Proof.
  intros Hall. induction j as [|j IH]; intros Hj.
  - exists []. repeat split.
  - destruct IH as (d & Ed & Hk & Hg); [lia|].
    assert (j < List.length images)%nat as Hj0 by lia.
    assert (S j < List.length images)%nat as Hj1 by lia.
    destruct (nth_error images j) as [this|] eqn:Ethis;
      [|apply nth_error_None in Ethis; lia].
    destruct (nth_error images (S j)) as [next|] eqn:Enext;
      [|apply nth_error_None in Enext; lia].
    destruct (Hall _ _ Ethis) as [Hi0 Hn0].
    destruct (Hall _ _ Enext) as [Hi1 Hn1].
    exists (PyDict.set (first + Z.of_nat j) this d).
    split; [|split].
    + rewrite seq_S. unfold turns in *. rewrite fold_left_app, Ed.
      cbn [fold_left Nat.add]. unfold turn. rewrite Ethis, Enext, Hi0, Hi1, Hn0, Hn1.
      cbn [negb orb]. cbv zeta.
      replace (first + Z.of_nat j =? first + Z.of_nat (S j) - 1) with true
        by (symmetry; apply Z.eqb_eq; lia).
      reflexivity.
    + rewrite PyDictFacts.keys_set, seq_S, map_app, Hk. simpl.
      assert (PyDict.mem (first + Z.of_nat j) d = false) as ->; [|reflexivity].
      unfold PyDict.mem. rewrite (Hg _ _ Ethis), Nat.ltb_irrefl. reflexivity.
    + intros i name Hi. destruct (Nat.eq_dec i j) as [->|Hne].
      * rewrite PyDictFacts.get_set_same.
        assert ((j <? S j)%nat = true) as -> by (apply Nat.ltb_lt; lia).
        congruence.
      * rewrite PyDictFacts.get_set_other by lia.
        rewrite (Hg _ _ Hi).
        destruct (i <? j)%nat eqn:E1; destruct (i <? S j)%nat eqn:E2;
          try reflexivity;
          [apply Nat.ltb_lt in E1; apply Nat.ltb_ge in E2; lia
          |apply Nat.ltb_ge in E1; apply Nat.ltb_lt in E2; lia].
Qed.

(** X26.  A folder whose sorted listing is numbered in steps of one (every name
    an image name that reads as the number of its place) is left as it
    is: nothing is renamed; the dictionary maps the numbers to the names
    in order, and the last file of the listing is not in it. *)
Theorem getImageList_numbered path rn w listing first :
  os_listdir path w = Some listing ->
  (forall i name,
     nth_error (sort_by String.leb listing) i = Some name ->
     is_image name = true
     /\ py_int (number_text name) = Some (first + Z.of_nat i)) ->
  exists d,
    getImageList path rn w = Some (d, w)
    /\ PyDict.keys d
       = map (fun i => first + Z.of_nat i)
           (seq 0 (List.length listing - 1))
    /\ forall i name,
         nth_error (sort_by String.leb listing) i = Some name ->
         PyDict.get (first + Z.of_nat i) d
         = if (S i <? List.length listing)%nat then Some name else None.
Proof.
  intros Hl Hall.
  destruct (turns_numbered path rn w (sort_by String.leb listing) first
              (j := List.length (sort_by String.leb listing) - 1) Hall)
    as (d & Ed & Hk & Hg); [lia|].
  exists d. unfold getImageList. rewrite Hl. cbv zeta. rewrite Ed.
  rewrite length_sort_by in Hk, Hg.
  split; [reflexivity|]. split; [exact Hk|].
  intros i name Hi. rewrite (Hg _ _ Hi).
  destruct (i <? List.length listing - 1)%nat eqn:E1;
    destruct (S i <? List.length listing)%nat eqn:E2; try reflexivity;
    [apply Nat.ltb_lt in E1; apply Nat.ltb_ge in E2; lia
    |apply Nat.ltb_ge in E1; apply Nat.ltb_lt in E2; lia].
Qed.

End ImageListFacts.

(** ** Image adjustments *)

Section AdjustmentFacts.
Context {RT : Runtime} {B64 : Base64} {SQL : SqlText}.

Lemma plain_append (a b : string) :
  plain a = true -> plain b = true -> plain (a ++ b) = true.
Proof.
  unfold plain. rewrite !Nat.eqb_eq, !count_char_append. lia.
Qed.

Lemma append_same_suffix (a b c : string) :
  (a ++ c)%string = (b ++ c)%string -> a = b.
Proof.
  revert b. induction a as [|x a IH]; intros b E.
  - destruct b as [|y b]; [reflexivity|]. exfalso.
    apply (f_equal String.length) in E. simpl in E.
    rewrite length_append in E. lia.
  - destruct b as [|y b].
    + exfalso. apply (f_equal String.length) in E. simpl in E.
      rewrite length_append in E. lia.
    + simpl in E. injection E as -> E. f_equal. now apply IH.
Qed.

(** The value stored under [p]. *)
Lemma select_parameter_plain p db :
  plain p = true ->
  select_parameter p db
  = hd_error
      (map snd (filter (fun r => String.eqb (fst r) p) (tbl_deployment_data db))).
Proof. intros H. unfold select_parameter. now rewrite H. Qed.

Lemma filter_updated (p q v : string) (rows : list (string * string)) :
  map snd
    (filter (fun r => String.eqb (fst r) q)
       (map (fun r => if String.eqb (fst r) p then (fst r, v) else r) rows))
  = map (fun r => if String.eqb (fst r) p then v else snd r)
      (filter (fun r => String.eqb (fst r) q) rows).
Proof.
  induction rows as [|[k w] rows IH]; simpl; [reflexivity|].
  destruct (String.eqb k p) eqn:Ep; simpl;
    destruct (String.eqb k q); simpl; rewrite ?Ep, IH; reflexivity.
Qed.

Lemma select_updated p q v db :
  plain p = true -> plain v = true -> plain q = true ->
  select_parameter q (update_parameter p v db)
  = if String.eqb q p
    then option_map (fun _ => v) (select_parameter p db)
    else select_parameter q db.
Proof.
  intros Hp Hv Hq. rewrite !select_parameter_plain by assumption.
  unfold update_parameter. rewrite Hp, Hv. cbn [andb tbl_deployment_data
    with_tbl_deployment_data].
  rewrite filter_updated.
  destruct (String.eqb q p) eqn:E.
  - apply String.eqb_eq in E. subst q.
    destruct (filter (fun r => String.eqb (fst r) p) (tbl_deployment_data db))
      as [|[k w] l] eqn:Ef; [reflexivity|].
    assert (In (k, w) (filter (fun r => String.eqb (fst r) p)
                         (tbl_deployment_data db))) as Hin
      by (rewrite Ef; left; reflexivity).
    apply filter_In in Hin. destruct Hin as [_ Hk]. simpl in *.
    now rewrite Hk.
  - f_equal. apply map_ext_in. intros [k w] Hin. apply filter_In in Hin.
    destruct Hin as [_ Hk]. simpl in *. apply String.eqb_eq in Hk. subst k.
    now rewrite E.
Qed.

Lemma select_inserted p q v db :
  plain p = true -> plain v = true -> plain q = true ->
  table_exists "deployment_data" (schema db) = true ->
  select_parameter p db = None ->
  select_parameter q (insert_parameter_text p v db)
  = if String.eqb q p then Some v else select_parameter q db.
Proof.
  intros Hp Hv Hq Ht Hnone. rewrite !select_parameter_plain by assumption.
  rewrite select_parameter_plain in Hnone by exact Hp.
  assert (filter (fun r => String.eqb (fst r) p) (tbl_deployment_data db) = [])
    as Hf.
  { destruct (filter (fun r => String.eqb (fst r) p) (tbl_deployment_data db));
      [reflexivity | discriminate]. }
  assert (existsb (fun r => String.eqb (fst r) p) (tbl_deployment_data db)
          = false) as He.
  { destruct (existsb _ (tbl_deployment_data db)) eqn:E; [|reflexivity].
    apply existsb_exists in E. destruct E as (r & Hr & Er).
    assert (In r (filter (fun r => String.eqb (fst r) p)
                    (tbl_deployment_data db))) as Hin
      by (apply filter_In; auto).
    rewrite Hf in Hin. destruct Hin. }
  unfold insert_parameter_text, insert_parameter. rewrite Hp, Hv, Ht, He.
  cbn [andb negb tbl_deployment_data with_tbl_deployment_data].
  rewrite filter_app, map_app. simpl. rewrite (String.eqb_sym p q).
  destruct (String.eqb q p) eqn:E.
  - apply String.eqb_eq in E. subst q. now rewrite Hf.
  - simpl. now rewrite app_nil_r.
Qed.

Lemma select_inserted_again p v db :
  plain p = true -> plain v = true ->
  select_parameter p db = Some v ->
  insert_parameter_text p v db = db.
Proof.
  intros Hp Hv Hs. rewrite select_parameter_plain in Hs by exact Hp.
  unfold insert_parameter_text, insert_parameter. rewrite Hp, Hv.
  cbn [andb].
  assert (existsb (fun r => String.eqb (fst r) p) (tbl_deployment_data db)
          = true) as ->.
  { destruct (filter (fun r => String.eqb (fst r) p) (tbl_deployment_data db))
      as [|r l] eqn:Ef; [discriminate|].
    assert (In r (filter (fun r => String.eqb (fst r) p)
                    (tbl_deployment_data db))) as Hin
      by (rewrite Ef; left; reflexivity).
    apply filter_In in Hin. apply existsb_exists. exists r. exact Hin. }
  now rewrite andb_false_r.
Qed.

(** What a store holds under each plain parameter after
    [setImageAdjustments] has written [v] under the plain parameter [p]. *)
Lemma parameters_after_set p v db :
  plain p = true -> plain v = true ->
  table_exists "deployment_data" (schema db) = true ->
  let db' :=
    match select_parameter p db with
    | Some _ => run_twice (update_parameter p v) db
    | None => run_twice (insert_parameter_text p v) db
    end in
  (forall q, plain q = true ->
     select_parameter q db'
     = if String.eqb q p then Some v else select_parameter q db)
  /\ recorded db' = recorded db /\ tbl_images db' = tbl_images db
  /\ schema db' = schema db.
Proof.
  intros Hp Hv Ht db'. subst db'. unfold run_twice.
  destruct (select_parameter p db) as [old|] eqn:Es.
  - split.
    + intros q Hq. rewrite !select_updated by assumption.
      rewrite String.eqb_refl, Es.
      destruct (String.eqb q p); reflexivity.
    + unfold update_parameter. rewrite Hp, Hv. repeat split.
  - assert (select_parameter p (insert_parameter_text p v db) = Some v) as E1.
    { rewrite select_inserted by assumption. now rewrite String.eqb_refl. }
    rewrite select_inserted_again by assumption. split.
    + intros q Hq. now apply select_inserted.
    + unfold insert_parameter_text. rewrite Hp, Hv. cbn [andb].
      unfold insert_parameter.
      destruct (table_exists "deployment_data" (schema db)
                && negb (existsb (fun r => String.eqb (fst r) p)
                           (tbl_deployment_data db))); repeat split.
Qed.

(** X24.  Storing and reading back the image adjustments of a camera.  On an
    open store with a [deployment_data] table, for a camera of the
    snapshot whose MAC address holds no apostrophe and no NUL, and
    adjustments that [base64] encodes to such a text and decodes back:
    [setImageAdjustments] returns, and [getImageAdjustments] then gives
    the adjustments back, for the camera and for every camera with the
    same MAC address (the parameter is named after the address, so
    cameras without one share their adjustments).  Every other plain
    parameter of [deployment_data], and so the adjustments of a camera
    with another address, reads as before; nothing else in the store
    changes.  A camera that is not in the snapshot makes both methods
    raise [KeyError]. *)
Theorem adjustments_round_trip (camera adjustments : string)
    (self : Metadata) (db : Store) (info : CameraInfo) :
  connected self = true ->
  PyDict.get camera (cameras self) = Some info ->
  plain (mac_address info) = true ->
  table_exists "deployment_data" (schema db) = true ->
  plain (b64encode adjustments) = true ->
  b64decode (b64encode adjustments) = Some adjustments ->
  let r := setImageAdjustments camera adjustments self db in
  fst r = Ok tt
  /\ (forall camera' info',
        PyDict.get camera' (cameras self) = Some info' ->
        mac_address info' = mac_address info ->
        getImageAdjustments camera' self (snd r) = Ok (Some adjustments))
  /\ (forall camera' info',
        PyDict.get camera' (cameras self) = Some info' ->
        mac_address info' <> mac_address info ->
        plain (mac_address info') = true ->
        getImageAdjustments camera' self (snd r)
        = getImageAdjustments camera' self db)
  /\ (forall q,
        plain q = true -> q <> (mac_address info ++ "_adjustments")%string ->
        select_parameter q (snd r) = select_parameter q db)
  /\ recorded (snd r) = recorded db /\ tbl_images (snd r) = tbl_images db
  /\ schema (snd r) = schema db
  /\ (forall camera',
        PyDict.get camera' (cameras self) = None ->
        setImageAdjustments camera' adjustments self db = (Raise KeyError, db)
        /\ getImageAdjustments camera' self db = Raise KeyError).
Proof.
  intros Hc Hcam Hmac Ht Hv Hdec r.
  set (p := (mac_address info ++ "_adjustments")%string).
  assert (plain p = true) as Hp by (apply plain_append; [exact Hmac | reflexivity]).
  destruct (parameters_after_set p (b64encode adjustments) db Hp Hv Ht)
    as (Hsel & Hrec & Himg & Hsch).
  assert (r = (Ok tt,
               match select_parameter p db with
               | Some _ =>
                   run_twice (update_parameter p (b64encode adjustments)) db
               | None =>
                   run_twice (insert_parameter_text p (b64encode adjustments))
                     db
               end)) as Er.
  { subst r. unfold setImageAdjustments, adjustments_parameter.
    rewrite Hc, Hcam. cbn [negb]. fold p.
    now destruct (select_parameter p db). }
  rewrite Er. cbn [fst snd].
  split; [reflexivity|]. split; [|split; [|split; [|split; [|split; [|split]]]]].
  - intros camera' info' Hcam' Hsame.
    unfold getImageAdjustments, adjustments_parameter.
    rewrite Hc, Hcam', Hsame. cbn [negb]. fold p.
    rewrite (Hsel p Hp), String.eqb_refl, Hdec. reflexivity.
  - intros camera' info' Hcam' Hother Hmac'.
    unfold getImageAdjustments, adjustments_parameter.
    rewrite Hc, Hcam'. cbn [negb].
    assert (plain (mac_address info' ++ "_adjustments") = true) as Hp'
      by (apply plain_append; [exact Hmac' | reflexivity]).
    rewrite (Hsel _ Hp').
    destruct (String.eqb (mac_address info' ++ "_adjustments") p) eqn:E;
      [|reflexivity].
    apply String.eqb_eq in E. apply append_same_suffix in E. contradiction.
  - intros q Hq Hne. rewrite (Hsel q Hq).
    destruct (String.eqb q p) eqn:E; [|reflexivity].
    apply String.eqb_eq in E. contradiction.
  - exact Hrec.
  - exact Himg.
  - exact Hsch.
  - intros camera' Hnone.
    unfold setImageAdjustments, getImageAdjustments, adjustments_parameter.
    rewrite Hc, Hnone. split; reflexivity.
Qed.

End AdjustmentFacts.

(** ** The maximum depth *)

Section DepthMaximum.
Context {RT : Runtime}.
Hypothesis ltb_irrefl : forall a, float_ltb a a = false.
Hypothesis ltb_trans :
  forall a b c, float_ltb a b = true -> float_ltb b c = true ->
                float_ltb a c = true.

Lemma depth_step_bound parseChar depthFieldNum acc item :
  (forall frame d, PyDict.get frame (snd acc) = Some (Some d) ->
     float_ltb (snd (fst acc)) d = false) ->
  forall frame d,
    PyDict.get frame (snd (depth_step parseChar depthFieldNum acc item))
    = Some (Some d) ->
    float_ltb (snd (fst (depth_step parseChar depthFieldNum acc item))) d
    = false.
Proof.
  destruct acc as [[mn mx] depths], item as [f0 data]. cbn [fst snd].
  intros Hinv frame d. unfold depth_step.
  assert (forall v mx',
            (forall x, v = Some x -> float_ltb mx' x = false) ->
            (forall x, float_ltb mx x = false -> float_ltb mx' x = false) ->
            PyDict.get frame (PyDict.set f0 v depths) = Some (Some d) ->
            float_ltb mx' d = false) as Hset.
  { intros v mx' Hnew Hold Hg. destruct (Z.eq_dec f0 frame) as [->|Hne].
    - rewrite PyDictFacts.get_set_same in Hg. injection Hg as ->.
      now apply Hnew.
    - rewrite PyDictFacts.get_set_other in Hg by exact Hne.
      apply Hold. now apply (Hinv frame). }
  destruct (parse_depth parseChar depthFieldNum data) as [depth|].
  - destruct (float_ltb mx depth) eqn:E1; cbn [fst snd].
    + apply Hset.
      * intros x [= <-]. apply ltb_irrefl.
      * intros x Hx. destruct (float_ltb depth x) eqn:E2; [|reflexivity].
        rewrite (ltb_trans _ _ _ E1 E2) in Hx. discriminate.
    + destruct (float_ltb depth mn); cbn [fst snd]; apply Hset; auto;
        intros x [= <-]; exact E1.
  - cbn [fst snd]. apply Hset; [discriminate | auto].
Qed.

Lemma depth_step_attained parseChar depthFieldNum acc item (l : list (Z * string)) :
  (snd (fst acc) = float_of_Z (-999999)
   \/ exists frame data,
        In (frame, data) l
        /\ parse_depth parseChar depthFieldNum data = Some (snd (fst acc))) ->
  snd (fst (depth_step parseChar depthFieldNum acc item)) = float_of_Z (-999999)
  \/ exists frame data,
       In (frame, data) (l ++ [item])
       /\ parse_depth parseChar depthFieldNum data
          = Some (snd (fst (depth_step parseChar depthFieldNum acc item))).
Proof.
  destruct acc as [[mn mx] depths], item as [f0 data]. cbn [fst snd].
  intros Hinv.
  assert (mx = float_of_Z (-999999)
          \/ exists frame data0,
               In (frame, data0) (l ++ [(f0, data)])
               /\ parse_depth parseChar depthFieldNum data0 = Some mx) as Hold.
  { destruct Hinv as [H|(frame & data0 & Hin & Hp)]; [left; exact H|].
    right. exists frame, data0. split; [|exact Hp].
    apply in_app_iff. left. exact Hin. }
  unfold depth_step.
  destruct (parse_depth parseChar depthFieldNum data) as [depth|] eqn:Ep;
    [|exact Hold].
  destruct (float_ltb mx depth); cbn [fst snd].
  - right. exists f0, data. split; [|exact Ep].
    apply in_app_iff. right. left. reflexivity.
  - destruct (float_ltb depth mn); exact Hold.
Qed.

Lemma depth_fold_attained parseChar depthFieldNum (l done : list (Z * string))
    acc :
  (snd (fst acc) = float_of_Z (-999999)
   \/ exists frame data,
        In (frame, data) done
        /\ parse_depth parseChar depthFieldNum data = Some (snd (fst acc))) ->
  let r := fold_left (depth_step parseChar depthFieldNum) l acc in
  snd (fst r) = float_of_Z (-999999)
  \/ exists frame data,
       In (frame, data) (done ++ l)
       /\ parse_depth parseChar depthFieldNum data = Some (snd (fst r)).
Proof.
  revert done acc. induction l as [|item l IH]; intros done acc H; simpl.
  - now rewrite app_nil_r.
  - replace (done ++ item :: l) with ((done ++ [item]) ++ l)
      by (rewrite <- app_assoc; reflexivity).
    apply IH. now apply depth_step_attained.
Qed.

Lemma keys_fold_depths parseChar depthFieldNum (l : list (Z * string))
    (d : dict Z (option float)) frame :
  In frame
    (PyDict.keys
       (fold_left
          (fun d item =>
             PyDict.set (fst item)
               (parse_depth parseChar depthFieldNum (snd item)) d) l d))
  <-> In frame (PyDict.keys d) \/ In frame (map fst l).
Proof.
  revert d. induction l as [|[f0 data] l IH]; intros d; simpl; [tauto|].
  rewrite IH, In_keys_set. intuition auto.
Qed.

(** X17.  The maximum [getDepths] returns is right, under the two laws of
    [<] on floats it relies on (no float is below itself; below is
    transitive): no depth in the mapping it returns is above the maximum,
    and the maximum is the starting value -999999 or the depth parsed
    from one of the datagrams.  The mapping has an entry, a depth or
    [None], for exactly the frames that have a datagram under the sensor
    id and header asked for. *)
Theorem getDepths_maximum (sd : dict string SensorEntry)
    (depthSensorID depthSensorHeader : string) (depthFieldNum : Z)
    (parseChar : string) :
  let r := depths_of sd depthSensorID depthSensorHeader depthFieldNum
             parseChar in
  (forall frame d,
     PyDict.get frame (snd r) = Some (Some d) ->
     float_ltb (snd (fst r)) d = false)
  /\ (forall e frames,
        PyDict.get depthSensorID sd = Some e ->
        PyDict.get depthSensorHeader (se_headers e) = Some frames ->
        (forall frame,
           In frame (PyDict.keys (snd r)) <-> In frame (PyDict.keys frames))
        /\ (snd (fst r) = float_of_Z (-999999)
            \/ exists frame data,
                 In (frame, data) frames
                 /\ parse_depth parseChar depthFieldNum data
                    = Some (snd (fst r)))).
Proof.
  intros r. subst r. unfold depths_of. split.
  - destruct (PyDict.get depthSensorID sd) as [e|]; [|discriminate].
    destruct (PyDict.get depthSensorHeader (se_headers e)) as [frames|];
      [|discriminate].
    apply (fold_left_keeps (depth_step parseChar depthFieldNum)
             (fun acc =>
                forall frame d,
                  PyDict.get frame (snd acc) = Some (Some d) ->
                  float_ltb (snd (fst acc)) d = false)).
    + intros acc item Hinv. now apply depth_step_bound.
    + discriminate.
  - intros e frames -> ->. split.
    + intros frame. rewrite depth_fold, keys_fold_depths. simpl.
      unfold PyDict.items, PyDict.keys. tauto.
    + apply (depth_fold_attained parseChar depthFieldNum (PyDict.items frames)
               [] depths_start).
      left. reflexivity.
Qed.

End DepthMaximum.

(** ** What [open] keeps and what it provides *)

Section OpenMore.
Context {RT : Runtime}.

Lemma fold_left_keeps_in {A B} (f : A -> B -> A) (P : A -> Prop)
    (l : list B) (a : A) :
  (forall a b, In b l -> P a -> P (f a b)) -> P a -> P (fold_left f l a).
Proof.
  revert a. induction l as [|b l IH]; intros a Hf Ha; simpl; [exact Ha|].
  apply IH.
  - intros a' b' Hb'. apply Hf. right. exact Hb'.
  - apply Hf; [left; reflexivity | exact Ha].
Qed.

Lemma recorded_insert_parameter p v db :
  recorded (insert_parameter p v db) = recorded db.
Proof.
  unfold insert_parameter.
  now destruct (table_exists "deployment_data" (schema db)
                && negb (existsb (fun r => String.eqb (fst r) p)
                           (tbl_deployment_data db))).
Qed.

Lemma recorded_migrate_table db t : recorded (migrate_table db t) = recorded db.
Proof.
  unfold migrate_table. destruct (in_tables (fst t) (schema db));
    [reflexivity|].
  destruct (String.eqb (fst t) "deployment_data");
    [rewrite recorded_insert_parameter|]; reflexivity.
Qed.

Lemma recorded_default_rows c db : recorded (default_rows c db) = recorded db.
Proof.
  unfold default_rows.
  destruct (same_name (fst c) "images" && table_exists "images" (schema db));
    [|reflexivity].
  destruct (String.eqb (snd c) "still_image").
  - unfold recorded. simpl. now rewrite map_map.
  - destruct (String.eqb (snd c) "discarded"); [|reflexivity].
    unfold recorded. simpl. now rewrite map_map.
Qed.

Lemma recorded_migrate_column db c :
  recorded (migrate_column db c) = recorded db.
Proof.
  unfold migrate_column. destruct (has_column (fst c) (snd c) (schema db));
    [reflexivity|].
  rewrite <- (recorded_default_rows c db). reflexivity.
Qed.

Lemma recorded_migrate db : recorded (migrate db) = recorded db.
Proof.
  unfold migrate.
  apply (fold_left_keeps migrate_column (fun a => recorded a = recorded db)).
  - intros a c H. now rewrite recorded_migrate_column.
  - apply (fold_left_keeps migrate_table (fun a => recorded a = recorded db)).
    + intros a t H. now rewrite recorded_migrate_table.
    + reflexivity.
Qed.

(** The parameters only grow. *)
Lemma parameters_insert p v db :
  exists added,
    tbl_deployment_data (insert_parameter p v db)
    = tbl_deployment_data db ++ added.
Proof.
  unfold insert_parameter.
  destruct (table_exists "deployment_data" (schema db)
            && negb (existsb (fun r => String.eqb (fst r) p)
                       (tbl_deployment_data db))).
  - exists [(p, v)]. reflexivity.
  - exists []. now rewrite app_nil_r.
Qed.

Lemma parameters_migrate db :
  exists added,
    tbl_deployment_data (migrate db) = tbl_deployment_data db ++ added.
Proof.
  unfold migrate.
  apply (fold_left_keeps migrate_column
           (fun a => exists added,
              tbl_deployment_data a = tbl_deployment_data db ++ added)).
  - intros a c H. unfold migrate_column.
    destruct (has_column (fst c) (snd c) (schema a)); [exact H|].
    unfold default_rows.
    destruct (same_name (fst c) "images" && table_exists "images" (schema a));
      [|exact H].
    destruct (String.eqb (snd c) "still_image"); [exact H|].
    destruct (String.eqb (snd c) "discarded"); exact H.
  - apply (fold_left_keeps migrate_table
             (fun a => exists added,
                tbl_deployment_data a = tbl_deployment_data db ++ added)).
    + intros a t [added H]. unfold migrate_table.
      destruct (in_tables (fst t) (schema a)); [now exists added|].
      destruct (String.eqb (fst t) "deployment_data"); [|now exists added].
      destruct (parameters_insert "hours_offset_to_utc" "0"
                  (with_schema (create_table (fst t) (snd t) (schema a)) a))
        as [more Hm].
      exists (added ++ more). rewrite Hm. simpl. rewrite H.
      now rewrite app_assoc.
    + exists []. now rewrite app_nil_r.
Qed.

(** A column that is there stays there through the checks. *)
Lemma has_column_ensure_table table column sch t :
  has_column table column sch = true ->
  has_column table column (ensure_table sch t) = true.
Proof.
  intros H. unfold ensure_table, create_table.
  destruct (in_tables (fst t) sch); [exact H|].
  destruct (table_exists (fst t) sch); [exact H|].
  unfold has_column in *. rewrite existsb_app, H. reflexivity.
Qed.

Lemma has_column_ensure_column table column sch c :
  has_column table column sch = true ->
  has_column table column (ensure_column sch c) = true.
Proof.
  intros H. unfold ensure_column.
  destruct (has_column (fst c) (snd c) sch); [exact H|].
  now apply has_column_kept.
Qed.

Lemma has_column_ensureSchema table column sch :
  has_column table column sch = true ->
  has_column table column (ensureSchema sch) = true.
Proof.
  intros H. unfold ensureSchema.
  apply (fold_left_keeps ensure_column
           (fun a => has_column table column a = true)).
  - intros a c Ha. now apply has_column_ensure_column.
  - apply (fold_left_keeps ensure_table
             (fun a => has_column table column a = true)).
    + intros a t Ha. now apply has_column_ensure_table.
    + exact H.
Qed.

Lemma table_exists_ensureSchema name sch :
  table_exists name sch = true -> table_exists name (ensureSchema sch) = true.
Proof.
  intros H. unfold ensureSchema.
  apply (fold_left_keeps ensure_column
           (fun a => table_exists name a = true)).
  - intros a c Ha. now rewrite table_exists_ensure_column.
  - apply (fold_left_keeps ensure_table
             (fun a => table_exists name a = true)).
    + intros a t Ha. now apply table_exists_kept_by_table.
    + exact H.
Qed.

(** The flags of the images are kept when their column was there. *)
Lemma flags_migrate (column : string) (flag : ImageRow -> option Z) db :
  (forall c a, snd c <> column ->
     map flag (tbl_images (default_rows c a)) = map flag (tbl_images a)) ->
  (forall c, In c new_columns -> snd c = column -> fst c = "images") ->
  has_column "images" column (schema db) = true ->
  map flag (tbl_images (migrate db)) = map flag (tbl_images db).
Proof.
  intros Hdef Hcol Hhas. unfold migrate.
  assert (forall a t,
            has_column "images" column (schema a) = true
            /\ map flag (tbl_images a) = map flag (tbl_images db) ->
            has_column "images" column (schema (migrate_table a t)) = true
            /\ map flag (tbl_images (migrate_table a t))
               = map flag (tbl_images db)) as Htable.
  { intros a t [H1 H2]. split.
    - rewrite schema_migrate_table. now apply has_column_ensure_table.
    - pose proof (recorded_migrate_table a t) as Hr. unfold migrate_table in *.
      destruct (in_tables (fst t) (schema a)); [exact H2|].
      destruct (String.eqb (fst t) "deployment_data"); [|exact H2].
      unfold insert_parameter.
      destruct (table_exists "deployment_data"
                  (schema (with_schema
                             (create_table (fst t) (snd t) (schema a)) a))
                && negb (existsb
                           (fun r => String.eqb (fst r) "hours_offset_to_utc")
                           (tbl_deployment_data
                              (with_schema
                                 (create_table (fst t) (snd t) (schema a)) a))));
        exact H2. }
  apply (fold_left_keeps_in migrate_column
           (fun a => has_column "images" column (schema a) = true
                     /\ map flag (tbl_images a) = map flag (tbl_images db))).
  - intros a c Hin [H1 H2]. split.
    + rewrite schema_migrate_column. now apply has_column_ensure_column.
    + unfold migrate_column.
      destruct (has_column (fst c) (snd c) (schema a)) eqn:E; [exact H2|].
      simpl. destruct (string_dec (snd c) column) as [Heq|Hne].
      * rewrite (Hcol c Hin Heq), Heq, H1 in E. discriminate.
      * now rewrite Hdef.
  - apply (fold_left_keeps migrate_table
             (fun a => has_column "images" column (schema a) = true
                       /\ map flag (tbl_images a) = map flag (tbl_images db)));
      [exact Htable | split; [exact Hhas | reflexivity]].
Qed.

Lemma open_store_cases fs path name self db :
  isfile fs (dbFile fs path) = true ->
  let db' := snd (snd (open fs true path name (self, db))) in
  schema db' = ensureSchema (schema db)
  /\ recorded db' = recorded db
  /\ tbl_images db' = tbl_images (migrate db)
  /\ exists added,
       tbl_deployment_data db' = tbl_deployment_data db ++ added.
Proof.
  intros Hf db'. subst db'. rewrite open_store by exact Hf.
  pose proof (schema_migrate db) as Hs.
  pose proof (recorded_migrate db) as Hr.
  destruct (parameters_migrate db) as [added Hadd].
  revert Hs Hr Hadd. generalize (migrate db). intros m Hs Hr Hadd.
  destruct (image_file_type_cases fs path m) as [E|(t & _ & _ & E)];
    rewrite E; cbn [snd].
  - split; [exact Hs|]. split; [exact Hr|].
    split; [reflexivity | now exists added].
  - split; [exact Hs|]. split; [exact Hr|]. split; [reflexivity|].
    exists (added ++ [("image_file_type", drop_first t)]).
    cbn [tbl_deployment_data with_tbl_deployment_data].
    rewrite Hadd. now rewrite app_assoc.
Qed.

(** X18.  Opening a store loses nothing.  The rows of [cameras], [dropped],
    [sensor_data], [async_data] and [marks] are the ones that were
    there; the images are the same, with their number, camera, time and
    name; their [discarded] and [still_image] flags are kept when the
    column was there; the parameters of [deployment_data] are kept and
    at most added to. *)
Theorem open_keeps_rows fs path name self db :
  isfile fs (dbFile fs path) = true ->
  let db' := snd (snd (open fs true path name (self, db))) in
  tbl_cameras db' = tbl_cameras db
  /\ tbl_dropped db' = tbl_dropped db
  /\ tbl_sensor_data db' = tbl_sensor_data db
  /\ tbl_async_data db' = tbl_async_data db
  /\ tbl_marks db' = tbl_marks db
  /\ map (fun r => (img_number r, img_camera r, img_time r, img_name r))
        (tbl_images db')
     = map (fun r => (img_number r, img_camera r, img_time r, img_name r))
         (tbl_images db)
  /\ (has_column "images" "discarded" (schema db) = true ->
      map img_discarded (tbl_images db') = map img_discarded (tbl_images db))
  /\ (has_column "images" "still_image" (schema db) = true ->
      map img_still_image (tbl_images db')
      = map img_still_image (tbl_images db))
  /\ (exists added,
        tbl_deployment_data db' = tbl_deployment_data db ++ added).
Proof.
  intros Hf db'.
  destruct (open_store_cases fs path name self db Hf)
    as (_ & Hrec & Himg & Hadd).
  fold db' in Hrec, Himg, Hadd. unfold recorded in Hrec.
  injection Hrec as H1 H2 H3 H4 H5 H6.
  repeat (split; [assumption|]).
  split; [|split; [|exact Hadd]].
  - intros Hcol. rewrite Himg.
    apply flags_migrate with (column := "discarded"); [| |exact Hcol].
    + intros c a Hne. unfold default_rows.
      destruct (same_name (fst c) "images"
                && table_exists "images" (schema a)); [|reflexivity].
      destruct (String.eqb (snd c) "still_image");
        [simpl; now rewrite map_map|].
      destruct (String.eqb (snd c) "discarded") eqn:E; [|reflexivity].
      apply String.eqb_eq in E. contradiction.
    + intros c Hin. unfold new_columns in Hin. simpl in Hin.
      repeat (destruct Hin as [<-|Hin]; [simpl; try discriminate; auto|]).
      destruct Hin.
  - intros Hcol. rewrite Himg.
    apply flags_migrate with (column := "still_image"); [| |exact Hcol].
    + intros c a Hne. unfold default_rows.
      destruct (same_name (fst c) "images"
                && table_exists "images" (schema a)); [|reflexivity].
      destruct (String.eqb (snd c) "still_image") eqn:E.
      * apply String.eqb_eq in E. contradiction.
      * destruct (String.eqb (snd c) "discarded"); [|reflexivity].
        simpl. now rewrite map_map.
    + intros c Hin. unfold new_columns in Hin. simpl in Hin.
      repeat (destruct Hin as [<-|Hin]; [simpl; try discriminate; auto|]).
      destruct Hin.
Qed.

(** X19.  After a successful [open] the schema is the current one: the five
    tables of the migration exist; each of its eight columns is there
    whenever its table is; whatever table or column existed before still
    does.  In particular a store that has an [images] table has, once
    opened, the [still_image] and [discarded] columns that the image
    statement of [query] and the update of [setDiscarded] name. *)
Theorem open_provides_schema fs path name self db :
  isfile fs (dbFile fs path) = true ->
  let sch' := schema (snd (snd (open fs true path name (self, db)))) in
  (forall t, In t new_tables -> table_exists (fst t) sch' = true)
  /\ (forall c, In c new_columns -> table_exists (fst c) sch' = true ->
        has_column (fst c) (snd c) sch' = true)
  /\ (forall t, table_exists t (schema db) = true ->
        table_exists t sch' = true)
  /\ (forall t c, has_column t c (schema db) = true ->
        has_column t c sch' = true)
  /\ (table_exists "images" (schema db) = true ->
      has_column "images" "still_image" sch' = true
      /\ has_column "images" "discarded" sch' = true).
Proof.
  intros Hf sch'.
  destruct (open_store_cases fs path name self db Hf) as (Hs & _).
  fold sch' in Hs. rewrite Hs. clear Hs sch'.
  destruct (ensureSchema_settled (schema db)) as [Ht Hc].
  assert (forall c, In c new_columns ->
            table_exists (fst c) (ensureSchema (schema db)) = true ->
            has_column (fst c) (snd c) (ensureSchema (schema db)) = true)
    as Hcol.
  { intros c Hin Hex. destruct (Hc c Hin) as [H|H]; [exact H|].
    rewrite H in Hex. discriminate. }
  split; [exact Ht|]. split; [exact Hcol|].
  split; [intros t; apply table_exists_ensureSchema|].
  split; [intros t c; apply has_column_ensureSchema|].
  intros Himg. apply table_exists_ensureSchema in Himg. split.
  - apply (Hcol ("images", "still_image")); [|exact Himg].
    unfold new_columns. simpl. tauto.
  - apply (Hcol ("images", "discarded")); [|exact Himg].
    unfold new_columns. simpl. tauto.
Qed.

End OpenMore.

(** * Runs on concrete stores *)

Import Fixture.

(** The two-camera store loads; the object afterwards. *)
Example query_two_cameras :
  let r := query two_cameras None None false opened in
  fst r = Ok tt
  /\ PyDict.keys (cameras (snd r)) = ["Left"; "Right"]
  /\ startImage (snd r) = 1 /\ endImage (snd r) = 3
  /\ marks (snd r) = [(2, "net in water")].
Proof. vm_compute. repeat split. Qed.

(** The stored offset is "2": a frame recorded at 19:46:18 has the UTC
    time 21:46:18. *)
Example query_utc_offset :
  let s := snd (query two_cameras None None false opened) in
  match PyDict.get "Left" (imageData s) with
  | Some d =>
      option_map (fun e => (strftime (fst (fst e)), strftime (snd (fst e))))
        (PyDict.get 1 d)
  | None => None
  end
  = Some ("2021-02-18 19:46:18", "2021-02-18 21:46:18").
Proof. vm_compute. reflexivity. Qed.

(** C1.  Two cameras with the frames 1, 2 and 2, 3: the only frame they
    share is 2, and the index [query] builds is 2, 3, the frames of the
    camera iterated last.  The intersection computed in the loop over the
    other cameras is never stored. *)
Theorem imageNumbers_not_intersection :
  let r := query two_cameras None None false opened in
  fst r = Ok tt
  /\ imageNumbers (snd r) = [2; 3]
  /\ spec_common_image_numbers two_cameras false None None = [2].
Proof. vm_compute. repeat split. Qed.

(** With one camera the index is the list of its frames. *)
Example imageNumbers_one_camera :
  let r := query one_camera None None false opened in
  fst r = Ok tt
  /\ imageNumbers (snd r) = [1; 2; 3]
  /\ spec_common_image_numbers one_camera false None None = [1; 2; 3].
Proof. vm_compute. repeat split. Qed.

(** Outside the stores of counted frames: were a frame numbered -1 the
    first one met, it would be taken for "not assigned yet" and
    [startImage] would end as the next frame, 5. *)
Lemma startImage_minus_one_overwritten :
  ~ first_and_last_seen frame_minus_one None None false opened.
Proof.
  intros H.
  assert (fst (query frame_minus_one None None false opened) = Ok tt) as E
    by (vm_compute; reflexivity).
  destruct (H (snd (query frame_minus_one None None false opened)))
    as [Hs _].
  - rewrite <- E. apply surjective_pairing.
  - vm_compute. discriminate.
  - vm_compute in Hs. discriminate.
Qed.

Lemma startImage_endImage_order_witness :
  connected opened = true
  /\ (forall r, In r (tbl_images two_cameras) -> img_number r <> -1)
  /\ first_and_last_seen two_cameras None None false opened.
Proof.
  assert (forall r, In r (tbl_images two_cameras) -> img_number r <> -1)
    as H.
  { intros r Hr. vm_compute in Hr.
    repeat (destruct Hr as [<-|Hr]; [vm_compute; discriminate|]).
    destruct Hr. }
  split; [reflexivity|]. split; [exact H|].
  apply (startImage_endImage_order two_cameras None None false opened);
    [reflexivity | exact H].
Defined.

(** The run behind it: the cameras are met in the order Left, Right, with
    the frames 1, 2 and 2, 3; [startImage] is 1 and [endImage] is 3. *)
Example startImage_endImage_two_cameras :
  encountered two_cameras false None None = [1; 2; 2; 3]
  /\ startImage (snd (query two_cameras None None false opened)) = 1
  /\ endImage (snd (query two_cameras None None false opened)) = 3.
Proof. repeat split; vm_compute; reflexivity. Qed.

(** C3.  One dropped frame, number 7: there is one distinct dropped
    frame number, and [nDroppedImages] is 7, the number itself. *)
Theorem nDroppedImages_is_frame_number :
  let r := query two_cameras None None false opened in
  fst r = Ok tt
  /\ nDroppedImages (snd r) = 7
  /\ List.length (distinct (map drp_number (tbl_dropped two_cameras))) = 1%nat.
Proof. vm_compute. repeat split. Qed.

Lemma location_first_fix_wins_witness :
  PyDict.get (match_sensor_id gps_data "gps") gps_data = Some gps_entry
  /\ se_times gps_entry = []
  /\ (exists b locations,
        locations_of gps_data "gps" = Ok (b, locations)
        /\ PyDict.mem 3 locations = true
        /\ (forall more,
              PyDict.get 3 locations
              = PyDict.get 3
                  (snd (fold_left location_step more (b, locations))))).
Proof.
  split; [reflexivity|]. split; [reflexivity|].
  destruct (proj1 (location_first_fix_wins gps_data "gps"
                     (e := gps_entry) eq_refl eq_refl))
    as (b & locations & E & _ & _ & Hkeep & Hone & _).
  assert (PyDict.mem 3 locations = true) as Hm.
  { apply (Hone 3 "$fix,quality=1"
             (mkNmeaMsg (Some (576 # 10)) (Some (-1522 # 10)) None (Some 1))
             (576 # 10) (-1522 # 10)); try reflexivity.
    simpl. auto. }
  exists b, locations. split; [exact E|]. split; [exact Hm|].
  intros more. unfold PyDict.mem in Hm.
  destruct (PyDict.get 3 locations) as [loc|] eqn:Hg; [|discriminate].
  symmetry. now apply Hkeep.
Defined.

Example query_loads_gps :
  PyDict.get "GPS" (sensorData (snd (query two_cameras None None false opened)))
  = Some gps_entry.
Proof. reflexivity. Qed.

(** Frame 2 has a quality-0 datagram and then an active one: it gets the
    second.  Frame 3 has a quality-1 datagram and then an active one: it
    keeps the first. *)
Example getLocations_two_cameras :
  option_map snd
    (match fst (getLocations two_cameras "gps"
                  (snd (query two_cameras None None false opened))) with
     | Ok r => Some r
     | _ => None
     end)
  = Some [(3, (576 # 10, -1522 # 10)); (2, (577 # 10, -1523 # 10))].
Proof. vm_compute. reflexivity. Qed.

Lemma query_not_connected_witness :
  connected (init (RT := RT)) = false
  /\ query two_cameras None None false init = (Ok tt, init).
Proof.
  split; [reflexivity|].
  apply (query_not_connected two_cameras None None false init). reflexivity.
Defined.

(** C6.  The example payload alone: the depth of its frame is 15.5 and
    the maximum is 15.5, but the minimum returned is the starting value
    999999, since a depth that raises the maximum is not compared with
    the minimum. *)
Theorem getDepths_minimum_missed :
  fst (getDepths two_cameras "CTControl" "$OHPR" 5 ","
         (snd (query two_cameras None None false opened)))
  = Ok (inject_Z 999999, 155 # 10, [(1, Some (155 # 10))]).
Proof. vm_compute. reflexivity. Qed.

(** C7.  A description with an apostrophe: [createMark 5 "a"] stores the
    mark; [createMark 5 "it's"] then deletes it and its own INSERT,
    [... VALUES(5,'it's')], is refused, so the store holds no mark at
    frame 5 while the snapshot holds "it's".  The mark the statement says
    is there, with the text of the second call, is not in the store. *)
Theorem createMark_apostrophe :
  let w1 := createMark 5 "a" (opened, one_camera) in
  let w2 := createMark 5 "it's" w1 in
  store_marks_at 5 (snd w1) = ["a"]
  /\ snapshot_marks_at 5 (fst w1) = ["a"]
  /\ store_marks_at 5 (snd w2) = []
  /\ snapshot_marks_at 5 (fst w2) = ["it's"]
  /\ ~ mark_replaced opened one_camera 5 "a" "it's".
Proof.
  cbv zeta. repeat split; try (vm_compute; reflexivity).
  intros [H _]. vm_compute in H. discriminate.
Qed.

Lemma createMark_twice_witness :
  connected opened = true /\ plain "haul back" = true
  /\ mark_replaced opened two_cameras 9 "net in water" "haul back".
Proof.
  split; [reflexivity|]. split; [reflexivity|].
  apply (createMark_twice opened two_cameras 9 "net in water" "haul back");
    reflexivity.
Defined.

Lemma open_twice_witness :
  isfile files (dbFile files "/data/D1") = true
  /\ (let r1 := open files true "/data/D1" "CTMetadata" (init, legacy) in
      let r2 := open files true "/data/D1" "CTMetadata" (snd r1) in
      fst r1 = Ok tt
      /\ fst r2 = Ok tt
      /\ schema (snd (snd r1)) = ensureSchema (schema legacy)
      /\ schema (snd (snd r2)) = schema (snd (snd r1))
      /\ snd (snd r2) = snd (snd r1)).
Proof.
  split; [reflexivity|].
  apply (open_twice files "/data/D1" "CTMetadata" init legacy). reflexivity.
Defined.

(** The first opening of the older store adds four tables and seven
    columns and records the image type. *)
Example open_legacy :
  let db := snd (snd (open files true "/data/D1" "CTMetadata" (init, legacy))) in
  map fst (schema db)
  = ["cameras"; "images"; "dropped"; "sensor_data"; "deployment_data";
     "videos"; "deployment"; "marks"; "async_data"]
  /\ tbl_deployment_data db = [("image_file_type", "jpg")].
Proof. vm_compute. split; reflexivity. Qed.

Lemma query_completes_only_with_frames_witness :
  connected opened = true
  /\ (forall s',
        query two_cameras None None false opened = (Ok tt, s') ->
        known_cameras two_cameras <> []
        /\ forall c, In c (known_cameras two_cameras) ->
             select_images two_cameras c false None None <> [])
  /\ ((known_cameras idle_camera = []
       \/ exists c, In c (known_cameras idle_camera)
                    /\ select_images idle_camera c false None None = []) ->
      exists e, fst (query idle_camera None None false opened) = Raise e).
Proof.
  split; [reflexivity|]. split.
  - apply (query_completes_only_with_frames two_cameras None None false
             opened). reflexivity.
  - apply (query_completes_only_with_frames idle_camera None None false
             opened). reflexivity.
Defined.

(** A camera whose only frame is discarded: the minimum over its empty
    set of frames raises.  No camera at all: the loop variable is read
    unbound. *)
Example query_idle_camera :
  fst (query idle_camera None None false opened) = Raise ValueError
  /\ select_images idle_camera "Right" false None None = [].
Proof. vm_compute. split; reflexivity. Qed.

Example query_no_camera :
  fst (query no_camera None None false opened) = Raise UnboundLocalError
  /\ known_cameras no_camera = [].
Proof. vm_compute. split; reflexivity. Qed.

Lemma removeMark_follows_snapshot_witness :
  let self := snd (query two_cameras None None false opened) in
  connected self = true
  /\ PyDict.mem 9 (marks self) = false
  /\ store_marks_at 9 two_cameras = ["haul back"]
  /\ removeMark 9 (self, two_cameras) = (self, two_cameras).
Proof.
  cbv zeta.
  assert (connected (snd (query two_cameras None None false opened)) = true)
    as Hc by (vm_compute; reflexivity).
  assert (PyDict.mem 9 (marks (snd (query two_cameras None None false opened)))
          = false) as Hm by (vm_compute; reflexivity).
  split; [exact Hc|]. split; [exact Hm|]. split; [reflexivity|].
  exact (proj1 (proj2 (removeMark_follows_snapshot _ two_cameras 9 Hc)) Hm).
Defined.

(** ** Runs of the further methods *)

Import Samples.

(** The run the following statements start from. *)
Lemma query_two_cameras_run :
  query two_cameras None None false opened
  = (Ok tt, snd (query two_cameras None None false opened)).
Proof.
  assert (fst (query two_cameras None None false opened) = Ok tt) as E
    by (vm_compute; reflexivity).
  rewrite <- E. apply surjective_pairing.
Qed.

(** From frame 2, which is marked, the next mark is the one at frame 9;
    from frame 9 the previous one is at frame 2. *)
Example findNextMark_two_cameras :
  findNextMark 2 opened two_cameras = Mark 9 "haul back"
  /\ findPreviousMark 9 opened two_cameras = Mark 2 "net in water"
  /\ findNextMark 9 opened two_cameras = NoMark.
Proof. repeat split. Qed.

Lemma findNextMark_nearest_witness :
  connected opened = true
  /\ match findNextMark 2 opened two_cameras with
     | NotConnected => False
     | NoMark => forall r, In r (tbl_marks two_cameras) -> fst r <= 2
     | Mark g d =>
         In (g, d) (tbl_marks two_cameras) /\ 2 < g
         /\ forall r, In r (tbl_marks two_cameras) -> 2 < fst r -> g <= fst r
     end.
Proof.
  split; [reflexivity|].
  apply (findNextMark_nearest 2 opened two_cameras). reflexivity.
Defined.

Lemma findPreviousMark_nearest_witness :
  connected opened = true
  /\ match findPreviousMark 9 opened two_cameras with
     | NotConnected => False
     | NoMark => forall r, In r (tbl_marks two_cameras) -> 9 <= fst r
     | Mark g d =>
         In (g, d) (tbl_marks two_cameras) /\ g < 9
         /\ forall r, In r (tbl_marks two_cameras) -> fst r < 9 -> fst r <= g
     end.
Proof.
  split; [reflexivity|].
  apply (findPreviousMark_nearest 9 opened two_cameras). reflexivity.
Defined.

Lemma mark_steps_return_witness :
  connected opened = true
  /\ In (2, "net in water") (tbl_marks two_cameras)
  /\ (forall g d, findNextMark 2 opened two_cameras = Mark g d ->
        exists d', findPreviousMark g opened two_cameras = Mark 2 d')
  /\ (forall g d, findPreviousMark 2 opened two_cameras = Mark g d ->
        exists d', findNextMark g opened two_cameras = Mark 2 d').
Proof.
  split; [reflexivity|]. split; [left; reflexivity|].
  apply (mark_steps_return 2 "net in water" opened two_cameras);
    [reflexivity | left; reflexivity].
Defined.

Lemma getAllMarks_ordered_witness :
  connected opened = true
  /\ exists m,
       getAllMarks opened two_cameras = Some m
       /\ (forall n, In n (PyDict.keys m)
                     <-> exists d, In (n, d) (tbl_marks two_cameras))
       /\ (forall n d, PyDict.get n m = Some d ->
             In (n, d) (tbl_marks two_cameras))
       /\ ascending (PyDict.keys m)
       /\ NoDup (PyDict.keys m).
Proof.
  split; [reflexivity|].
  apply (getAllMarks_ordered opened two_cameras). reflexivity.
Defined.

(** A mark created at frame 5 of the two-camera store. *)
Example createMark_then_found_run :
  let w := createMark 5 "cod" (opened, two_cameras) in
  findNextMark 4 (fst w) (snd w) = Mark 5 "cod"
  /\ findPreviousMark 6 (fst w) (snd w) = Mark 5 "cod"
  /\ option_map PyDict.keys (getAllMarks (fst w) (snd w)) = Some [2; 5; 9].
Proof. repeat split. Qed.

Lemma createMark_then_found_witness :
  connected opened = true /\ plain "cod" = true
  /\ (let w := createMark 5 "cod" (opened, two_cameras) in
      (exists d', findNextMark (5 - 1) (fst w) (snd w) = Mark 5 d'
                  /\ In d' (store_marks_at 5 (snd w)))
      /\ (exists d', findPreviousMark (5 + 1) (fst w) (snd w) = Mark 5 d'
                     /\ In d' (store_marks_at 5 (snd w)))
      /\ (exists m, getAllMarks (fst w) (snd w) = Some m
                    /\ In 5 (PyDict.keys m))
      /\ (PyDict.mem 5 (marks opened) = true
          \/ store_marks_at 5 two_cameras = [] ->
          store_marks_at 5 (snd w) = ["cod"])).
Proof.
  split; [reflexivity|]. split; [reflexivity|].
  apply (createMark_then_found 5 "cod" opened two_cameras); reflexivity.
Defined.

(** Discarding frame 2 of the two-camera store: the camera [Left] keeps
    frame 1 and the camera [Right] frame 3; un-discarding brings frame 2
    back on both. *)
Example setDiscarded_two_cameras :
  let w := setDiscarded 2 2 false (opened, two_cameras) in
  let w' := setDiscarded 2 2 true w in
  frames (snd w) false None None "Left" = [1]
  /\ frames (snd w) false None None "Right" = [3]
  /\ frames (snd w) true None None "Left" = [1; 2]
  /\ frames (snd w') false None None "Left" = [1; 2]
  /\ frames (snd w') false None None "Right" = [2; 3].
Proof. vm_compute. repeat split. Qed.

Lemma setDiscarded_hides_frames_witness :
  connected opened = true
  /\ has_column "images" "discarded" (schema two_cameras) = true
  /\ (let w := setDiscarded 2 2 false (opened, two_cameras) in
      fst w = opened
      /\ (forall c st et n,
            In n (frames (snd w) false st et c)
            <-> In n (frames two_cameras false st et c) /\ ~ 2 <= n <= 2)
      /\ (forall c st et n,
            In n (frames (snd w) true st et c)
            <-> In n (frames two_cameras true st et c))
      /\ (2 < 2 -> tbl_images (snd w) = tbl_images two_cameras)).
Proof.
  split; [reflexivity|]. split; [reflexivity|].
  apply (setDiscarded_hides_frames 2 2 opened two_cameras); reflexivity.
Defined.

Lemma setDiscarded_unset_restores_witness :
  connected opened = true
  /\ has_column "images" "discarded" (schema two_cameras) = true
  /\ (forall c st et n,
        In n (frames (snd (setDiscarded 2 2 true (opened, two_cameras)))
                false st et c)
        <-> (2 <= n <= 2 /\ In n (frames two_cameras true st et c))
            \/ (~ 2 <= n <= 2 /\ In n (frames two_cameras false st et c)))
  /\ (forall c st et n,
        In n (frames (snd (setDiscarded 2 2 true
                             (setDiscarded 2 2 false (opened, two_cameras))))
                false st et c)
        <-> In n (frames two_cameras false st et c)
            \/ (2 <= n <= 2 /\ In n (frames two_cameras true st et c))).
Proof.
  split; [reflexivity|]. split; [reflexivity|].
  apply (setDiscarded_unset_restores 2 2 opened two_cameras); reflexivity.
Defined.

(** Discarding the frames 1 to 2 and deleting: the image file of the
    camera [Left] goes, the database file stays. *)
Example discard_then_delete_run :
  let w := setDiscarded 1 2 false (opened_jpg, two_cameras) in
  option_map
    (fun fs' =>
       (isfile fs' "/data/D1/images/Left/img.jpg",
        isfile fs' "/data/D1/logs/CamTrawlMetadata.db3"))
    (deleteDiscardedImages (fst w) (snd w) image_files)
  = Some (false, true).
Proof. vm_compute. reflexivity. Qed.

Lemma deleteDiscardedImages_effect_witness :
  connected opened_jpg = true
  /\ exists fs',
       deleteDiscardedImages opened_jpg idle_camera image_files = Some fs'
       /\ normpath fs' = normpath image_files /\ sep fs' = sep image_files
       /\ forall q,
            isfile fs' q = true
            <-> isfile image_files q = true
                /\ forall r, In r (tbl_images idle_camera) ->
                     is_discarded r = true ->
                     q <> image_path image_files (deploymentPath opened_jpg)
                            ".jpg" r.
Proof.
  split; [reflexivity|].
  apply (deleteDiscardedImages_effect opened_jpg idle_camera image_files).
  reflexivity.
Defined.

Lemma discard_then_delete_witness :
  connected opened_jpg = true
  /\ has_column "images" "discarded" (schema two_cameras) = true
  /\ imageExtension opened_jpg = Some ".jpg"
  /\ (let w := setDiscarded 1 2 false (opened_jpg, two_cameras) in
      let path := image_path image_files (deploymentPath opened_jpg) ".jpg" in
      exists fs',
        deleteDiscardedImages (fst w) (snd w) image_files = Some fs'
        /\ (forall r, In r (tbl_images two_cameras) ->
              1 <= img_number r <= 2 -> isfile fs' (path r) = false)
        /\ (forall q, isfile fs' q = true -> isfile image_files q = true)
        /\ (forall q, isfile image_files q = true ->
              (forall r, In r (tbl_images two_cameras) ->
                 is_discarded r = true \/ 1 <= img_number r <= 2 ->
                 q <> path r) ->
              isfile fs' q = true)).
Proof.
  split; [reflexivity|]. split; [reflexivity|]. split; [reflexivity|].
  apply (discard_then_delete 1 2 opened_jpg two_cameras image_files);
    reflexivity.
Defined.

Lemma query_loads_filtered_frames_witness :
  let s' := snd (query two_cameras None None false opened) in
  connected opened = true
  /\ query two_cameras None None false opened = (Ok tt, s')
  /\ forall c, In c (known_cameras two_cameras) ->
       exists d,
         PyDict.get c (imageData s') = Some d
         /\ forall n,
              In n (PyDict.keys d)
              <-> exists r,
                    In r (tbl_images two_cameras) /\ img_number r = n
                    /\ img_camera r = c /\ is_still r = true
                    /\ (false = true \/ discardClause r = true)
                    /\ timeClause None None (img_time r) = true.
Proof.
  cbv zeta. split; [reflexivity|]. split; [exact query_two_cameras_run|].
  apply (query_loads_filtered_frames two_cameras None None false opened);
    [reflexivity | exact query_two_cameras_run].
Defined.

Lemma query_camera_registry_witness :
  let s' := snd (query two_cameras None None false opened) in
  connected opened = true
  /\ query two_cameras None None false opened = (Ok tt, s')
  /\ (tbl_cameras two_cameras <> [] ->
      PyDict.keys (cameras s')
      = distinct (map cam_camera (tbl_cameras two_cameras))
      /\ nCameras s' = Z.of_nat (List.length (tbl_cameras two_cameras))
      /\ forall c info,
           PyDict.get c (cameras s') = Some info ->
           exists row,
             In row (tbl_cameras two_cameras) /\ cam_camera row = c
             /\ info = mkCameraInfo (cam_mac_address row) (cam_model row)
                         (cam_label row) (orientation_of (cam_col4 row)))
  /\ (tbl_cameras two_cameras = [] ->
      PyDict.keys (cameras s')
      = distinct (map img_camera (tbl_images two_cameras))
      /\ nCameras s' = 1
      /\ forall c info,
           PyDict.get c (cameras s') = Some info ->
           info = mkCameraInfo "" "" "" 0).
Proof.
  cbv zeta. split; [reflexivity|]. split; [exact query_two_cameras_run|].
  apply (query_camera_registry two_cameras None None false opened);
    [reflexivity | exact query_two_cameras_run].
Defined.

Lemma query_forgets_snapshot_witness :
  connected opened_marked = true
  /\ deploymentPath opened_marked = deploymentPath opened
  /\ dbFilename opened_marked = dbFilename opened
  /\ imageExtension opened_marked = imageExtension opened
  /\ dbConnectionName opened_marked = dbConnectionName opened
  /\ query two_cameras None None false opened_marked
     = query two_cameras None None false opened.
Proof.
  split; [reflexivity|]. split; [reflexivity|]. split; [reflexivity|].
  split; [reflexivity|]. split; [reflexivity|].
  apply (query_forgets_snapshot two_cameras None None false
           opened_marked opened); reflexivity.
Defined.

Lemma query_idempotent_witness :
  let s' := snd (query two_cameras None None false opened) in
  connected opened = true
  /\ query two_cameras None None false opened = (Ok tt, s')
  /\ query two_cameras None None false s' = (Ok tt, s').
Proof.
  cbv zeta. split; [reflexivity|]. split; [exact query_two_cameras_run|].
  apply (query_idempotent two_cameras None None false opened);
    [reflexivity | exact query_two_cameras_run].
Defined.

Lemma query_empty_store_raises_witness :
  connected opened_marked = true
  /\ tbl_cameras no_camera = [] /\ tbl_images no_camera = []
  /\ tbl_dropped no_camera = []
  /\ (let r := query no_camera None None false opened_marked in
      fst r = Raise UnboundLocalError
      /\ opened_as (snd r) = opened_as opened_marked
      /\ cameras (snd r) = [] /\ imageData (snd r) = []
      /\ imageNumbers (snd r) = [] /\ marks (snd r) = []
      /\ sensorData (snd r) = [] /\ asyncData (snd r) = []
      /\ startImage (snd r) = -1 /\ endImage (snd r) = 0
      /\ startTime (snd r) = None /\ endTime (snd r) = None
      /\ nCameras (snd r) = 1
      /\ deploymentData (snd r)
         = PyDict.of_list (tbl_deployment_data no_camera)).
Proof.
  split; [reflexivity|]. split; [reflexivity|]. split; [reflexivity|].
  split; [reflexivity|].
  apply (query_empty_store_raises no_camera None None false opened_marked);
    reflexivity.
Defined.

Lemma resolvers_use_snapshot_witness :
  let s := snd (query two_cameras None None false opened) in
  connected opened = true
  /\ query two_cameras None None false opened = (Ok tt, s)
  /\ getTimespan no_camera s = (Ok (startTime s, endTime s), s)
  /\ (forall i h n p,
        getDepths no_camera i h n p s
        = (Ok (depths_of (sensorData s) i h n p), s))
  /\ (forall id,
        snd (getLocations no_camera id s) = s
        /\ getLocations no_camera id s = getLocations two_cameras id s).
Proof.
  cbv zeta. split; [reflexivity|]. split; [exact query_two_cameras_run|].
  apply (resolvers_use_snapshot two_cameras None None false opened
           no_camera); [reflexivity | exact query_two_cameras_run].
Defined.

(** The rationals of the test runtime satisfy the two laws of [<]. *)
Lemma Qltb_irrefl (a : Q) : Demo.Qltb a a = false.
Proof.
  unfold Demo.Qltb. apply negb_false_iff, Qle_bool_iff, Qle_refl.
Qed.

Lemma Qltb_lt (a b : Q) : Demo.Qltb a b = true <-> (a < b)%Q.
Proof.
  unfold Demo.Qltb. rewrite negb_true_iff. split.
  - intros H. apply Qnot_le_lt. intros Hle.
    apply Qle_bool_iff in Hle. congruence.
  - intros H. destruct (Qle_bool b a) eqn:E; [|reflexivity].
    apply Qle_bool_iff in E. exfalso. exact (Qlt_not_le _ _ H E).
Qed.

Lemma Qltb_trans (a b c : Q) :
  Demo.Qltb a b = true -> Demo.Qltb b c = true -> Demo.Qltb a c = true.
Proof. rewrite !Qltb_lt. apply Qlt_trans. Qed.

(** Three frames at 15.5 m, unreadable, and 7.25 m: the maximum is 15.5,
    the second frame has no depth; the minimum returned is 7.25 only
    because a later depth fell below the starting value. *)
Example getDepths_three_frames :
  depths_of depth_data "CTControl" "$OHPR" 5 ","
  = (725 # 100, 155 # 10, [(1, Some (155 # 10)); (2, None); (3, Some (725 # 100))]).
Proof. vm_compute. reflexivity. Qed.

Lemma getDepths_maximum_witness :
  (forall a, float_ltb a a = false)
  /\ (forall a b c, float_ltb a b = true -> float_ltb b c = true ->
                    float_ltb a c = true)
  /\ (let r := depths_of depth_data "CTControl" "$OHPR" 5 "," in
      (forall frame d,
         PyDict.get frame (snd r) = Some (Some d) ->
         float_ltb (snd (fst r)) d = false)
      /\ (forall e frames,
            PyDict.get "CTControl" depth_data = Some e ->
            PyDict.get "$OHPR" (se_headers e) = Some frames ->
            (forall frame,
               In frame (PyDict.keys (snd r)) <-> In frame (PyDict.keys frames))
            /\ (snd (fst r) = float_of_Z (-999999)
                \/ exists frame data,
                     In (frame, data) frames
                     /\ parse_depth "," 5 data = Some (snd (fst r))))).
Proof.
  split; [exact Qltb_irrefl|]. split; [exact Qltb_trans|].
  exact (getDepths_maximum Qltb_irrefl Qltb_trans depth_data
           "CTControl" "$OHPR" 5 ",").
Defined.

Lemma open_keeps_rows_witness :
  isfile files (dbFile files "/data/D1") = true
  /\ (let db' := snd (snd (open files true "/data/D1" "CTMetadata"
                             (init, legacy))) in
      tbl_cameras db' = tbl_cameras legacy
      /\ tbl_dropped db' = tbl_dropped legacy
      /\ tbl_sensor_data db' = tbl_sensor_data legacy
      /\ tbl_async_data db' = tbl_async_data legacy
      /\ tbl_marks db' = tbl_marks legacy
      /\ map (fun r => (img_number r, img_camera r, img_time r, img_name r))
            (tbl_images db')
         = map (fun r => (img_number r, img_camera r, img_time r, img_name r))
             (tbl_images legacy)
      /\ (has_column "images" "discarded" (schema legacy) = true ->
          map img_discarded (tbl_images db')
          = map img_discarded (tbl_images legacy))
      /\ (has_column "images" "still_image" (schema legacy) = true ->
          map img_still_image (tbl_images db')
          = map img_still_image (tbl_images legacy))
      /\ (exists added,
            tbl_deployment_data db' = tbl_deployment_data legacy ++ added)).
Proof.
  split; [reflexivity|].
  apply (open_keeps_rows files "/data/D1" "CTMetadata" init legacy).
  reflexivity.
Defined.

Lemma open_provides_schema_witness :
  isfile files (dbFile files "/data/D1") = true
  /\ (let sch' := schema (snd (snd (open files true "/data/D1" "CTMetadata"
                                      (init, legacy)))) in
      (forall t, In t new_tables -> table_exists (fst t) sch' = true)
      /\ (forall c, In c new_columns -> table_exists (fst c) sch' = true ->
            has_column (fst c) (snd c) sch' = true)
      /\ (forall t, table_exists t (schema legacy) = true ->
            table_exists t sch' = true)
      /\ (forall t c, has_column t c (schema legacy) = true ->
            has_column t c sch' = true)
      /\ (table_exists "images" (schema legacy) = true ->
          has_column "images" "still_image" sch' = true
          /\ has_column "images" "discarded" sch' = true)).
Proof.
  split; [reflexivity|].
  apply (open_provides_schema files "/data/D1" "CTMetadata" init legacy).
  reflexivity.
Defined.

(** The list the downloader builds for the camera [Left] of the store
    with two cameras. *)
Lemma query_two_cameras_jpg_run :
  query two_cameras None None false opened_jpg
  = (Ok tt, snd (query two_cameras None None false opened_jpg)).
Proof.
  assert (fst (query two_cameras None None false opened_jpg) = Ok tt) as E
    by (vm_compute; reflexivity).
  rewrite <- E. apply surjective_pairing.
Qed.

Lemma download_list_excludes_discards_witness :
  let s := snd (query two_cameras None None false opened_jpg) in
  connected opened_jpg = true
  /\ query two_cameras None None false opened_jpg = (Ok tt, s)
  /\ imageExtension s = Some ".jpg"
  /\ In "Left" (known_cameras two_cameras)
  /\ exists files,
       sourceFiles s "Left" = Some files
       /\ (forall f, In f files ->
             exists r,
               In r (tbl_images two_cameras) /\ img_camera r = "Left"
               /\ is_still r = true /\ discardClause r = true
               /\ f = (img_name r ++ ".jpg")%string)
       /\ (forall r,
             In r (tbl_images two_cameras) -> img_camera r = "Left" ->
             is_still r = true -> discardClause r = true ->
             timeClause None None (img_time r) = true ->
             exists r',
               In r' (tbl_images two_cameras) /\ img_camera r' = "Left"
               /\ img_number r' = img_number r
               /\ In (img_name r' ++ ".jpg")%string files).
Proof.
  cbv zeta.
  assert (imageExtension (snd (query two_cameras None None false opened_jpg))
          = Some ".jpg") as Hext by (vm_compute; reflexivity).
  assert (In "Left" (known_cameras two_cameras)) as Hin
    by (vm_compute; auto).
  split; [reflexivity|]. split; [exact query_two_cameras_jpg_run|].
  split; [exact Hext|]. split; [exact Hin|].
  exact (download_list_excludes_discards two_cameras opened_jpg "Left"
           eq_refl query_two_cameras_jpg_run Hext Hin).
Defined.

(** A deployment folder is cut off its path, whatever it is called; a
    path without the two marks is kept; the marks are looked for in the
    whole path, so a parent folder that shows them costs another path its
    last component. *)
Example trimDeploymentPath_runs :
  trimDeploymentPath "/data/D20210218-T194618" = "/data"
  /\ trimDeploymentPath "/data/cruise" = "/data/cruise"
  /\ trimDeploymentPath "D20210218-T194618" = ""
  /\ trimDeploymentPath "/data/D20210218-T194618/" = "/data/D20210218-T194618"
  /\ trimDeploymentPath "/D2021-Trip/images" = "/D2021-Trip"
  /\ updateCbPaths
       ["/data/D20210218-T194618"; "/data"; "/data/D20210219-T010203"; "/dest"]
     = ["/data"; "/dest"].
Proof. repeat split. Qed.

(** The adjustments of the camera [Left] are stored under its MAC address
    and read back; they go into [deployment_data] as text. *)
Example setImageAdjustments_run :
  let self := snd (query two_cameras None None false opened) in
  let db' := snd (setImageAdjustments "Left" "gain=1.5" self two_cameras) in
  tbl_deployment_data db'
  = [ ("hours_offset_to_utc", "2");
      ("00-00-00-00-00-01_adjustments", "Z2Fpbj0xLjU=") ]
  /\ getImageAdjustments "Left" self db' = Ok (Some "gain=1.5")
  /\ getImageAdjustments "Right" self db' = Ok None
  /\ tbl_deployment_data
       (snd (setImageAdjustments "Left" "gain=2" self db'))
     = [ ("hours_offset_to_utc", "2");
         ("00-00-00-00-00-01_adjustments", "Z2Fpbj0y") ].
Proof. cbv zeta. repeat split; vm_compute; reflexivity. Qed.

Lemma adjustments_round_trip_witness :
  let self := snd (query two_cameras None None false opened) in
  let info :=
    mkCameraInfo "00-00-00-00-00-01" "Blackfly" "port" (orientation_of "NONE") in
  let r := setImageAdjustments "Left" "gain=1.5" self two_cameras in
  connected self = true
  /\ PyDict.get "Left" (cameras self) = Some info
  /\ plain (mac_address info) = true
  /\ table_exists "deployment_data" (schema two_cameras) = true
  /\ plain (b64encode "gain=1.5") = true
  /\ b64decode (b64encode "gain=1.5") = Some "gain=1.5"
  /\ fst r = Ok tt
  /\ getImageAdjustments "Left" self (snd r) = Ok (Some "gain=1.5")
  /\ recorded (snd r) = recorded two_cameras.
Proof.
  cbv zeta.
  assert (connected (snd (query two_cameras None None false opened)) = true)
    as Hc by (vm_compute; reflexivity).
  assert (PyDict.get "Left"
            (cameras (snd (query two_cameras None None false opened)))
          = Some (mkCameraInfo "00-00-00-00-00-01" "Blackfly" "port"
                    (orientation_of "NONE"))) as Hl
    by (vm_compute; reflexivity).
  assert (table_exists "deployment_data" (schema two_cameras) = true) as Ht
    by (vm_compute; reflexivity).
  assert (plain (b64encode "gain=1.5") = true) as Hv
    by (vm_compute; reflexivity).
  assert (b64decode (b64encode "gain=1.5") = Some "gain=1.5") as Hd
    by (vm_compute; reflexivity).
  destruct (adjustments_round_trip "Left" _ two_cameras Hc Hl
              eq_refl Ht Hv Hd) as (H1 & H2 & _ & _ & H5 & _).
  split; [exact Hc|]. split; [exact Hl|]. split; [reflexivity|].
  split; [exact Ht|]. split; [exact Hv|]. split; [exact Hd|].
  split; [exact H1|].
  split; [exact (H2 "Left" _ Hl eq_refl) | exact H5].
Defined.

(** The marks of the store with two cameras: the snapshot covers the
    frames 1 to 2, so the mark on frame 9 stays in the store only. *)
Lemma query_marks_window_witness :
  let s := snd (query two_cameras None None false opened) in
  connected opened = true
  /\ query two_cameras None None false opened = (Ok tt, s)
  /\ marks s
     = PyDict.of_list (select_marks two_cameras (startImage s) (endImage s))
  /\ (forall f d,
        PyDict.get f (marks s) = Some d ->
        In (f, d) (tbl_marks two_cameras)
        /\ startImage s <= f <= endImage s)
  /\ (forall f d,
        In (f, d) (tbl_marks two_cameras) ->
        startImage s <= f <= endImage s ->
        PyDict.mem f (marks s) = true)
  /\ (forall f, f < startImage s \/ endImage s < f ->
        PyDict.mem f (marks s) = false).
Proof.
  cbv zeta. split; [reflexivity|]. split; [exact query_two_cameras_run|].
  exact (query_marks_window two_cameras None None false opened eq_refl
           query_two_cameras_run).
Defined.

(** A folder with a number used twice: the second file is given the next
    number, in the folder when asked for and in the dictionary in any
    case; the file before one that is no image is left out, and so is
    the only file of a folder. *)
Example getImageList_repeated_number :
  ImageList.getImageList "/data/Left" true repeated_folder
  = Some ([(1, "00001_a.jpg"); (2, "00002_b.jpg")],
          ["/data/Left/00001_a.jpg"; "/data/Left/00002_b.jpg";
           "/data/Left/00003_c.jpg"; "/data/Left/notes.jpeg"])
  /\ ImageList.getImageList "/data/Left" false repeated_folder
     = Some ([(1, "00001_a.jpg"); (2, "00002_b.jpg")], repeated_folder)
  /\ ImageList.getImageList "/data/Left" true ["/data/Left/00001_a.jpg"]
     = Some ([], ["/data/Left/00001_a.jpg"])
  /\ ImageList.format_05i 123456 = "123456".
Proof. repeat split. Qed.

Lemma getImageList_entries_witness :
  let d := [(1, "00001_a.jpg"); (2, "00002_b.jpg")] in
  os_listdir "/data/Left" repeated_folder = Some repeated_names
  /\ ImageList.getImageList "/data/Left" false repeated_folder
     = Some (d, repeated_folder)
  /\ (forall k name,
        PyDict.get k d = Some name ->
        py_int (ImageList.number_text name) = Some k
        /\ (lower (ImageList.last3 name) = "jpg"
            \/ lower (ImageList.last3 name) = "tif"))
  /\ (List.length (PyDict.keys d) <= List.length repeated_names - 1)%nat
  /\ (false = false -> repeated_folder = repeated_folder).
Proof.
  cbv zeta. split; [reflexivity|]. split; [reflexivity|].
  exact (@getImageList_entries Folders "/data/Left" false repeated_folder
           repeated_names [(1, "00001_a.jpg"); (2, "00002_b.jpg")]
           repeated_folder eq_refl eq_refl).
Defined.

Lemma getImageList_numbered_witness :
  os_listdir "/data/Left" numbered_folder = Some numbered_names
  /\ (forall i name,
        nth_error (sort_by String.leb numbered_names) i = Some name ->
        ImageList.is_image name = true
        /\ py_int (ImageList.number_text name) = Some (1 + Z.of_nat i))
  /\ exists d,
       ImageList.getImageList "/data/Left" true numbered_folder
       = Some (d, numbered_folder)
       /\ PyDict.keys d
          = map (fun i => 1 + Z.of_nat i)
              (seq 0 (List.length numbered_names - 1))
       /\ forall i name,
            nth_error (sort_by String.leb numbered_names) i = Some name ->
            PyDict.get (1 + Z.of_nat i) d
            = if (S i <? List.length numbered_names)%nat
              then Some name else None.
Proof.
  assert (forall i name,
            nth_error (sort_by String.leb numbered_names) i = Some name ->
            ImageList.is_image name = true
            /\ py_int (ImageList.number_text name) = Some (1 + Z.of_nat i))
    as Hall.
  { intros [|[|[|i]]] name E; simpl in E;
      [| | |destruct i; discriminate];
      injection E as <-; split; reflexivity. }
  split; [reflexivity|]. split; [exact Hall|].
  exact (getImageList_numbered "/data/Left" true numbered_folder 1
           eq_refl Hall).
Defined.
